(** * QA_TESTOR: the agent execution loop

    A shallow embedding of the browser-driving agent loop of the repository
    (the [runQualityAnalysis] variants and [executeWebTask]) together with
    the properties its design document states about it.

    The TypeScript code is asynchronous and talks to two collaborators, a
    puppeteer page and a chat-completion endpoint.  Both are modelled by a
    [World]: an oracle that answers the n-th awaited call of a run and says
    which page events are delivered while that call is pending.  The local
    variables of a run form a [State] record that is threaded through a
    state-and-exception monad [M]; like in JavaScript, assignments made
    before an exception is thrown stay visible to the handler. *)

From Stdlib Require Import ZArith Ascii.
From stdpp Require Import base option list strings pretty gmap.

Set Warnings "-register-all".

(** ** JavaScript values *)

(** What [JSON.parse] produces, plus [undefined].  Numbers are integers. *)
Inductive Value : Type :=
  | VUndefined
  | VNull
  | VBool (b : bool)
  | VNum (n : Z)
  | VStr (s : string)
  | VArr (elems : list Value)
  | VObj (fields : list (string * Value)).

(** [if (v)], [!v], [a || b]. *)
Definition truthy (v : Value) : bool :=
  match v with
  | VUndefined | VNull => false
  | VBool b => b
  | VNum n => negb (n =? 0)%Z
  | VStr s => negb (String.eqb s "")
  | VArr _ | VObj _ => true
  end.

Definition js_or (a b : Value) : Value := if truthy a then a else b.

Fixpoint assoc (k : string) (fs : list (string * Value)) : Value :=
  match fs with
  | [] => VUndefined
  | (k', v) :: fs' => if String.eqb k k' then v else assoc k fs'
  end.

(** [v?.k]: [undefined] when [v] is nullish or has no such property. *)
Definition field (k : string) (v : Value) : Value :=
  match v with
  | VObj fs => assoc k fs
  | _ => VUndefined
  end.

Definition nullish (v : Value) : bool :=
  match v with
  | VUndefined | VNull => true
  | _ => false
  end.

(** [v === "lit"] as used by [switch] and the [===] tests of the loop. *)
Definition is_str (v : Value) (lit : string) : bool :=
  match v with
  | VStr s => String.eqb s lit
  | _ => false
  end.

Fixpoint join (sep : string) (l : list string) : string :=
  match l with
  | [] => ""
  | [x] => x
  | x :: rest => x +:+ sep +:+ join sep rest
  end.

(** String conversion of a template literal, [`${v}`].  An object is
    converted by [Object.prototype.toString]; an object with a member
    [toString] of its own, on which the conversion raises a [TypeError],
    is taken not to occur in a proposal. *)
Fixpoint to_string (v : Value) : string :=
  match v with
  | VUndefined => "undefined"
  | VNull => "null"
  | VBool true => "true"
  | VBool false => "false"
  | VNum n => pretty n
  | VStr s => s
  | VArr l =>
      join "," (map (λ x, if nullish x then "" else to_string x) l)
  | VObj _ => "[object Object]"
  end.

(** ** String helpers *)

Definition dq : string := String (ascii_of_nat 34) "".
Definition nl : string := String (ascii_of_nat 10) "".

(** [hay.includes(needle)] *)
Fixpoint includes (needle hay : string) : bool :=
  String.prefix needle hay ||
  match hay with
  | EmptyString => false
  | String _ rest => includes needle rest
  end.

Definition is_space (c : ascii) : bool :=
  let n := nat_of_ascii c in
  (n =? 32) || ((9 <=? n) && (n <=? 13)).

Fixpoint trim_start (s : string) : string :=
  match s with
  | String c rest => if is_space c then trim_start rest else s
  | EmptyString => EmptyString
  end.

Definition trim_end (s : string) : string :=
  String.rev (trim_start (String.rev s)).

Definition trim (s : string) : string := trim_end (trim_start s).

Definition lower_char (c : ascii) : ascii :=
  let n := nat_of_ascii c in
  if (65 <=? n) && (n <=? 90) then ascii_of_nat (n + 32) else c.

Fixpoint toLowerCase (s : string) : string :=
  match s with
  | EmptyString => EmptyString
  | String c rest => String (lower_char c) (toLowerCase rest)
  end.

Fixpoint drop_until (c : ascii) (s : string) : option string :=
  match s with
  | EmptyString => None
  | String c' rest => if Ascii.eqb c c' then Some s else drop_until c rest
  end.

(** [content.match(/\{[\s\S]*\}/)]: from the first opening brace to the
    last closing brace after it (the star is greedy). *)
Definition match_object (content : string) : option string :=
  from_brace ← drop_until "{" content;
  to_brace ← drop_until "}" (String.rev from_brace);
  Some (String.rev to_brace).

Fixpoint drop_chars (n : nat) (s : string) : string :=
  match n, s with
  | S n', String _ rest => drop_chars n' rest
  | _, _ => s
  end.

Definition fence : string := "```".

(** [.replace(/^```json\s*/, '')] *)
Definition strip_fence_open (s : string) : string :=
  if String.prefix (fence +:+ "json") s
  then trim_start (drop_chars 7 s)
  else s.

(** [.replace(/\s*```$/, '')] *)
Definition strip_fence_close (s : string) : string :=
  if String.prefix fence (String.rev s)
  then String.rev (trim_start (drop_chars 3 (String.rev s)))
  else s.

Definition is_line_terminator (c : ascii) : bool :=
  let n := nat_of_ascii c in (n =? 10) || (n =? 13).

(** [.replace(/\/\/.*$/gm, '')]: on every line, drop what follows the
    first pair of slashes. *)
Fixpoint strip_comments_from (in_comment : bool) (s : string) : string :=
  match s with
  | EmptyString => EmptyString
  | String c rest =>
      if is_line_terminator c then String c (strip_comments_from false rest)
      else if in_comment then strip_comments_from true rest
      else if String.prefix "//" s then strip_comments_from true rest
      else String c (strip_comments_from false rest)
  end.

Definition strip_comments (s : string) : string := strip_comments_from false s.

(** [text.endsWith(newline)] *)
Definition ends_with_newline (text : string) : bool :=
  String.prefix nl (String.rev text).

(** ** The collaborators *)

Inductive Res (A : Type) : Type :=
  | Ok (a : A)
  | Throw (message : string).
Arguments Ok {A} a.
Arguments Throw {A} message.

(** Events a puppeteer page emits: [console], [pageerror], [requestfailed]
    (with [request.failure()], which may be null). *)
Inductive PageEvent : Type :=
  | Console (type text : string)
  | PageError (message : string)
  | RequestFailed (url : string) (failure : option string).

Record HTTPResponse : Type := { ok : bool; status : Z }.

(** A chat completion, as far as the code looks into it:
    [choices[0].message.content], which may be null. *)
Inductive ChatReply : Type :=
  | NoChoices
  | Choice (content : option string).

(** A [fetch] response of the completions endpoint. *)
Record FetchReply : Type :=
  { f_ok : bool; f_statusText : string; f_data : ChatReply }.

(** Every awaited operation on a collaborator. *)
Inductive Call : Type :=
  | Launch
  | NewPage
  | Close
  | Goto (url : Value)
  | WaitForSelector (selector : Value)
  | Click (selector : Value)
  | TypeText (selector text : Value)
  | SelectValue (selector value : Value)
  | PressEnter
  | WaitForNavigation
  | Query (selector : string)
  | Evaluate (script : string) (args : list Value)
  | Screenshot
  | PageUrl
  | Sleep (ms : Value)
  | Chat (purpose : string)
  | Fetch (purpose : string).

(** The oracle.  The n-th call of a run reads its answer at index n from
    the field of its result type; [w_events n] are the page events handled
    while that call is pending, and [w_timer_first n] says that a racing
    timer fires before the call settles. *)
Record World : Type := {
  w_events : nat → list PageEvent;
  w_unit : nat → Res unit;
  w_string : nat → Res string;
  w_url : nat → string;
  w_bool : nat → Res bool;
  w_value : nat → Res Value;
  w_chat : nat → Res ChatReply;
  w_fetch : nat → Res FetchReply;
  w_response : nat → Res (option HTTPResponse);
  w_timer_first : nat → bool
}.

(** [JSON.parse] and [JSON.stringify] belong to the host, not to the
    repository; [JSON_parse] returns [None] where the host throws a
    SyntaxError. *)
Class JsonHost : Type := {
  JSON_parse : string → option Value;
  JSON_stringify : Value → string;
  JSON_stringify_indented : Value → string
}.

(** ** The variables of a run *)

Record State : Type := {
  browser : bool;  (* the [browser] variable holds a launched browser *)
  listening : bool;  (* the [page.on] handlers are registered *)
  result : string;  (* the transcript *)
  currentState : string;
  currentUrl : Value;  (* [executeWebTask] only *)
  screenshots : list string;
  completedActions : list string;
  videoClicked : bool;
  criticalErrorOccurred : bool;
  pageErrorOccurred : bool;
  errors : list string;
  actionAttempts : gmap string nat;
  taskCompleted : bool;
  stepCount : nat;
  calls : list Call;  (* ghost: every awaited call so far, oldest first *)
  entered : list nat;  (* ghost: stepCount at each entry of a loop body *)
  executed : list string;  (* ghost: signatures handed to the action switch *)
  skipped : list string  (* ghost: signatures suppressed by the guard *)
}.

Definition set_browser (v : bool) (s : State) : State :=
  {| browser := v; listening := listening s; result := result s;
     currentState := currentState s; currentUrl := currentUrl s;
     screenshots := screenshots s; completedActions := completedActions s;
     videoClicked := videoClicked s;
     criticalErrorOccurred := criticalErrorOccurred s;
     pageErrorOccurred := pageErrorOccurred s; errors := errors s;
     actionAttempts := actionAttempts s; taskCompleted := taskCompleted s;
     stepCount := stepCount s; calls := calls s; entered := entered s;
     executed := executed s; skipped := skipped s |}.

Definition set_listening (v : bool) (s : State) : State :=
  {| browser := browser s; listening := v; result := result s;
     currentState := currentState s; currentUrl := currentUrl s;
     screenshots := screenshots s; completedActions := completedActions s;
     videoClicked := videoClicked s;
     criticalErrorOccurred := criticalErrorOccurred s;
     pageErrorOccurred := pageErrorOccurred s; errors := errors s;
     actionAttempts := actionAttempts s; taskCompleted := taskCompleted s;
     stepCount := stepCount s; calls := calls s; entered := entered s;
     executed := executed s; skipped := skipped s |}.

Definition set_result (v : string) (s : State) : State :=
  {| browser := browser s; listening := listening s; result := v;
     currentState := currentState s; currentUrl := currentUrl s;
     screenshots := screenshots s; completedActions := completedActions s;
     videoClicked := videoClicked s;
     criticalErrorOccurred := criticalErrorOccurred s;
     pageErrorOccurred := pageErrorOccurred s; errors := errors s;
     actionAttempts := actionAttempts s; taskCompleted := taskCompleted s;
     stepCount := stepCount s; calls := calls s; entered := entered s;
     executed := executed s; skipped := skipped s |}.

Definition set_currentState (v : string) (s : State) : State :=
  {| browser := browser s; listening := listening s; result := result s;
     currentState := v; currentUrl := currentUrl s;
     screenshots := screenshots s; completedActions := completedActions s;
     videoClicked := videoClicked s;
     criticalErrorOccurred := criticalErrorOccurred s;
     pageErrorOccurred := pageErrorOccurred s; errors := errors s;
     actionAttempts := actionAttempts s; taskCompleted := taskCompleted s;
     stepCount := stepCount s; calls := calls s; entered := entered s;
     executed := executed s; skipped := skipped s |}.

Definition set_currentUrl (v : Value) (s : State) : State :=
  {| browser := browser s; listening := listening s; result := result s;
     currentState := currentState s; currentUrl := v;
     screenshots := screenshots s; completedActions := completedActions s;
     videoClicked := videoClicked s;
     criticalErrorOccurred := criticalErrorOccurred s;
     pageErrorOccurred := pageErrorOccurred s; errors := errors s;
     actionAttempts := actionAttempts s; taskCompleted := taskCompleted s;
     stepCount := stepCount s; calls := calls s; entered := entered s;
     executed := executed s; skipped := skipped s |}.

Definition set_screenshots (v : list string) (s : State) : State :=
  {| browser := browser s; listening := listening s; result := result s;
     currentState := currentState s; currentUrl := currentUrl s;
     screenshots := v; completedActions := completedActions s;
     videoClicked := videoClicked s;
     criticalErrorOccurred := criticalErrorOccurred s;
     pageErrorOccurred := pageErrorOccurred s; errors := errors s;
     actionAttempts := actionAttempts s; taskCompleted := taskCompleted s;
     stepCount := stepCount s; calls := calls s; entered := entered s;
     executed := executed s; skipped := skipped s |}.

Definition set_completedActions (v : list string) (s : State) : State :=
  {| browser := browser s; listening := listening s; result := result s;
     currentState := currentState s; currentUrl := currentUrl s;
     screenshots := screenshots s; completedActions := v;
     videoClicked := videoClicked s;
     criticalErrorOccurred := criticalErrorOccurred s;
     pageErrorOccurred := pageErrorOccurred s; errors := errors s;
     actionAttempts := actionAttempts s; taskCompleted := taskCompleted s;
     stepCount := stepCount s; calls := calls s; entered := entered s;
     executed := executed s; skipped := skipped s |}.

Definition set_videoClicked (v : bool) (s : State) : State :=
  {| browser := browser s; listening := listening s; result := result s;
     currentState := currentState s; currentUrl := currentUrl s;
     screenshots := screenshots s; completedActions := completedActions s;
     videoClicked := v; criticalErrorOccurred := criticalErrorOccurred s;
     pageErrorOccurred := pageErrorOccurred s; errors := errors s;
     actionAttempts := actionAttempts s; taskCompleted := taskCompleted s;
     stepCount := stepCount s; calls := calls s; entered := entered s;
     executed := executed s; skipped := skipped s |}.

Definition set_criticalErrorOccurred (v : bool) (s : State) : State :=
  {| browser := browser s; listening := listening s; result := result s;
     currentState := currentState s; currentUrl := currentUrl s;
     screenshots := screenshots s; completedActions := completedActions s;
     videoClicked := videoClicked s; criticalErrorOccurred := v;
     pageErrorOccurred := pageErrorOccurred s; errors := errors s;
     actionAttempts := actionAttempts s; taskCompleted := taskCompleted s;
     stepCount := stepCount s; calls := calls s; entered := entered s;
     executed := executed s; skipped := skipped s |}.

Definition set_pageErrorOccurred (v : bool) (s : State) : State :=
  {| browser := browser s; listening := listening s; result := result s;
     currentState := currentState s; currentUrl := currentUrl s;
     screenshots := screenshots s; completedActions := completedActions s;
     videoClicked := videoClicked s;
     criticalErrorOccurred := criticalErrorOccurred s;
     pageErrorOccurred := v; errors := errors s;
     actionAttempts := actionAttempts s; taskCompleted := taskCompleted s;
     stepCount := stepCount s; calls := calls s; entered := entered s;
     executed := executed s; skipped := skipped s |}.

Definition set_errors (v : list string) (s : State) : State :=
  {| browser := browser s; listening := listening s; result := result s;
     currentState := currentState s; currentUrl := currentUrl s;
     screenshots := screenshots s; completedActions := completedActions s;
     videoClicked := videoClicked s;
     criticalErrorOccurred := criticalErrorOccurred s;
     pageErrorOccurred := pageErrorOccurred s; errors := v;
     actionAttempts := actionAttempts s; taskCompleted := taskCompleted s;
     stepCount := stepCount s; calls := calls s; entered := entered s;
     executed := executed s; skipped := skipped s |}.

Definition set_actionAttempts (v : gmap string nat) (s : State) : State :=
  {| browser := browser s; listening := listening s; result := result s;
     currentState := currentState s; currentUrl := currentUrl s;
     screenshots := screenshots s; completedActions := completedActions s;
     videoClicked := videoClicked s;
     criticalErrorOccurred := criticalErrorOccurred s;
     pageErrorOccurred := pageErrorOccurred s; errors := errors s;
     actionAttempts := v; taskCompleted := taskCompleted s;
     stepCount := stepCount s; calls := calls s; entered := entered s;
     executed := executed s; skipped := skipped s |}.

Definition set_taskCompleted (v : bool) (s : State) : State :=
  {| browser := browser s; listening := listening s; result := result s;
     currentState := currentState s; currentUrl := currentUrl s;
     screenshots := screenshots s; completedActions := completedActions s;
     videoClicked := videoClicked s;
     criticalErrorOccurred := criticalErrorOccurred s;
     pageErrorOccurred := pageErrorOccurred s; errors := errors s;
     actionAttempts := actionAttempts s; taskCompleted := v;
     stepCount := stepCount s; calls := calls s; entered := entered s;
     executed := executed s; skipped := skipped s |}.

Definition set_stepCount (v : nat) (s : State) : State :=
  {| browser := browser s; listening := listening s; result := result s;
     currentState := currentState s; currentUrl := currentUrl s;
     screenshots := screenshots s; completedActions := completedActions s;
     videoClicked := videoClicked s;
     criticalErrorOccurred := criticalErrorOccurred s;
     pageErrorOccurred := pageErrorOccurred s; errors := errors s;
     actionAttempts := actionAttempts s; taskCompleted := taskCompleted s;
     stepCount := v; calls := calls s; entered := entered s;
     executed := executed s; skipped := skipped s |}.

Definition set_calls (v : list Call) (s : State) : State :=
  {| browser := browser s; listening := listening s; result := result s;
     currentState := currentState s; currentUrl := currentUrl s;
     screenshots := screenshots s; completedActions := completedActions s;
     videoClicked := videoClicked s;
     criticalErrorOccurred := criticalErrorOccurred s;
     pageErrorOccurred := pageErrorOccurred s; errors := errors s;
     actionAttempts := actionAttempts s; taskCompleted := taskCompleted s;
     stepCount := stepCount s; calls := v; entered := entered s;
     executed := executed s; skipped := skipped s |}.

Definition set_entered (v : list nat) (s : State) : State :=
  {| browser := browser s; listening := listening s; result := result s;
     currentState := currentState s; currentUrl := currentUrl s;
     screenshots := screenshots s; completedActions := completedActions s;
     videoClicked := videoClicked s;
     criticalErrorOccurred := criticalErrorOccurred s;
     pageErrorOccurred := pageErrorOccurred s; errors := errors s;
     actionAttempts := actionAttempts s; taskCompleted := taskCompleted s;
     stepCount := stepCount s; calls := calls s; entered := v;
     executed := executed s; skipped := skipped s |}.

Definition set_executed (v : list string) (s : State) : State :=
  {| browser := browser s; listening := listening s; result := result s;
     currentState := currentState s; currentUrl := currentUrl s;
     screenshots := screenshots s; completedActions := completedActions s;
     videoClicked := videoClicked s;
     criticalErrorOccurred := criticalErrorOccurred s;
     pageErrorOccurred := pageErrorOccurred s; errors := errors s;
     actionAttempts := actionAttempts s; taskCompleted := taskCompleted s;
     stepCount := stepCount s; calls := calls s; entered := entered s;
     executed := v; skipped := skipped s |}.

Definition set_skipped (v : list string) (s : State) : State :=
  {| browser := browser s; listening := listening s; result := result s;
     currentState := currentState s; currentUrl := currentUrl s;
     screenshots := screenshots s; completedActions := completedActions s;
     videoClicked := videoClicked s;
     criticalErrorOccurred := criticalErrorOccurred s;
     pageErrorOccurred := pageErrorOccurred s; errors := errors s;
     actionAttempts := actionAttempts s; taskCompleted := taskCompleted s;
     stepCount := stepCount s; calls := calls s; entered := entered s;
     executed := executed s; skipped := v |}.

(** The state in which every run starts. *)
Definition initial : State :=
  {| browser := false; listening := false; result := ""; currentState := "";
     currentUrl := VStr ""; screenshots := []; completedActions := [];
     videoClicked := false; criticalErrorOccurred := false;
     pageErrorOccurred := false; errors := []; actionAttempts := ∅;
     taskCompleted := false; stepCount := 0;
     calls := []; entered := []; executed := []; skipped := [] |}.

(** What a run hands back to its caller: [{ result, screenshots?, error? }]. *)
Record Outcome : Type := {
  o_result : string;
  o_screenshots : option (list string);
  o_error : option string
}.

(** The object the outer [catch] of [runQualityAnalysis] returns. *)
Definition failure_outcome (message : string) : Outcome :=
  {| o_result := "An error occurred during the analysis";
     o_screenshots := None;
     o_error := Some message |}.

(** ** The monad of a run *)

(** State first, then exceptions: a thrown error keeps the state. *)
Definition M (A : Type) : Type := State → Res A * State.

Definition ret {A} (a : A) : M A := λ s, (Ok a, s).

Definition bind {A B} (m : M A) (k : A → M B) : M B := λ s,
  match m s with
  | (Ok a, s') => k a s'
  | (Throw e, s') => (Throw e, s')
  end.

Declare Scope run_scope.
Delimit Scope run_scope with run.
Notation "x ← y ; z" := (bind y (λ x, z))
  (at level 20, y at level 100, z at level 200, only parsing) : run_scope.
Notation "x ;; z" := (bind x (λ _, z))
  (at level 100, z at level 200, only parsing, right associativity) : run_scope.
Open Scope run_scope.

Definition throw {A} (e : string) : M A := λ s, (Throw e, s).

Definition try_catch {A} (m : M A) (handler : string → M A) : M A := λ s,
  match m s with
  | (Ok a, s') => (Ok a, s')
  | (Throw e, s') => handler e s'
  end.

(** [try { m } finally { cleanup }]: the cleanup runs on both exits, and an
    exception of the cleanup replaces the result of [m]. *)
Definition try_finally {A} (m : M A) (cleanup : M unit) : M A := λ s,
  match cleanup (m s).2 with
  | (Ok _, s') => ((m s).1, s')
  | (Throw e, s') => (Throw e, s')
  end.

Definition gets {A} (f : State → A) : M A := λ s, (Ok (f s), s).

Definition modify (f : State → State) : M unit := λ s, (Ok tt, f s).

(** [result += text] *)
Definition log (text : string) : M unit :=
  modify (λ s, set_result (result s +:+ text) s).

Definition TypeError : string := "TypeError".

(** Control flow of one pass through a loop body. *)
Inductive Flow : Type :=
  | Next
  | Break
  | Return (o : Outcome).

(** How a fuelled loop ends: [Done] when its condition fails or the body
    breaks, [Returned] on a [return] inside the body. *)
Inductive LoopExit : Type :=
  | OutOfFuel
  | Done
  | Returned (o : Outcome).

(** ** Awaited calls *)

Section Calls.
Context (W : World) (handle : PageEvent → State → State).

Definition deliver (events : list PageEvent) (s : State) : State :=
  foldl (λ acc e, handle e acc) s events.

(** [await c]: once the handlers are registered they run for the events
    that arrive while the call is pending; the call is logged, and its
    answer comes from the world. *)
Definition await {A} (answer : World → nat → Res A) (c : Call) : M A := λ s,
  let n := length (calls s) in
  let s' := if listening s then deliver (w_events W n) s else s in
  (answer W n, set_calls (calls s' ++ [c]) s').

(** [await new Promise(resolve => setTimeout(resolve, ms))] cannot fail. *)
Definition sleep (ms : Value) : M unit := λ s,
  (Ok tt, (await w_unit (Sleep ms) s).2).

(** [await Promise.race([sleep(...), m])]: when the timer fires first,
    what [m] settles to is never looked at. *)
Definition race_timer {A} (m : M A) : M (option A) := λ s,
  if w_timer_first W (length (calls s)) then (Ok None, (m s).2)
  else
    match m s with
    | (Ok a, s') => (Ok (Some a), s')
    | (Throw e, s') => (Throw e, s')
    end.

(** [page.url()] is synchronous: no event is handled meanwhile. *)
Definition page_url : M string := λ s,
  (Ok (w_url W (length (calls s))), set_calls (calls s ++ [PageUrl]) s).

(** *** Page helpers the variants share word for word *)

Definition clickElement (selector : Value) : M unit :=
  await w_unit (WaitForSelector selector);;
  await w_unit (Click selector).

Definition typeText (selector text : Value) : M unit :=
  await w_unit (WaitForSelector selector);;
  await w_unit (TypeText selector text).

Definition selectOption (selector value : Value) : M unit :=
  await w_unit (WaitForSelector selector);;
  await w_unit (SelectValue selector value).

Definition forceSelectOption (selector value : Value) : M unit :=
  await w_unit (Evaluate "forceSelect" [selector; value]).

Definition takeScreenshot : M string :=
  await w_string Screenshot.

Definition extractLinks : M Value :=
  await w_value (Evaluate "links" []).

Definition scroll (direction : Value) : M unit :=
  await w_unit (Evaluate "scrollBy" [direction]).

Definition highlightElements (selector : Value) : M unit :=
  await w_unit (Evaluate "highlight" [selector]).

Definition checkIfVideoPlaying : M bool :=
  await w_bool (Evaluate "videoPlaying" []).

Definition extractPageContent : M string :=
  await w_string (Evaluate "pageContent" []).

Definition alternatives : list string :=
  [ "#video-title";
    ".ytd-video-renderer";
    "a.ytd-video-renderer";
    "#contents ytd-video-renderer";
    "ytd-video-renderer #video-title";
    "ytd-video-renderer .ytd-video-renderer";
    "a.ytd-video-renderer h3";
    "#contents .ytd-video-renderer h3";
    "a[href^=" +:+ dq +:+ "/watch" +:+ dq +:+ "]";
    "a[title]" ].

(** The [for ... of] loop of [findAlternativeSelector]. *)
Fixpoint first_present (selectors : list string) : M (option string) :=
  match selectors with
  | [] => ret None
  | selector :: rest =>
      element ← await w_bool (Query selector);
      if element then ret (Some selector) else first_present rest
  end.

Definition findAlternativeSelector (originalSelector : Value)
  : M (option string) :=
  first_present alternatives.

(** [clickWithRetry(page, selector, maxAttempts)]: [remaining] counts the
    passes the [for] loop has left, [attempt] is its loop variable. *)
Fixpoint clickWithRetry_from (remaining attempt maxAttempts : nat)
    (selector : Value) : M bool :=
  match remaining with
  | 0 => ret false
  | S remaining' =>
      returned ← try_catch
        (await w_unit (WaitForSelector selector);;
         await w_unit (Click selector);;
         ret (Some true))
        (λ _,
          if attempt =? maxAttempts - 1 then
            try_catch
              (await w_unit (Evaluate "scrollIntoView" [selector]);;
               sleep (VNum 1000);;
               await w_unit (Click selector);;
               ret (Some true))
              (λ _, ret (Some false))
          else
            sleep (VNum 1000);;
            ret None);
      match returned with
      | Some b => ret b
      | None =>
          clickWithRetry_from remaining' (S attempt) maxAttempts selector
      end
  end.

Definition clickWithRetry (selector : Value) : M bool :=
  clickWithRetry_from 3 0 3 selector.

(** [summary.choices[0].message.content] *)
Definition content_of (reply : ChatReply) : M Value :=
  match reply with
  | NoChoices => throw TypeError
  | Choice None => ret VNull
  | Choice (Some c) => ret (VStr c)
  end.

(** [summary.choices?.[0]?.message?.content || ''] *)
Definition content_or_empty (reply : ChatReply) : string :=
  match reply with
  | Choice (Some c) => c
  | _ => ""
  end.

End Calls.

(** [v.k] where a nullish [v] raises a TypeError. *)
Definition member (k : string) (v : Value) : M Value :=
  if nullish v then throw TypeError else ret (field k v).

(** [completedActions.push(entry)] *)
Definition push_completed (entry : string) : M unit :=
  modify (λ s, set_completedActions (completedActions s ++ [entry]) s).

(** The default step of the [generateNextStep] functions that have one. *)
Definition default_step : Value :=
  VObj [ ("thought", VStr "Unable to determine next step due to an error");
         ("action", VStr "SUMMARIZE");
         ("params", VObj []) ].

Definition completion_unknown : Value :=
  VObj [ ("completed", VBool false);
         ("reason", VStr "Unable to determine task completion") ].

(** [`${nextStep.action}_${nextStep.params?.selector || ''}`] *)
Definition actionKey (nextStep : Value) : string :=
  to_string (field "action" nextStep) +:+ "_" +:+
  to_string (js_or (field "selector" (field "params" nextStep)) (VStr "")).

(** The names that [Object.prototype] defines.  [actionAttempts] starts as
    the object literal [{}], so it answers these names although it holds
    no count for them. *)
Definition object_prototype : list string :=
  [ "constructor"; "__defineGetter__"; "__defineSetter__"; "hasOwnProperty";
    "__lookupGetter__"; "__lookupSetter__"; "isPrototypeOf";
    "propertyIsEnumerable"; "toString"; "valueOf"; "__proto__";
    "toLocaleString" ].

Definition inherited (key : string) : bool :=
  bool_decide (key ∈ object_prototype).

(** What [actionAttempts[key]] reads.  The map of the state holds the
    counts, which are the numbers the object owns.  [Foreign] is what is
    read at a name of [Object.prototype] that has no count: the inherited
    function or object, or the string that the assignment of the loop made
    of it and stored at that name.  Such a value is truthy, compares with
    3 as [NaN], and [+ 1] appends to its text; assigned to [__proto__] it
    is dropped by the setter, and at the other names it is a string again.
    So no count ever appears at such a name. *)
Inductive Attempt : Type :=
  | Unset
  | Count (n : nat)
  | Foreign.

Definition read_attempts (attempts : gmap string nat) (key : string)
  : Attempt :=
  match attempts !! key with
  | Some n => Count n
  | None => if inherited key then Foreign else Unset
  end.

(** [actionAttempts[actionKey] && actionAttempts[actionKey] >= 3] *)
Definition repeated (attempts : gmap string nat) (key : string) : bool :=
  match read_attempts attempts key with
  | Unset => false
  | Count n => negb (n =? 0) && (3 <=? n)
  | Foreign => false
  end.

(** [actionAttempts[actionKey] = (actionAttempts[actionKey] || 0) + 1] *)
Definition count_attempt (key : string) (attempts : gmap string nat)
  : gmap string nat :=
  match read_attempts attempts key with
  | Unset => <[key := 1]> attempts
  | Count n => <[key := (if n =? 0 then 0 else n) + 1]> attempts
  | Foreign => attempts
  end.

Definition unload_violation : string :=
  "Permissions policy violation: unload is not allowed".

(** * [src/server/api/routers/qa_analysis.ts] *)

Module Router.
Section Run.
Context `{JsonHost} (W : World).

Definition maxSteps : nat := 10.

(** The [console] and [requestfailed] handlers. *)
Definition on_event (e : PageEvent) (s : State) : State :=
  match e with
  | Console type text =>
      if String.eqb type "error" || String.eqb type "warning"
      then set_errors
             (errors s ++ ["Console " +:+ type +:+ ": " +:+ text]) s
      else s
  | PageError _ => s
  | RequestFailed url (Some errorText) =>
      if negb (String.eqb errorText "net::ERR_ABORTED") then
        let s' := set_errors
          (errors s ++ ["Network error: " +:+ url +:+ " " +:+ errorText]) s in
        if includes "ERR_CONNECTION_REFUSED" errorText
           || includes "ERR_NAME_NOT_RESOLVED" errorText
        then set_criticalErrorOccurred true s'
        else s'
      else s
  | RequestFailed _ None => s
  end.

Definition call {A} : (World → nat → Res A) → Call → M A :=
  await W on_event.

(** The inner [try] of [generateNextStep]: parse the content, else parse
    what the brace pattern extracts from it, else throw. *)
Definition parse_content (content : string) : M Value :=
  match JSON_parse content with
  | Some v => ret v
  | None =>
      match match_object content with
      | Some jsonMatch =>
          match JSON_parse jsonMatch with
          | Some v => ret v
          | None => throw "Unable to parse response as JSON"
          end
      | None => throw "Unable to parse response as JSON"
      end
  end.

Definition generateNextStep : M Value :=
  try_catch
    (response ← call w_chat (Chat "generateNextStep");
     match response with
     | NoChoices => throw "Unexpected response structure from OpenAI API"
     | Choice None => throw "Empty response from OpenAI API"
     | Choice (Some content) =>
         if String.eqb content ""
         then throw "Empty response from OpenAI API"
         else parse_content content
     end)
    (λ _, ret default_step).

Definition summarizePage : M Value :=
  _ ← call w_string (Evaluate "innerText" []);
  summary ← call w_chat (Chat "summarizePage");
  content_of summary.

Definition summarizeErrors (errors : list string) : M Value :=
  summary ← call w_chat (Chat "summarizeErrors");
  content_of summary.

Definition summarizeTest : M Value :=
  summary ← call w_chat (Chat "summarizeTest");
  content_of summary.

(** The request is outside the [try]; reading and parsing the reply is
    inside, and [JSON.parse(null)] is [JSON.parse] of the text null. *)
Definition checkTaskCompletion : M Value :=
  response ← call w_chat (Chat "checkTaskCompletion");
  match response with
  | NoChoices => ret completion_unknown
  | Choice content =>
      match JSON_parse (default "null" content) with
      | Some v => ret v
      | None => ret completion_unknown
      end
  end.

(** The [switch] inside the [try] of the loop body. *)
Definition perform (nextStep : Value) : M unit :=
  let action := field "action" nextStep in
  let params := field "params" nextStep in
  let selector := field "selector" params in
  if is_str action "NAVIGATE" then
    completed ← gets completedActions;
    if truthy (field "url" params)
       && negb (bool_decide ("NAVIGATE" ∈ completed))
    then
      _ ← call w_response (Goto (field "url" params));
      url ← page_url W;
      modify (set_currentState ("URL: " +:+ url));;
      push_completed "NAVIGATE"
    else ret tt
  else if is_str action "CLICK" then
    if truthy selector then
      clickElement W on_event selector;;
      push_completed ("CLICK_" +:+ to_string selector);;
      if is_str selector "#video-title" || is_str selector "a[title]"
      then modify (set_videoClicked true)
      else ret tt
    else ret tt
  else if is_str action "TYPE" then
    if truthy selector && truthy (field "text" params) then
      typeText W on_event selector (field "text" params);;
      push_completed ("TYPE_" +:+ to_string selector)
    else ret tt
  else if is_str action "WAIT" then
    sleep W on_event (js_or (field "ms" params) (VNum 1000));;
    push_completed "WAIT"
  else if is_str action "SCREENSHOT" then
    screenshot ← takeScreenshot W on_event;
    modify (λ s, set_screenshots (screenshots s ++ [screenshot]) s);;
    push_completed "SCREENSHOT"
  else if is_str action "EXTRACT_LINKS" then
    links ← extractLinks W on_event;
    log ("Links: " +:+ JSON_stringify links +:+ nl);;
    push_completed "EXTRACT_LINKS"
  else if is_str action "SUMMARIZE" then
    summary ← summarizePage;
    log ("Summary: " +:+ to_string summary +:+ nl);;
    push_completed "SUMMARIZE";;
    modify (set_taskCompleted true)
  else if is_str action "SCROLL" then
    scroll W on_event (js_or (field "direction" params) (VStr "down"));;
    push_completed "SCROLL"
  else if is_str action "HIGHLIGHT" then
    if truthy selector then
      highlightElements W on_event selector;;
      push_completed ("HIGHLIGHT_" +:+ to_string selector)
    else ret tt
  else
    log ("Unknown action: " +:+ to_string action +:+ nl).

(** The [catch (stepError)] block. *)
Definition recover (nextStep : Value) (message : string) : M unit :=
  let action := field "action" nextStep in
  let params := field "params" nextStep in
  log ("Error executing step: " +:+ message +:+ nl);;
  if is_str action "CLICK" || is_str action "TYPE" then
    alternativeSelector ←
      findAlternativeSelector W on_event (field "selector" params);
    match alternativeSelector with
    | Some alt =>
        log ("Trying alternative selector: " +:+ alt +:+ nl);;
        (if is_str action "CLICK"
         then clickElement W on_event (VStr alt)
         else typeText W on_event (VStr alt) (field "text" params));;
        log ("Step completed successfully with alternative selector" +:+ nl);;
        if is_str action "CLICK"
           && (String.eqb alt "#video-title" || String.eqb alt "a[title]")
        then modify (set_videoClicked true)
        else ret tt
    | None => ret tt
    end
  else ret tt.

(** The Action Executor: the [try { switch } catch] of the loop body. *)
Definition execute (nextStep : Value) : M unit :=
  try_catch
    (perform nextStep;;
     log ("Step completed successfully" +:+ nl))
    (recover nextStep).

(** After the executor: refresh [currentState], count the step ... *)
Definition advance (nextStep : Value) : M unit :=
  url ← page_url W;
  completed ← gets completedActions;
  modify (set_currentState
    ("URL: " +:+ url +:+ nl +:+
     "Last action: " +:+ to_string (field "action" nextStep) +:+ nl +:+
     "Completed actions: " +:+ join ", " completed));;
  modify (λ s, set_stepCount (stepCount s + 1) s).

(** ... and look for completion: the video heuristic, then the model. *)
Definition detect_completion : M unit :=
  clicked ← gets videoClicked;
  (if clicked then
     isPlaying ← checkIfVideoPlaying W on_event;
     if isPlaying then
       modify (set_taskCompleted true);;
       log ("Task completed: Video is playing." +:+ nl)
     else ret tt
   else ret tt);;
  completionCheck ← checkTaskCompletion;
  completed ← member "completed" completionCheck;
  if truthy completed then
    modify (set_taskCompleted true);;
    log ("Task completed: " +:+
         to_string (field "reason" completionCheck) +:+ nl)
  else ret tt.

(** From the repetition guard to the end of the loop body. *)
Definition guard_and_act (nextStep : Value) : M Flow :=
  let key := actionKey nextStep in
  attempts ← gets actionAttempts;
  if repeated attempts key then
    log ("Skipping repeated action: " +:+ key +:+ nl);;
    modify (λ s, set_skipped (skipped s ++ [key]) s);;
    modify (λ s, set_stepCount (stepCount s + 1) s);;
    ret Next
  else
    modify (λ s, set_actionAttempts (count_attempt key (actionAttempts s)) s);;
    modify (λ s, set_executed (executed s ++ [key]) s);;
    execute nextStep;;
    advance nextStep;;
    detect_completion;;
    ret Next.

(** One pass through the body of the [while] loop. *)
Definition iteration : M Flow :=
  modify (λ s, set_entered (entered s ++ [stepCount s]) s);;
  critical ← gets criticalErrorOccurred;
  if critical then
    log ("Critical error occurred. Stopping further actions." +:+ nl);;
    s ← gets id;
    ret (Return {| o_result := result s;
                   o_screenshots := Some (screenshots s);
                   o_error := Some "Critical error" |})
  else
    _ ← extractPageContent W on_event;
    nextStep ← generateNextStep;
    n ← gets stepCount;
    if negb (truthy nextStep) then
      log ("Step " +:+ pretty (n + 1) +:+
           ": Failed to generate next step" +:+ nl);;
      ret Break
    else
      log ("Step " +:+ pretty (n + 1) +:+ ": " +:+
           JSON_stringify nextStep +:+ nl);;
      guard_and_act nextStep.

(** [while (!taskCompleted && stepCount < maxSteps)] *)
Fixpoint while_loop (fuel : nat) : M LoopExit :=
  s ← gets id;
  if negb (taskCompleted s) && (stepCount s <? maxSteps) then
    match fuel with
    | 0 => ret OutOfFuel
    | S fuel' =>
        flow ← iteration;
        match flow with
        | Next => while_loop fuel'
        | Break => ret Done
        | Return o => ret (Returned o)
        end
    end
  else ret Done.

(** What follows the loop inside the [try]. *)
Definition report : M Outcome :=
  completed ← gets taskCompleted;
  (if negb completed
   then log ("Maximum steps reached without completing the task." +:+ nl)
   else ret tt);;
  errors ← gets errors;
  let criticalErrors :=
    filter (λ error, includes unload_violation error = false) errors in
  (if 0 <? length criticalErrors then
     errorSummary ← summarizeErrors criticalErrors;
     log (nl +:+ "Important Errors:" +:+ nl +:+ to_string errorSummary)
   else
     log (nl +:+ "No critical errors were detected during the test."));;
  testSummary ← summarizeTest;
  log (nl +:+ "Test Summary:" +:+ nl +:+ to_string testSummary);;
  s ← gets id;
  ret {| o_result := result s;
         o_screenshots := Some (screenshots s);
         o_error := None |}.

(** The status test after the first navigation; [Some] is its early
    [return]. *)
Definition check_response (response : HTTPResponse) : M (option Outcome) :=
  if negb (ok response) then
    let statusCode := status response in
    log ("Critical error: HTTP status " +:+ pretty statusCode +:+ nl);;
    if (400 <=? statusCode)%Z then
      s ← gets id;
      ret (Some {| o_result := result s;
                   o_screenshots := Some (screenshots s);
                   o_error := Some ("HTTP status " +:+ pretty statusCode) |})
    else ret None
  else ret None.

(** The body of the outer [try]. *)
Definition analysis (fuel : nat) (url : string) : M (option Outcome) :=
  response ← call w_response (Goto (VStr url));
  match response with
  | None => throw TypeError
  | Some response =>
      early ← check_response response;
      match early with
      | Some outcome => ret (Some outcome)
      | None =>
          exit ← while_loop fuel;
          match exit with
          | OutOfFuel => ret None
          | Returned outcome => ret (Some outcome)
          | Done => outcome ← report; ret (Some outcome)
          end
      end
  end.

(** The outer [try { } catch { }]. *)
Definition attempt (fuel : nat) (url : string) : M (option Outcome) :=
  try_catch (analysis fuel url)
    (λ message, ret (Some (failure_outcome message))).

(** [runQualityAnalysis(url, task)]: the browser is launched before the
    [try]; the result is [None] only when the fuel of the model runs out. *)
Definition runQualityAnalysis (fuel : nat) (url task : string)
  : M (option Outcome) :=
  call w_unit Launch;;
  modify (set_browser true);;
  call w_unit NewPage;;
  modify (set_currentState ("URL: " +:+ url));;
  modify (set_listening true);;
  try_finally (attempt fuel url) (call w_unit Close).

End Run.
End Router.

(** * [src/server/services/qualityAnalysis.ts] *)

Module Service.
Section Run.
Context `{JsonHost} (W : World).

Definition maxSteps : nat := 15.

(** The [console], [pageerror] and [requestfailed] handlers. *)
Definition on_event (e : PageEvent) (s : State) : State :=
  match e with
  | Console type text =>
      if String.eqb type "error" || String.eqb type "warn"
      then set_errors
             (errors s ++ ["Console " +:+ type +:+ ": " +:+ text]) s
      else s
  | PageError errorMessage =>
      let s' :=
        if includes "React" errorMessage
           || includes "must be used within" errorMessage
        then set_criticalErrorOccurred true
               (set_result (result s +:+ "Critical React Error: " +:+
                            errorMessage +:+ nl) s)
        else set_result (result s +:+ "Page Error: " +:+
                         errorMessage +:+ nl) s in
      set_pageErrorOccurred true
        (set_errors (errors s' ++ ["Page error: " +:+ errorMessage]) s')
  | RequestFailed url (Some errorText) =>
      if negb (String.eqb errorText "net::ERR_ABORTED") then
        let s' := set_errors
          (errors s ++ ["Network error: " +:+ url +:+ " " +:+ errorText]) s in
        if includes "ERR_CONNECTION_REFUSED" errorText
           || includes "ERR_NAME_NOT_RESOLVED" errorText
        then set_criticalErrorOccurred true s'
        else s'
      else s
  | RequestFailed _ None => s
  end.

Definition call {A} : (World → nat → Res A) → Call → M A :=
  await W on_event.

Definition clean_content (content : string) : string :=
  strip_comments (strip_fence_close (strip_fence_open content)).

Definition generateNextStep : M Value :=
  try_catch
    (_ ← call w_string (Evaluate "outerHTML" []);
     response ← call w_chat (Chat "generateNextStep");
     match response with
     | NoChoices => throw "Unexpected response structure from OpenAI API"
     | Choice None => throw "Empty response from OpenAI API"
     | Choice (Some content) =>
         if String.eqb content ""
         then throw "Empty response from OpenAI API"
         else
           match JSON_parse (clean_content content) with
           | Some v => ret v
           | None => throw "JSONError"
           end
     end)
    (λ _, ret default_step).

Definition summarizePage : M string :=
  _ ← call w_string (Evaluate "innerText" []);
  summary ← call w_chat (Chat "summarizePage");
  ret (content_or_empty summary).

Definition summarizeErrors (errors : list string) : M string :=
  summary ← call w_chat (Chat "summarizeErrors");
  ret (content_or_empty summary).

Definition summarizeTest : M string :=
  summary ← call w_chat (Chat "summarizeTest");
  ret (content_or_empty summary).

(** The [switch] inside the [try] of the loop body. *)
Definition perform (nextStep : Value) : M unit :=
  let action := field "action" nextStep in
  let params := field "params" nextStep in
  let selector := field "selector" params in
  if is_str action "NAVIGATE" then
    completed ← gets completedActions;
    if truthy (field "url" params)
       && negb (bool_decide ("NAVIGATE" ∈ completed))
    then
      _ ← call w_response (Goto (field "url" params));
      url ← page_url W;
      modify (set_currentState ("URL: " +:+ url));;
      push_completed "NAVIGATE"
    else ret tt
  else if is_str action "CLICK" then
    if truthy selector then
      _ ← clickWithRetry W on_event selector;
      push_completed ("CLICK_" +:+ to_string selector);;
      if is_str selector "#video-title" || is_str selector "a[title]"
      then modify (set_videoClicked true)
      else ret tt
    else ret tt
  else if is_str action "TYPE" then
    if truthy selector && truthy (field "text" params) then
      typeText W on_event selector (field "text" params);;
      push_completed ("TYPE_" +:+ to_string selector)
    else ret tt
  else if is_str action "WAIT" then
    sleep W on_event (js_or (field "ms" params) (VNum 1000));;
    push_completed "WAIT"
  else if is_str action "SCREENSHOT" then
    screenshot ← takeScreenshot W on_event;
    modify (λ s, set_screenshots (screenshots s ++ [screenshot]) s);;
    push_completed "SCREENSHOT"
  else if is_str action "EXTRACT_LINKS" then
    links ← extractLinks W on_event;
    log ("Links: " +:+ JSON_stringify links +:+ nl);;
    push_completed "EXTRACT_LINKS"
  else if is_str action "SUMMARIZE" then
    summary ← summarizePage;
    log ("Summary: " +:+ summary +:+ nl);;
    push_completed "SUMMARIZE";;
    modify (set_taskCompleted true)
  else if is_str action "SCROLL" then
    scroll W on_event (js_or (field "direction" params) (VStr "down"));;
    push_completed "SCROLL"
  else if is_str action "HIGHLIGHT" then
    if truthy selector then
      highlightElements W on_event selector;;
      push_completed ("HIGHLIGHT_" +:+ to_string selector)
    else ret tt
  else if is_str action "SELECT" then
    if truthy selector && truthy (field "value" params) then
      selectOption W on_event selector (field "value" params);;
      push_completed ("SELECT_" +:+ to_string selector)
    else ret tt
  else
    log ("Unknown action: " +:+ to_string action +:+ nl).

(** The [catch (stepError)] block. *)
Definition recover (nextStep : Value) (message : string) : M unit :=
  let action := field "action" nextStep in
  let params := field "params" nextStep in
  log ("Error executing step: " +:+ message +:+ nl);;
  if is_str action "CLICK" || is_str action "TYPE" then
    alternativeSelector ←
      findAlternativeSelector W on_event (field "selector" params);
    match alternativeSelector with
    | Some alt =>
        log ("Trying alternative selector: " +:+ alt +:+ nl);;
        (if is_str action "CLICK"
         then _ ← clickWithRetry W on_event (VStr alt); ret tt
         else typeText W on_event (VStr alt) (field "text" params));;
        log ("Step completed successfully with alternative selector" +:+ nl);;
        if is_str action "CLICK"
           && (String.eqb alt "#video-title" || String.eqb alt "a[title]")
        then modify (set_videoClicked true)
        else ret tt
    | None => ret tt
    end
  else ret tt.

(** The Action Executor: the [try { switch } catch] of the loop body. *)
Definition execute (nextStep : Value) : M unit :=
  try_catch
    (perform nextStep;;
     log ("Step completed successfully" +:+ nl))
    (recover nextStep).

Definition advance (nextStep : Value) : M unit :=
  url ← page_url W;
  completed ← gets completedActions;
  modify (set_currentState
    ("URL: " +:+ url +:+ nl +:+
     "Last action: " +:+ to_string (field "action" nextStep) +:+ nl +:+
     "Completed actions: " +:+ join ", " completed));;
  modify (λ s, set_stepCount (stepCount s + 1) s).

(** Only the video heuristic; this variant does not ask the model. *)
Definition detect_completion : M unit :=
  clicked ← gets videoClicked;
  if clicked then
    isPlaying ← checkIfVideoPlaying W on_event;
    if isPlaying then
      modify (set_taskCompleted true);;
      log ("Task completed: Video is playing." +:+ nl)
    else ret tt
  else ret tt.

(** From the repetition guard to the end of the loop body. *)
Definition guard_and_act (nextStep : Value) : M Flow :=
  let key := actionKey nextStep in
  attempts ← gets actionAttempts;
  if repeated attempts key then
    log ("Skipping repeated action: " +:+ key +:+ nl);;
    modify (λ s, set_skipped (skipped s ++ [key]) s);;
    modify (λ s, set_stepCount (stepCount s + 1) s);;
    ret Next
  else
    modify (λ s, set_actionAttempts (count_attempt key (actionAttempts s)) s);;
    modify (λ s, set_executed (executed s ++ [key]) s);;
    execute nextStep;;
    advance nextStep;;
    detect_completion;;
    ret Next.

(** One pass through the body of the [while] loop. *)
Definition iteration : M Flow :=
  modify (λ s, set_entered (entered s ++ [stepCount s]) s);;
  critical ← gets criticalErrorOccurred;
  if critical then
    log ("Critical error occurred. Stopping further actions." +:+ nl);;
    s ← gets id;
    ret (Return {| o_result := result s;
                   o_screenshots := Some (screenshots s);
                   o_error := Some "Critical error" |})
  else
    _ ← extractPageContent W on_event;
    nextStep ← generateNextStep;
    n ← gets stepCount;
    if negb (truthy nextStep) then
      log ("Step " +:+ pretty (n + 1) +:+
           ": Failed to generate next step" +:+ nl);;
      ret Break
    else
      log ("Step " +:+ pretty (n + 1) +:+ ": " +:+
           JSON_stringify nextStep +:+ nl);;
      guard_and_act nextStep.

(** [while (!taskCompleted && stepCount < maxSteps)] *)
Fixpoint while_loop (fuel : nat) : M LoopExit :=
  s ← gets id;
  if negb (taskCompleted s) && (stepCount s <? maxSteps) then
    match fuel with
    | 0 => ret OutOfFuel
    | S fuel' =>
        flow ← iteration;
        match flow with
        | Next => while_loop fuel'
        | Break => ret Done
        | Return o => ret (Returned o)
        end
    end
  else ret Done.

(** What follows the loop inside the [try]. *)
Definition report : M Outcome :=
  completed ← gets taskCompleted;
  (if negb completed
   then log ("Maximum steps reached without completing the task." +:+ nl)
   else ret tt);;
  errors ← gets errors;
  let criticalErrors :=
    filter (λ error, includes unload_violation error = false) errors in
  (if 0 <? length criticalErrors then
     errorSummary ← summarizeErrors criticalErrors;
     log (nl +:+ "Important Errors:" +:+ nl +:+ errorSummary)
   else
     log (nl +:+ "No critical errors were detected during the test."));;
  testSummary ← summarizeTest;
  log (nl +:+ "Test Summary:" +:+ nl +:+ testSummary);;
  s ← gets id;
  ret {| o_result := result s;
         o_screenshots := Some (screenshots s);
         o_error := None |}.

(** [response?.status()] in a template literal. *)
Definition status_text (response : option HTTPResponse) : string :=
  match response with
  | Some r => pretty (status r)
  | None => "undefined"
  end.

(** The body of the outer [try] from the first navigation on; the
    navigation races a timer. *)
Definition analysis (fuel : nat) (url : string) : M (option Outcome) :=
  response ← race_timer W (call w_response (Goto (VStr url)));
  match response with
  | None =>
      ret (Some {| o_result := "Navigation failed due to timeout";
                   o_screenshots := Some [];
                   o_error := Some "Page load timed out" |})
  | Some response =>
      if negb (from_option ok false response) then
        ret (Some {| o_result :=
                       "Critical error: HTTP status " +:+ status_text response;
                     o_screenshots := Some [];
                     o_error :=
                       Some ("HTTP status " +:+ status_text response) |})
      else
        modify (set_currentState ("URL: " +:+ url));;
        modify (set_listening true);;
        pageError ← gets pageErrorOccurred;
        if pageError then
          s ← gets id;
          ret (Some {| o_result := result s;
                       o_screenshots := Some (screenshots s);
                       o_error := Some "Page error occurred" |})
        else
          exit ← while_loop fuel;
          match exit with
          | OutOfFuel => ret None
          | Returned outcome => ret (Some outcome)
          | Done => outcome ← report; ret (Some outcome)
          end
  end.

(** The body of the outer [try]. *)
Definition session (fuel : nat) (url : string) : M (option Outcome) :=
  call w_unit Launch;;
  modify (set_browser true);;
  call w_unit NewPage;;
  analysis fuel url.

(** The outer [try { } catch { }]. *)
Definition attempt (fuel : nat) (url : string) : M (option Outcome) :=
  try_catch (session fuel url)
    (λ message, ret (Some (failure_outcome message))).

(** The [finally] block: [if (browser) await browser.close()]. *)
Definition cleanup : M unit :=
  launched ← gets browser;
  if launched then call w_unit Close else ret tt.

(** [runQualityAnalysis(url, task)]: here the launch is inside the [try]. *)
Definition runQualityAnalysis (fuel : nat) (url task : string)
  : M (option Outcome) :=
  try_finally (attempt fuel url) cleanup.

End Run.
End Service.

(** * The service variant kept after [src/server/api/root.ts]

    The second document of that file is an earlier [runQualityAnalysis]:
    no repetition guard, no page observers, and a [NAVIGATE] case without
    the completed-once test. *)

Module RootPart.
Section Run.
Context `{JsonHost} (W : World).

Definition maxSteps : nat := 15.

(** No [page.on] in this variant: [listening] stays false. *)
Definition call {A} : (World → nat → Res A) → Call → M A :=
  await W (λ _ s, s).

Definition generateNextStep : M Value :=
  try_catch
    (_ ← call w_string (Evaluate "outerHTML" []);
     response ← call w_chat (Chat "generateNextStep");
     match response with
     | NoChoices => throw "Unexpected response structure from OpenAI API"
     | Choice None => throw "Empty response from OpenAI API"
     | Choice (Some content) =>
         if String.eqb content ""
         then throw "Empty response from OpenAI API"
         else
           match JSON_parse (Service.clean_content content) with
           | Some v => ret v
           | None => throw "JSONError"
           end
     end)
    (λ _, ret default_step).

Definition summarizePage : M string :=
  _ ← call w_string (Evaluate "innerText" []);
  summary ← call w_chat (Chat "summarizePage");
  ret (content_or_empty summary).

Definition summarizeTest : M string :=
  summary ← call w_chat (Chat "summarizeTest");
  ret (content_or_empty summary).

(** The request is outside the [try]; everything after it is inside. *)
Definition checkTaskCompletion : M Value :=
  response ← call w_chat (Chat "checkTaskCompletion");
  match response with
  | NoChoices => ret completion_unknown
  | Choice content =>
      match JSON_parse
              (strip_fence_close (strip_fence_open (default "" content)))
      with
      | Some v => ret v
      | None => ret completion_unknown
      end
  end.

(** The [switch]; reading [nextStep.action] fails on a null step. *)
Definition perform (nextStep : Value) : M unit :=
  action ← member "action" nextStep;
  let params := field "params" nextStep in
  let selector := field "selector" params in
  if is_str action "NAVIGATE" then
    if truthy (field "url" params) then
      _ ← call w_response (Goto (field "url" params));
      url ← page_url W;
      modify (set_currentState ("URL: " +:+ url))
    else ret tt
  else if is_str action "CLICK" then
    if truthy selector
    then _ ← clickWithRetry W (λ _ s, s) selector; ret tt
    else ret tt
  else if is_str action "TYPE" then
    if truthy selector && truthy (field "text" params)
    then typeText W (λ _ s, s) selector (field "text" params)
    else ret tt
  else if is_str action "WAIT" then
    sleep W (λ _ s, s) (js_or (field "ms" params) (VNum 1000))
  else if is_str action "SCREENSHOT" then
    screenshot ← takeScreenshot W (λ _ s, s);
    modify (λ s, set_screenshots (screenshots s ++ [screenshot]) s)
  else if is_str action "EXTRACT_LINKS" then
    links ← extractLinks W (λ _ s, s);
    log ("Links: " +:+ JSON_stringify links +:+ nl)
  else if is_str action "SUMMARIZE" then
    summary ← summarizePage;
    log ("Summary: " +:+ summary +:+ nl);;
    modify (set_taskCompleted true)
  else if is_str action "SCROLL" then
    scroll W (λ _ s, s) (js_or (field "direction" params) (VStr "down"))
  else if is_str action "HIGHLIGHT" then
    if truthy selector
    then highlightElements W (λ _ s, s) selector
    else ret tt
  else
    log ("Unknown action: " +:+ to_string action +:+ nl).

(** [completedActions.push(nextStep.action)]; the list is only ever
    joined, and [join] prints a nullish entry as the empty string. *)
Definition push_action (action : Value) : M unit :=
  push_completed (if nullish action then "" else to_string action).

Definition execute (nextStep : Value) : M unit :=
  try_catch
    (perform nextStep;;
     log ("Step completed successfully" +:+ nl);;
     push_action (field "action" nextStep))
    (λ message, log ("Error executing step: " +:+ message +:+ nl)).

Definition iteration : M Flow :=
  modify (λ s, set_entered (entered s ++ [stepCount s]) s);;
  _ ← call w_string (Evaluate "innerText" []);
  nextStep ← generateNextStep;
  n ← gets stepCount;
  log ("Step " +:+ pretty (n + 1) +:+ ": " +:+
       JSON_stringify nextStep +:+ nl);;
  modify (λ s, set_executed (executed s ++ [actionKey nextStep]) s);;
  execute nextStep;;
  url ← page_url W;
  action ← member "action" nextStep;
  modify (set_currentState
    ("URL: " +:+ url +:+ nl +:+ "Last action: " +:+ to_string action));;
  modify (λ s, set_stepCount (stepCount s + 1) s);;
  completed ← gets taskCompleted;
  (if negb completed then
     completionCheck ← checkTaskCompletion;
     done ← member "completed" completionCheck;
     if truthy done then
       modify (set_taskCompleted true);;
       log ("Task completed: " +:+
            to_string (field "reason" completionCheck) +:+ nl)
     else ret tt
   else ret tt);;
  ret Next.

Fixpoint while_loop (fuel : nat) : M LoopExit :=
  s ← gets id;
  if negb (taskCompleted s) && (stepCount s <? maxSteps) then
    match fuel with
    | 0 => ret OutOfFuel
    | S fuel' =>
        flow ← iteration;
        match flow with
        | Next => while_loop fuel'
        | Break => ret Done
        | Return o => ret (Returned o)
        end
    end
  else ret Done.

Definition report : M Outcome :=
  completed ← gets taskCompleted;
  (if negb completed
   then log ("Maximum steps reached without completing the task." +:+ nl)
   else ret tt);;
  testSummary ← summarizeTest;
  log (nl +:+ "Test Summary:" +:+ nl +:+ testSummary);;
  s ← gets id;
  ret {| o_result := result s;
         o_screenshots := Some (screenshots s);
         o_error := None |}.

Definition runQualityAnalysis (fuel : nat) (url task : string)
  : M (option Outcome) :=
  try_finally
    (try_catch
       (call w_unit Launch;;
        modify (set_browser true);;
        call w_unit NewPage;;
        modify (set_currentState ("URL: " +:+ url));;
        _ ← call w_response (Goto (VStr url));
        exit ← while_loop fuel;
        match exit with
        | OutOfFuel => ret None
        | Returned outcome => ret (Some outcome)
        | Done => outcome ← report; ret (Some outcome)
        end)
       (λ message, ret (Some (failure_outcome message))))
    (launched ← gets browser;
     if launched then call w_unit Close else ret tt).

End Run.
End RootPart.

(** * The first router variant, first document of [unnamed/part_001]

    [completedActions] is a [Set] of action names here, a repeated search
    or video click is skipped, a critical error breaks out of the loop, and
    [SUMMARIZE] is an action like any other. *)

Module Legacy.
Section Run.
Context `{JsonHost} (W : World).

Definition maxSteps : nat := 10.

Definition on_event : PageEvent → State → State := Router.on_event.

Definition call {A} : (World → nat → Res A) → Call → M A :=
  await W on_event.

(** [completedActions.add(entry)] on a [Set]. *)
Definition add_completed (entry : string) : M unit :=
  modify (λ s,
    if bool_decide (entry ∈ completedActions s) then s
    else set_completedActions (completedActions s ++ [entry]) s).

(** [completedActions.has(v)] *)
Definition has_completed (v : Value) (s : State) : bool :=
  match v with
  | VStr name => bool_decide (name ∈ completedActions s)
  | _ => false
  end.

(** The request is outside the [try]; a reply that does not parse gives
    [null]. *)
Definition generateNextStep : M Value :=
  response ← call w_chat (Chat "generateNextStep");
  match response with
  | NoChoices => ret VNull
  | Choice content =>
      match JSON_parse (default "null" content) with
      | Some v => ret v
      | None => ret VNull
      end
  end.

(** [nextStep.params?.selector.includes('search')] *)
Definition selector_mentions_search (params : Value) : M bool :=
  if nullish params then ret false
  else
    match field "selector" params with
    | VStr selector => ret (includes "search" selector)
    | VArr elems => ret (existsb (λ v, is_str v "search") elems)
    | _ => throw TypeError
    end.

Definition perform (nextStep : Value) : M unit :=
  let action := field "action" nextStep in
  let params := field "params" nextStep in
  let selector := field "selector" params in
  if is_str action "NAVIGATE" then
    completed ← gets completedActions;
    if truthy (field "url" params)
       && negb (bool_decide ("NAVIGATE" ∈ completed))
    then
      _ ← call w_response (Goto (field "url" params));
      url ← page_url W;
      modify (set_currentState ("URL: " +:+ url));;
      add_completed "NAVIGATE"
    else ret tt
  else if is_str action "CLICK" then
    if truthy selector then
      clickElement W on_event selector;;
      add_completed "CLICK";;
      if is_str selector "#video-title" || is_str selector "a[title]"
      then modify (set_videoClicked true)
      else ret tt
    else ret tt
  else if is_str action "TYPE" then
    completed ← gets completedActions;
    if truthy selector && truthy (field "text" params)
       && negb (bool_decide ("SEARCH" ∈ completed))
    then
      typeText W on_event selector (field "text" params);;
      call w_unit PressEnter;;
      add_completed "TYPE";;
      add_completed "SEARCH"
    else ret tt
  else if is_str action "WAIT" then
    sleep W on_event (js_or (field "ms" params) (VNum 1000))
  else if is_str action "SCREENSHOT" then
    screenshot ← takeScreenshot W on_event;
    modify (λ s, set_screenshots (screenshots s ++ [screenshot]) s);;
    add_completed "SCREENSHOT"
  else if is_str action "EXTRACT_LINKS" then
    links ← extractLinks W on_event;
    log ("Links: " +:+ JSON_stringify links +:+ nl);;
    add_completed "EXTRACT_LINKS"
  else if is_str action "SUMMARIZE" then
    summary ← Router.summarizePage W;
    log ("Summary: " +:+ to_string summary +:+ nl);;
    add_completed "SUMMARIZE"
  else if is_str action "SCROLL" then
    scroll W on_event (js_or (field "direction" params) (VStr "down"));;
    add_completed "SCROLL"
  else if is_str action "HIGHLIGHT" then
    if truthy selector then
      highlightElements W on_event selector;;
      add_completed "HIGHLIGHT"
    else ret tt
  else
    log ("Unknown action: " +:+ to_string action +:+ nl).

Definition execute (nextStep : Value) : M unit :=
  try_catch
    (perform nextStep;;
     log ("Step completed successfully" +:+ nl))
    (Router.recover W nextStep).

Definition detect_completion : M unit := Router.detect_completion W.

(** The already-performed test: [Some text] when the step is skipped. *)
Definition already_performed (nextStep : Value) : M (option string) :=
  let action := field "action" nextStep in
  has ← gets (has_completed action);
  clicked ← gets videoClicked;
  if has then
    searching ←
      (if is_str action "TYPE"
       then selector_mentions_search (field "params" nextStep)
       else ret false);
    if searching then ret (Some "Search already performed. Skipping.")
    else if is_str action "CLICK" && clicked
    then ret (Some "Video already clicked. Skipping.")
    else ret None
  else ret None.

Definition iteration : M Flow :=
  modify (λ s, set_entered (entered s ++ [stepCount s]) s);;
  critical ← gets criticalErrorOccurred;
  if critical then
    log ("Critical error occurred. Stopping further actions." +:+ nl);;
    ret Break
  else
    nextStep ← generateNextStep;
    n ← gets stepCount;
    if negb (truthy nextStep) then
      log ("Step " +:+ pretty (n + 1) +:+
           ": Failed to generate next step" +:+ nl);;
      ret Break
    else
      log ("Step " +:+ pretty (n + 1) +:+ ": " +:+
           JSON_stringify nextStep +:+ nl);;
      skip ← already_performed nextStep;
      match skip with
      | Some text =>
          log ("Step " +:+ pretty (n + 1) +:+ ": " +:+ text +:+ nl);;
          modify (λ s, set_skipped (skipped s ++ [actionKey nextStep]) s);;
          modify (λ s, set_stepCount (stepCount s + 1) s);;
          ret Next
      | None =>
          modify (λ s,
            set_executed (executed s ++ [actionKey nextStep]) s);;
          execute nextStep;;
          url ← page_url W;
          modify (set_currentState
            ("URL: " +:+ url +:+ nl +:+
             "Last action: " +:+ to_string (field "action" nextStep)));;
          modify (λ s, set_stepCount (stepCount s + 1) s);;
          detect_completion;;
          ret Next
      end.

Fixpoint while_loop (fuel : nat) : M LoopExit :=
  s ← gets id;
  if negb (taskCompleted s) && (stepCount s <? maxSteps) then
    match fuel with
    | 0 => ret OutOfFuel
    | S fuel' =>
        flow ← iteration;
        match flow with
        | Next => while_loop fuel'
        | Break => ret Done
        | Return o => ret (Returned o)
        end
    end
  else ret Done.

Definition summarizeErrors (errors : list string) : M Value :=
  summary ← call w_chat (Chat "summarizeErrors");
  content_of summary.

Definition report : M Outcome :=
  completed ← gets taskCompleted;
  (if negb completed
   then log ("Maximum steps reached without completing the task." +:+ nl)
   else ret tt);;
  errors ← gets errors;
  (if 0 <? length errors then
     errorSummary ← summarizeErrors errors;
     log (nl +:+ "Important Errors:" +:+ nl +:+ to_string errorSummary)
   else ret tt);;
  testSummary ← Router.summarizeTest W;
  log (nl +:+ "Test Summary:" +:+ nl +:+ to_string testSummary);;
  s ← gets id;
  ret {| o_result := result s;
         o_screenshots := Some (screenshots s);
         o_error := None |}.

Definition runQualityAnalysis (fuel : nat) (url task : string)
  : M (option Outcome) :=
  call w_unit Launch;;
  modify (set_browser true);;
  call w_unit NewPage;;
  modify (set_currentState ("URL: " +:+ url));;
  modify (set_listening true);;
  try_finally
    (try_catch
       (_ ← call w_response (Goto (VStr url));
        exit ← while_loop fuel;
        match exit with
        | OutOfFuel => ret None
        | Returned outcome => ret (Some outcome)
        | Done => outcome ← report; ret (Some outcome)
        end)
       (λ message, ret (Some (failure_outcome message))))
    (call w_unit Close).

End Run.
End Legacy.

(** * The web task executor, [unnamed/part_000] *)

(** What [executeWebTask] returns: [{ result, livePageUrl }]. *)
Record TaskOutcome : Type := {
  t_result : string;
  t_livePageUrl : Value
}.

Module Social.
Section Run.
Context `{JsonHost} (W : World).

Definition maxSteps : nat := 20.

(** This file registers no page handlers. *)
Definition call {A} : (World → nat → Res A) → Call → M A :=
  await W (λ _ s, s).

(** [data.choices[0].message.content.trim()] *)
Definition trimmed_content (data : ChatReply) : M string :=
  match data with
  | Choice (Some content) => ret (trim content)
  | _ => throw TypeError
  end.

(** The [while (attempt < maxAttempts)] loop of [generateInstructions];
    [remaining] counts the attempts that are left. *)
Fixpoint generateInstructions_from (remaining : nat) : M Value :=
  match remaining with
  | 0 => ret VUndefined
  | S remaining' =>
      response ← call w_fetch (Fetch "generateInstructions");
      if negb (f_ok response) then
        throw ("OpenAI API request failed: " +:+ f_statusText response)
      else
        content ← trimmed_content (f_data response);
        match JSON_parse content with
        | Some v => ret v
        | None =>
            if remaining' =? 0 then
              throw ("Failed to get a valid JSON response after " +:+
                     "multiple attempts. Please try again.")
            else generateInstructions_from remaining'
        end
  end.

Definition generateInstructions : M Value := generateInstructions_from 3.

(** A reply that is not JSON is rethrown as an error. *)
Definition generateNextStep : M Value :=
  response ← call w_fetch (Fetch "generateNextStep");
  if negb (f_ok response) then
    throw ("OpenAI API request failed: " +:+ f_statusText response)
  else
    content ← trimmed_content (f_data response);
    match JSON_parse content with
    | Some v => ret v
    | None =>
        throw "Failed to get a valid JSON response. Please try again."
    end.

Definition clickable : string :=
  "a#video-title, button, [role=" +:+ dq +:+ "button" +:+ dq +:+
  "], a, input[type=" +:+ dq +:+ "submit" +:+ dq +:+ "]".

Definition text_inputs : string :=
  "input[type=" +:+ dq +:+ "text" +:+ dq +:+ "], input[type=" +:+ dq +:+
  "search" +:+ dq +:+ "]".

Definition clickElement (ariaLabel : Value) : M unit :=
  call w_unit (WaitForSelector (VStr clickable));;
  call w_unit (Evaluate "clickByLabel" [ariaLabel]).

Definition typeText (text : Value) : M unit :=
  call w_unit (WaitForSelector (VStr text_inputs));;
  call w_unit (TypeText (VStr text_inputs) text);;
  match text with
  | VStr t => if ends_with_newline t then call w_unit PressEnter else ret tt
  | _ => throw TypeError
  end.

Definition takeScreenshot : M unit := call w_unit Screenshot.

Definition summarizePage : M Value :=
  _ ← call w_string (Evaluate "innerText" []);
  summary ← call w_chat (Chat "summarizePage");
  content_of summary.

(** [v.toLowerCase()] *)
Definition lowered (v : Value) : M string :=
  match v with
  | VStr s => ret (toLowerCase s)
  | _ => throw TypeError
  end.

(** The completion test on the proposal, with its short-circuits. *)
Definition signals_completion (nextStep : Value) : M bool :=
  thought ← member "thought" nextStep;
  thought ← lowered thought;
  if includes "task completed" thought then ret true
  else if includes "goal achieved" thought then ret true
  else
    action ← lowered (field "action" nextStep);
    ret (String.eqb action "none").

(** The [switch]; [false] stands for the [continue] of its default. *)
Definition perform (nextStep : Value) : M bool :=
  let action := field "action" nextStep in
  if is_str action "CLICKBTN" then
    clickElement (field "ariaLabel" nextStep);;
    call w_unit (WaitForSelector (VStr "video"));;
    isPlaying ← call w_bool (Evaluate "videoPlaying" []);
    (if negb isPlaying
     then call w_unit (Click (VStr ".ytp-play-button"))
     else ret tt);;
    ret true
  else if is_str action "TYPETEXT" then
    typeText (field "text" nextStep);; ret true
  else if is_str action "WAITLOAD" then
    call w_unit WaitForNavigation;; ret true
  else if is_str action "NAVIGATEURL" then
    (if truthy (field "param" nextStep) then
       _ ← call w_response (Goto (field "param" nextStep));
       modify (set_currentUrl (field "param" nextStep));;
       log ("Navigated to: " +:+ to_string (field "param" nextStep) +:+ nl)
     else ret tt);;
    ret true
  else if is_str action "SCROLL" then
    scroll W (λ _ s, s) (field "param" nextStep);; ret true
  else if is_str action "HIGHLIGHT" then
    highlightElements W (λ _ s, s) (field "ariaLabel" nextStep);; ret true
  else if is_str action "SCREENSHOT" then
    takeScreenshot;;
    log ("Screenshot saved as screenshot.png" +:+ nl);;
    ret true
  else if is_str action "SUMMARIZE_PAGE" then
    summary ← summarizePage;
    log ("Page summary: " +:+ to_string summary +:+ nl);;
    ret true
  else if is_str action "EXTRACT_LINKS" then
    links ← extractLinks W (λ _ s, s);
    log ("Extracted links: " +:+ JSON_stringify links +:+ nl);;
    ret true
  else
    log ("Unknown action: " +:+ to_string action +:+ nl);;
    ret false.

Definition iteration : M Flow :=
  modify (λ s, set_entered (entered s ++ [stepCount s]) s);;
  nextStep ← generateNextStep;
  log ("Next step:" +:+ nl +:+ JSON_stringify_indented nextStep +:+ nl +:+ nl);;
  finished ← signals_completion nextStep;
  if finished then
    modify (set_taskCompleted true);;
    log ("Task completed successfully." +:+ nl);;
    ret Break
  else
    modify (λ s, set_executed (executed s ++ [actionKey nextStep]) s);;
    counted ← try_catch
      (known ← perform nextStep;
       if known then
         log ("Step completed successfully" +:+ nl);;
         url ← page_url W;
         modify (set_currentUrl (VStr url));;
         ret true
       else ret false)
      (λ message,
         log ("Error executing step: " +:+ message +:+ nl);;
         ret true);
    if counted then
      modify (λ s, set_stepCount (stepCount s + 1) s);;
      sleep W (λ _ s, s) (VNum 2000);;
      ret Next
    else ret Next.

Fixpoint while_loop (fuel : nat) : M LoopExit :=
  s ← gets id;
  if negb (taskCompleted s) && (stepCount s <? maxSteps) then
    match fuel with
    | 0 => ret OutOfFuel
    | S fuel' =>
        flow ← iteration;
        match flow with
        | Next => while_loop fuel'
        | Break => ret Done
        | Return o => ret (Returned o)
        end
    end
  else ret Done.

(** The body of the [try]; [false] when the fuel of the model ran out. *)
Definition task_body (fuel : nat) : M bool :=
  initialStep ← generateInstructions;
  log ("Initial step:" +:+ nl +:+ JSON_stringify_indented initialStep
       +:+ nl +:+ nl);;
  start ← member "param" initialStep;
  _ ← call w_response (Goto start);
  modify (set_currentUrl start);;
  log ("Navigated to: " +:+ to_string start +:+ nl);;
  exit ← while_loop fuel;
  match exit with
  | OutOfFuel => ret false
  | _ =>
      url ← gets currentUrl;
      log ("Final URL: " +:+ to_string url +:+ nl);;
      sleep W (λ _ s, s) (VNum 4000);;
      ret true
  end.

(** [executeWebTask(task)]: the [finally] block is empty, its
    [browser.close()] is commented out. *)
Definition executeWebTask (fuel : nat) (task : string)
  : M (option TaskOutcome) :=
  call w_unit Launch;;
  modify (set_browser true);;
  call w_unit NewPage;;
  finished ← try_finally
    (try_catch
       (task_body fuel)
       (λ message, log ("Error: " +:+ message +:+ nl);; ret true))
    (ret tt);
  if finished then
    s ← gets id;
    ret (Some {| t_result := result s; t_livePageUrl := currentUrl s |})
  else ret None.

End Run.
End Social.
(** * Vocabulary of the properties *)

(** [preserves R m]: however [m] ends, the state it leaves is [R]-related
    to the state it started in. *)
Definition preserves {A} (R : relation State) (m : M A) : Prop :=
  ∀ s, R s (m s).2.

(** [unchanged f]: what [f] reads keeps its value. *)
Definition unchanged {A} (f : State → A) : relation State :=
  λ s s', f s' = f s.

(** [raised f]: a flag that is set stays set. *)
Definition raised (f : State → bool) : relation State :=
  λ s s', f s = true → f s' = true.

(** A relation that survives everything the perceive, decide and act phases
    write: the page-facing variables, the observers' variables, and the log
    of every call other than [browser.close()]. *)
Class Frame (R : relation State) : Prop := {
  frame_preorder :: PreOrder R;
  frame_call : ∀ c s, c ≠ Close → R s (set_calls (calls s ++ [c]) s);
  frame_result : ∀ v s, R s (set_result v s);
  frame_currentState : ∀ v s, R s (set_currentState v s);
  frame_currentUrl : ∀ v s, R s (set_currentUrl v s);
  frame_screenshots : ∀ v s, R s (set_screenshots v s);
  frame_completedActions : ∀ v s, R s (set_completedActions v s);
  frame_videoClicked : ∀ v s, R s (set_videoClicked v s);
  frame_errors : ∀ v s, R s (set_errors v s);
  frame_pageErrorOccurred : ∀ v s, R s (set_pageErrorOccurred v s);
  frame_criticalErrorOccurred : ∀ s, R s (set_criticalErrorOccurred true s);
  frame_taskCompleted : ∀ s, R s (set_taskCompleted true s)
}.

(** A relation that also survives the bookkeeping of the loop itself. *)
Class LoopFrame (R : relation State) : Prop := {
  loop_frame :: Frame R;
  loop_stepCount : ∀ v s, R s (set_stepCount v s);
  loop_actionAttempts : ∀ v s, R s (set_actionAttempts v s);
  loop_executed : ∀ v s, R s (set_executed v s);
  loop_skipped : ∀ v s, R s (set_skipped v s);
  loop_entered : ∀ v s, R s (set_entered v s);
  loop_listening : ∀ v s, R s (set_listening v s);
  loop_browser : ∀ s, R s (set_browser true s)
}.

Definition is_close (c : Call) : bool :=
  match c with
  | Close => true
  | _ => false
  end.

Definition is_goto (c : Call) : bool :=
  match c with
  | Goto _ => true
  | _ => false
  end.

(** How often the browser was closed. *)
Definition closes (s : State) : nat := length (filter is_close (calls s)).

(** How often a navigation was requested. *)
Definition navigations (s : State) : nat := length (filter is_goto (calls s)).

(** ** The repetition guard's view of the state *)

Record Guard : Type := {
  g_step : nat;
  g_attempts : gmap string nat;
  g_executed : list string;
  g_skipped : list string;
  g_entered : list nat
}.

Definition guard (s : State) : Guard :=
  {| g_step := stepCount s; g_attempts := actionAttempts s;
     g_executed := executed s; g_skipped := skipped s;
     g_entered := entered s |}.

(** Entering the loop body records the current step count. *)
Definition enter (g : Guard) : Guard :=
  {| g_step := g_step g; g_attempts := g_attempts g;
     g_executed := g_executed g; g_skipped := g_skipped g;
     g_entered := g_entered g ++ [g_step g] |}.

(** What one pass can do to that view once it has reached the guard: skip,
    act and count the step, or be left by an exception before or after the
    step is counted. *)
Inductive guarded (g : Guard) : Res Flow → Guard → Prop :=
  | guarded_skip key :
      repeated (g_attempts g) key = true →
      guarded g (Ok Next)
        {| g_step := g_step g + 1; g_attempts := g_attempts g;
           g_executed := g_executed g; g_skipped := g_skipped g ++ [key];
           g_entered := g_entered g |}
  | guarded_done key :
      repeated (g_attempts g) key = false →
      guarded g (Ok Next)
        {| g_step := g_step g + 1;
           g_attempts := count_attempt key (g_attempts g);
           g_executed := g_executed g ++ [key]; g_skipped := g_skipped g;
           g_entered := g_entered g |}
  | guarded_thrown key e :
      repeated (g_attempts g) key = false →
      guarded g (Throw e)
        {| g_step := g_step g + 1;
           g_attempts := count_attempt key (g_attempts g);
           g_executed := g_executed g ++ [key]; g_skipped := g_skipped g;
           g_entered := g_entered g |}
  | guarded_failed key e :
      repeated (g_attempts g) key = false →
      guarded g (Throw e)
        {| g_step := g_step g;
           g_attempts := count_attempt key (g_attempts g);
           g_executed := g_executed g ++ [key]; g_skipped := g_skipped g;
           g_entered := g_entered g |}.

(** How often the executor was handed a signature. *)
Definition times (key : string) (keys : list string) : nat :=
  length (filter (λ k, k = key) keys).

(** The bookkeeping of the guard is sound: no count exceeds the cap; a
    signature that is no name of [Object.prototype] was handed to the
    executor as often as its count says; such a name has no count; and
    what was skipped stands at the cap. *)
Record counted (g : Guard) : Prop := {
  counted_cap : map_Forall (λ _ n, n ≤ 3) (g_attempts g);
  counted_executed :
    ∀ key, inherited key = false →
           times key (g_executed g) = default 0 (g_attempts g !! key);
  counted_inherited :
    ∀ key, inherited key = true → g_attempts g !! key = None;
  counted_skipped : Forall (λ key, g_attempts g !! key = Some 3) (g_skipped g)
}.

(** At the loop test, the passes so far were entered at the step counts
    0, 1, 2, ... in this order. *)
Record at_head (g : Guard) : Prop := {
  head_counted : counted g;
  head_entered : g_entered g = seq 0 (g_step g)
}.

(** From the first loop test to the end of the run, for a step budget. *)
Record within (budget : nat) (g : Guard) : Prop := {
  within_counted : counted g;
  within_entered : g_entered g = seq 0 (length (g_entered g));
  within_passes : length (g_entered g) ≤ budget;
  within_step : g_step g ≤ length (g_entered g) ≤ g_step g + 1;
  within_budget : g_step g ≤ budget
}.

(** ** Concrete hosts and worlds for the examples *)

(** A printer for JSON values whose strings need no escaping. *)
Fixpoint print (v : Value) : string :=
  match v with
  | VUndefined => "undefined"
  | VNull => "null"
  | VBool true => "true"
  | VBool false => "false"
  | VNum n => pretty n
  | VStr s => dq +:+ s +:+ dq
  | VArr l => "[" +:+ join "," (map print l) +:+ "]"
  | VObj fs =>
      "{" +:+
      join "," (map (λ kv, dq +:+ kv.1 +:+ dq +:+ ":" +:+ print kv.2) fs)
      +:+ "}"
  end.

Definition proposal (action : string) (params : list (string * Value))
  : Value :=
  VObj [ ("thought", VStr "next"); ("action", VStr action);
         ("params", VObj params) ].

Definition click_go : Value := proposal "CLICK" [("selector", VStr "#go")].

Definition summarize : Value := proposal "SUMMARIZE" [].

Definition navigate_home : Value :=
  proposal "NAVIGATE" [("url", VStr "https://example.com/home")].

(** A url without a double slash: the variants that strip comments from the
    reply cut a line at the first double slash, urls included. *)
Definition navigate_blank : Value :=
  proposal "NAVIGATE" [("url", VStr "about:blank")].

Definition not_completed : Value :=
  VObj [ ("completed", VBool false); ("reason", VStr "more to do") ].

Definition start_here : Value :=
  VObj [ ("thought", VStr "start"); ("param", VStr "https://example.com/") ].

Definition goal_reached : Value :=
  VObj [ ("thought", VStr "Goal achieved"); ("action", VStr "NONE") ].

Definition known : list Value :=
  [click_go; summarize; navigate_home; navigate_blank; not_completed;
   start_here;
   goal_reached].

(** A host that parses exactly the texts [print] gives for [known]. *)
Definition demo_host : JsonHost :=
  {| JSON_parse text := find (λ v, bool_decide (print v = text)) known;
     JSON_stringify := print;
     JSON_stringify_indented := print |}.

Definition success : HTTPResponse := {| ok := true; status := 200 |}.

(** A page on which every operation succeeds and nothing is reported, and
    a model that answers every request with [reply]. *)
Definition calm (reply : string) : World :=
  {| w_events _ := [];
     w_unit _ := Ok tt;
     w_string _ := Ok "text";
     w_url _ := "https://example.com/";
     w_bool _ := Ok false;
     w_value _ := Ok (VArr []);
     w_chat _ := Ok (Choice (Some reply));
     w_fetch _ := Ok {| f_ok := true; f_statusText := "OK";
                        f_data := Choice (Some reply) |};
     w_response _ := Ok (Some success);
     w_timer_first _ := false |}.

(** [calm], except that the first navigation is answered by [response]. *)
Definition answering (response : HTTPResponse) (reply : string) : World :=
  {| w_events := w_events (calm reply);
     w_unit := w_unit (calm reply);
     w_string := w_string (calm reply);
     w_url := w_url (calm reply);
     w_bool := w_bool (calm reply);
     w_value := w_value (calm reply);
     w_chat := w_chat (calm reply);
     w_fetch := w_fetch (calm reply);
     w_response _ := Ok (Some response);
     w_timer_first := w_timer_first (calm reply) |}.

(** [calm], except that the chat request at call index [n] is refused. *)
Definition refusing (n : nat) (reply : string) : World :=
  {| w_events := w_events (calm reply);
     w_unit := w_unit (calm reply);
     w_string := w_string (calm reply);
     w_url := w_url (calm reply);
     w_bool := w_bool (calm reply);
     w_value := w_value (calm reply);
     w_chat k := if k =? n then Throw "429 rate limit"
                 else w_chat (calm reply) k;
     w_fetch := w_fetch (calm reply);
     w_response := w_response (calm reply);
     w_timer_first := w_timer_first (calm reply) |}.

(** [calm], except that a request of the page fails with connection
    refused while the call at index [n] is pending. *)
Definition failing_request (n : nat) (reply : string) : World :=
  {| w_events k :=
       if k =? n
       then [RequestFailed "https://example.com/app.js"
               (Some "net::ERR_CONNECTION_REFUSED")]
       else [];
     w_unit := w_unit (calm reply);
     w_string := w_string (calm reply);
     w_url := w_url (calm reply);
     w_bool := w_bool (calm reply);
     w_value := w_value (calm reply);
     w_chat := w_chat (calm reply);
     w_fetch := w_fetch (calm reply);
     w_response := w_response (calm reply);
     w_timer_first := w_timer_first (calm reply) |}.

(** ** The states and outcomes the properties speak about *)

(** The step counter against a budget: the passes were entered at the step
    counts 0, 1, 2, ..., there were at most [budget] of them, and the
    counter is the number of passes, or one less when the last pass was
    left early. *)
Record budget_respected (budget : nat) (s : State) : Prop := {
  budget_entered : entered s = seq 0 (length (entered s));
  budget_passes : length (entered s) ≤ budget;
  budget_counter : stepCount s ≤ length (entered s) ≤ stepCount s + 1;
  budget_steps : stepCount s ≤ budget
}.

(** The state in which a pass that finds the critical flag set leaves. *)
Definition stopping (s : State) : State :=
  set_result
    (result s +:+ "Critical error occurred. Stopping further actions." +:+ nl)
    (set_entered (entered s ++ [stepCount s]) s).

Definition critical_outcome (s : State) : Outcome :=
  {| o_result := result (stopping s);
     o_screenshots := Some (screenshots s);
     o_error := Some "Critical error" |}.

(** The state after the guard has skipped a proposal. *)
Definition skipping (nextStep : Value) (s : State) : State :=
  set_stepCount (stepCount s + 1)
    (set_skipped (skipped s ++ [actionKey nextStep])
       (set_result
          (result s +:+ "Skipping repeated action: " +:+ actionKey nextStep
           +:+ nl) s)).

(** The state after the executor has run a step without an operation. *)
Definition idle_step (s : State) : State :=
  set_result (result s +:+ "Step completed successfully" +:+ nl) s.

(** No pass of the loop was entered. *)
Definition no_step_taken (s : State) : Prop :=
  entered s = [] ∧ executed s = [] ∧ stepCount s = 0 ∧ taskCompleted s = false.

(** The state in which an awaited call finds the variables once the
    handlers have run. *)
Definition arrive (W : World) (handle : PageEvent → State → State)
    (s : State) : State :=
  if listening s then deliver handle (w_events W (length (calls s))) s else s.

(** What the handlers of the router variant never write. *)
Definition kept (s : State) :=
  (calls s, result s, screenshots s, taskCompleted s, browser s,
   listening s, guard s).

(** What the handlers of the service variant never write. *)
Definition kept_service (s : State) :=
  (calls s, screenshots s, taskCompleted s, browser s, listening s, guard s).

(** A reply that is not JSON, with braces around something that is not
    JSON either. *)
Definition chatter : string := "Sure! Here is the step: {click the button}".

(** A first step and a next step in one: a start url, and a thought that
    announces the goal. *)
Definition start_and_finish : Value :=
  VObj [ ("thought", VStr "Goal achieved");
         ("param", VStr "https://example.com/");
         ("action", VStr "NONE") ].

(** A host like [demo_host] that also knows [start_and_finish]. *)
Definition task_host : JsonHost :=
  {| JSON_parse text :=
       find (λ v, bool_decide (print v = text)) (start_and_finish :: known);
     JSON_stringify := print;
     JSON_stringify_indented := print |}.

(** A proposal whose action is none of the known ones and whose signature
    is a name of [Object.prototype]. *)
Definition proto_step : Value := proposal "__proto_" [].

(** A host like [demo_host] that also knows [proto_step]. *)
Definition proto_host : JsonHost :=
  {| JSON_parse text :=
       find (λ v, bool_decide (print v = text)) (proto_step :: known);
     JSON_stringify := print;
     JSON_stringify_indented := print |}.

Definition not_modified : HTTPResponse := {| ok := false; status := 304 |}.

Definition server_error : HTTPResponse := {| ok := false; status := 500 |}.

(** States in which the properties are exercised. *)
Definition after_three_clicks : State :=
  set_actionAttempts {[ "CLICK_#go" := 3 ]} initial.

(** The state at the second loop test of a run of the service variant in
    which a request of the page is refused while the first pass waits for
    the model's proposal. *)
Definition after_critical_signal : State :=
  (Service.session (H:=demo_host) (failing_request 5 (print click_go)) 1
     "https://example.com/" initial).2.

Definition after_navigation : State :=
  set_completedActions ["NAVIGATE"] initial.

(** * The HTTP route, [unnamed/part_003]

    The Next.js API route that exposes the service variant of
    [runQualityAnalysis]. *)

(** What the route writes to [res]. *)
Inductive Payload : Type :=
  | Json (outcome : Outcome)
  | JsonError (error : string)
  | Text (text : string).

Record Reply : Type := {
  r_status : nat;
  r_allow : option (list string);
  r_payload : Payload
}.

Module Api.
Section Route.
Context `{JsonHost} (W : World).

(** [const { url, task } = req.body]: destructuring a nullish body raises
    a TypeError, any other value without the properties gives
    [undefined]. *)
Definition destructure (body : Value) : M (Value * Value) :=
  if nullish body then throw TypeError
  else ret (field "url" body, field "task" body).

(** [handler(req, res)]; the result is [None] only when the fuel of the
    run is used up.  A url or task that is not a string reaches
    [runQualityAnalysis] as it is; here its string conversion stands for
    it. *)
Definition handler (fuel : nat) (method : string) (body : Value)
  : M (option Reply) :=
  if String.eqb method "POST" then
    try_catch
      (fields ← destructure body;
       let url := fields.1 in
       let task := fields.2 in
       if negb (truthy url) || negb (truthy task) then
         ret (Some {| r_status := 400; r_allow := None;
                      r_payload := JsonError "URL and task are required" |})
       else
         result ← Service.runQualityAnalysis W fuel
                    (to_string url) (to_string task);
         match result with
         | Some outcome =>
             ret (Some {| r_status := 200; r_allow := None;
                          r_payload := Json outcome |})
         | None => ret None
         end)
      (λ _,
         ret (Some {| r_status := 500; r_allow := None;
                      r_payload :=
                        JsonError "An error occurred during analysis" |}))
  else
    ret (Some {| r_status := 405; r_allow := Some ["POST"];
                 r_payload := Text ("Method " +:+ method +:+
                                    " Not Allowed") |}).

End Route.
End Api.

(** * Further vocabulary *)

(** The character occurs in the text. *)
Fixpoint has_char (c : ascii) (s : string) : bool :=
  match s with
  | EmptyString => false
  | String c' rest => Ascii.eqb c c' || has_char c rest
  end.


Definition is_click (c : Call) : bool :=
  match c with
  | Click _ => true
  | _ => false
  end.

Definition is_wait_for_selector (c : Call) : bool :=
  match c with
  | WaitForSelector _ => true
  | _ => false
  end.

Definition is_fetch (c : Call) : bool :=
  match c with
  | Fetch _ => true
  | _ => false
  end.

Definition is_chat (purpose : string) (c : Call) : bool :=
  match c with
  | Chat p => String.eqb p purpose
  | _ => false
  end.

(** The calls made since the state [s], given the later state [s']. *)
Definition since (s s' : State) : list Call :=
  drop (length (calls s)) (calls s').

(** [m] never throws. *)
Definition total {A} (m : M A) : Prop :=
  ∀ s, ∃ a, (m s).1 = Ok a.

(** Whatever [m] returns satisfies [P]. *)
Definition returns {A} (P : A → Prop) (m : M A) : Prop :=
  ∀ s a, (m s).1 = Ok a → P a.

(** A request failure that the observers count as critical. *)
Definition refused (e : PageEvent) : Prop :=
  ∃ url text, e = RequestFailed url (Some text) ∧
    text ≠ "net::ERR_ABORTED" ∧
    (includes "ERR_CONNECTION_REFUSED" text = true
     ∨ includes "ERR_NAME_NOT_RESOLVED" text = true).

(** A page error that the observers of the service count as critical. *)
Definition react_error (e : PageEvent) : Prop :=
  ∃ message, e = PageError message ∧
    (includes "React" message = true
     ∨ includes "must be used within" message = true).

(** How many of the calls satisfy [p]. *)
Definition count (p : Call → bool) (l : list Call) : nat :=
  length (filter p l).

(** [s'] differs from [s] only in the log of calls and in what the
    observers write: whatever neither touches has kept its value. *)
Definition untouched (handle : PageEvent → State → State) (s s' : State)
  : Prop :=
  ∀ (A : Type) (f : State → A),
    (∀ e s, f (handle e s) = f s) →
    (∀ v s, f (set_calls v s) = f s) →
    f s' = f s.

(** The selectors [before] were asked for, from the state [s] on, and the
    page has none of them. *)
Definition asked_in_vain (W : World) (s : State) (before : list string)
  : Prop :=
  ∀ i, i < length before → w_bool W (length (calls s) + i) = Ok false.

(** ** Replies of the completions endpoint *)

(** The content of the reply to the call at index [i], when the request
    succeeded and the reply has one. *)
Definition fetched_content (W : World) (i : nat) : option string :=
  match w_fetch W i with
  | Ok reply =>
      if f_ok reply then
        match f_data reply with
        | Choice (Some content) => Some content
        | _ => None
        end
      else None
  | Throw _ => None
  end.

(** The reply at index [i] has a content, and it is not JSON. *)
Definition unparsed `{JsonHost} (W : World) (i : nat) : Prop :=
  ∃ content, fetched_content W i = Some content ∧
             JSON_parse (trim content) = None.

(** The reply at index [i] has a content, and it parses to [v]. *)
Definition parsed `{JsonHost} (W : World) (i : nat) (v : Value) : Prop :=
  ∃ content, fetched_content W i = Some content ∧
             JSON_parse (trim content) = Some v.

(** The request at index [i] fails with [e]: the call itself, the status
    of the response, or a reply without a content. *)
Definition request_failed (W : World) (i : nat) (e : string) : Prop :=
  match w_fetch W i with
  | Throw e' => e = e'
  | Ok reply =>
      if f_ok reply then
        match f_data reply with
        | Choice (Some _) => False
        | _ => e = TypeError
        end
      else e = "OpenAI API request failed: " +:+ f_statusText reply
  end.

(** The actions the [switch] of [executeWebTask] has a case for. *)
Definition task_actions : list string :=
  [ "CLICKBTN"; "TYPETEXT"; "WAITLOAD"; "NAVIGATEURL"; "SCROLL";
    "HIGHLIGHT"; "SCREENSHOT"; "SUMMARIZE_PAGE"; "EXTRACT_LINKS" ].

(** A proposal that neither announces the end of the task nor names an
    action the [switch] knows. *)
Record stray (step : Value) : Prop := {
  stray_thought : ∃ thought,
    field "thought" step = VStr thought ∧
    includes "task completed" (toLowerCase thought) = false ∧
    includes "goal achieved" (toLowerCase thought) = false;
  stray_action : ∃ action,
    field "action" step = VStr action ∧
    toLowerCase action ≠ "none" ∧
    action ∉ task_actions
}.

(** [s'] is a later state of the same run: its log of calls extends the
    log of [s]. *)
Definition later : relation State :=
  λ s s', calls s `prefix_of` calls s'.

(** An error text other than the unload violation of the permissions
    policy. *)
Definition reportable (error : string) : Prop :=
  includes unload_violation error = false.

(** ** The bookkeeping of a loop without a repetition guard *)

(** The step counter and the recorded entries of the loop body. *)
Definition tally (s : State) : nat * list nat := (stepCount s, entered s).

(** One pass through a loop body: the entry is recorded, and the counter
    goes up by at most one, by exactly one when the pass ends normally. *)
Definition counted_pass (s : State) (r : Res Flow) (s' : State) : Prop :=
  entered s' = entered s ++ [stepCount s] ∧
  stepCount s ≤ stepCount s' ≤ stepCount s + 1 ∧
  (r = Ok Next → stepCount s' = stepCount s + 1).

(** The shape all the loops share: [while (!taskCompleted && stepCount <
    budget)] around a body. *)
Definition loops (budget : nat) (body : M Flow) (loop : nat → M LoopExit)
  : Prop :=
  ∀ fuel,
    loop fuel
    = (s ← gets id;
       if negb (taskCompleted s) && (stepCount s <? budget) then
         match fuel with
         | 0 => ret OutOfFuel
         | S fuel' =>
             flow ← body;
             match flow with
             | Next => loop fuel'
             | Break => ret Done
             | Return o => ret (Returned o)
             end
         end
       else ret Done).

(** The only value a pass returns from inside the loop is the Critical
    error outcome. *)
Definition critical_return (flow : Flow) : Prop :=
  ∀ o, flow = Return o → o_error o = Some "Critical error".

(** ** Further concrete hosts and worlds for the examples *)

(** A proposal with an action the task executor has no case for. *)
Definition wander : Value :=
  VObj [ ("thought", VStr "look around"); ("action", VStr "DANCE") ].

(** A host like [demo_host] that also knows [wander]. *)
Definition wander_host : JsonHost :=
  {| JSON_parse text :=
       find (λ v, bool_decide (print v = text)) (wander :: known);
     JSON_stringify := print;
     JSON_stringify_indented := print |}.

(** [calm], except that the timer of the first navigation fires first. *)
Definition slow (reply : string) : World :=
  {| w_events := w_events (calm reply);
     w_unit := w_unit (calm reply);
     w_string := w_string (calm reply);
     w_url := w_url (calm reply);
     w_bool := w_bool (calm reply);
     w_value := w_value (calm reply);
     w_chat := w_chat (calm reply);
     w_fetch := w_fetch (calm reply);
     w_response := w_response (calm reply);
     w_timer_first k := k =? 2 |}.

(** What [print] puts between the braces of an object. *)
Definition members (fs : list (string * Value)) : string :=
  join "," (map (λ kv, dq +:+ kv.1 +:+ dq +:+ ":" +:+ print kv.2) fs).

Definition click_go_members : string :=
  members [ ("thought", VStr "next"); ("action", VStr "CLICK");
            ("params", VObj [("selector", VStr "#go")]) ].

(** A request body with a url and a task. *)
Definition request_body : Value :=
  VObj [ ("url", VStr "https://example.com/");
         ("task", VStr "summarize the page") ].

(** * Frame lemmas *)

Global Arguments await : simpl never.
Global Arguments sleep : simpl never.
Global Arguments page_url : simpl never.
Global Arguments race_timer : simpl never.

Global Instance unchanged_preorder {A} (f : State → A) : PreOrder (unchanged f).
Proof.
  split; unfold unchanged.
  - intros s. reflexivity.
  - intros s1 s2 s3 H12 H23. congruence.
Qed.

Global Instance raised_preorder f : PreOrder (raised f).
Proof.
  split; unfold raised.
  - intros s Hs. exact Hs.
  - intros s1 s2 s3 H12 H23 Hs. auto.
Qed.

Lemma closes_call c s :
  c ≠ Close → closes (set_calls (calls s ++ [c]) s) = closes s.
Proof.
  intros Hc. unfold closes. simpl. rewrite filter_app, length_app.
  destruct c; simpl; (done || lia).
Qed.

Lemma closes_close s : closes (set_calls (calls s ++ [Close]) s) = closes s + 1.
Proof. unfold closes. simpl. by rewrite filter_app, length_app. Qed.

Ltac frame_instance :=
  split; [apply _ | ..]; intros; unfold unchanged, raised; simpl;
  auto using closes_call.

Ltac loop_frame_instance :=
  split; [frame_instance | ..]; intros; unfold unchanged, raised; simpl; auto.

Global Instance frame_guard : Frame (unchanged guard).
Proof. frame_instance. Qed.

Global Instance frame_closes : LoopFrame (unchanged closes).
Proof. loop_frame_instance. Qed.

Global Instance frame_critical : LoopFrame (raised criticalErrorOccurred).
Proof. loop_frame_instance. Qed.

Global Instance frame_completed : LoopFrame (raised taskCompleted).
Proof. loop_frame_instance. Qed.

Global Instance frame_browser : LoopFrame (raised browser).
Proof. loop_frame_instance. Qed.

Section Preserves.
Context (R : relation State) `{!PreOrder R}.

Lemma preserves_ret {A} (a : A) : preserves R (ret a).
Proof. intros s. reflexivity. Qed.

Lemma preserves_throw {A} e : preserves R (throw (A:=A) e).
Proof. intros s. reflexivity. Qed.

Lemma preserves_gets {A} (f : State → A) : preserves R (gets f).
Proof. intros s. reflexivity. Qed.

Lemma preserves_modify f : (∀ s, R s (f s)) → preserves R (modify f).
Proof. intros Hf s. apply Hf. Qed.

Lemma preserves_bind {A B} (m : M A) (k : A → M B) :
  preserves R m → (∀ a, preserves R (k a)) → preserves R (bind m k).
Proof.
  intros Hm Hk s. unfold bind. specialize (Hm s).
  destruct (m s) as [[a|e] s1]; simpl in *; [|assumption].
  etransitivity; [eassumption | apply Hk].
Qed.

Lemma preserves_try_catch {A} (m : M A) h :
  preserves R m → (∀ e, preserves R (h e)) → preserves R (try_catch m h).
Proof.
  intros Hm Hh s. unfold try_catch. specialize (Hm s).
  destruct (m s) as [[a|e] s1]; simpl in *; [assumption|].
  etransitivity; [eassumption | apply Hh].
Qed.

Lemma preserves_race_timer {A} W (m : M A) :
  preserves R m → preserves R (race_timer W m).
Proof.
  intros Hm s. unfold race_timer. specialize (Hm s).
  destruct (w_timer_first W _); [assumption|].
  destruct (m s) as [[a|e] s1]; assumption.
Qed.

Lemma preserves_try_finally {A} (m : M A) c :
  preserves R m → preserves R c → preserves R (try_finally m c).
Proof.
  intros Hm Hc s. unfold try_finally.
  specialize (Hm s). specialize (Hc (m s).2).
  destruct (c (m s).2) as [[a|e] s1]; simpl in *; etransitivity; eassumption.
Qed.
End Preserves.

Section PreservesCalls.
Context (R : relation State) `{!Frame R}.
Context (W : World) (handle : PageEvent → State → State).
Context (Hhandle : ∀ e s, R s (handle e s)).

Lemma preserves_log text : preserves R (log text).
Proof. intros s. apply frame_result. Qed.

Lemma preserves_push_completed entry : preserves R (push_completed entry).
Proof. intros s. apply frame_completedActions. Qed.

Lemma deliver_frame events s : R s (deliver handle events s).
Proof using Hhandle Frame0.
  unfold deliver. revert s.
  induction events as [|e events IH]; intros s; simpl.
  - reflexivity.
  - etransitivity; [apply Hhandle | apply IH].
Qed.

Lemma preserves_await {A} (answer : World → nat → Res A) c :
  c ≠ Close → preserves R (await W handle answer c).
Proof using Hhandle Frame0.
  intros Hc s. unfold await. simpl. destruct (listening s).
  - etransitivity; [apply deliver_frame | by apply frame_call].
  - by apply frame_call.
Qed.

Lemma preserves_sleep ms : preserves R (sleep W handle ms).
Proof using Hhandle Frame0.
  intros s. unfold sleep. simpl. by apply (preserves_await w_unit).
Qed.

Lemma preserves_page_url : preserves R (page_url W).
Proof. intros s. by apply frame_call. Qed.

Lemma preserves_member k v : preserves R (member k v).
Proof.
  unfold member.
  destruct (nullish v); [apply preserves_throw | apply preserves_ret]; apply _.
Qed.

Lemma preserves_content_of r : preserves R (content_of r).
Proof.
  destruct r as [|[c|]]; simpl;
    [apply preserves_throw | apply preserves_ret ..]; apply _.
Qed.
End PreservesCalls.

(** One write that every [Frame], or every [LoopFrame], allows. *)
Ltac frame_write :=
  first [ apply frame_result | apply frame_currentState
        | apply frame_currentUrl | apply frame_screenshots
        | apply frame_completedActions | apply frame_videoClicked
        | apply frame_errors | apply frame_pageErrorOccurred
        | apply frame_criticalErrorOccurred | apply frame_taskCompleted
        | apply loop_stepCount | apply loop_actionAttempts
        | apply loop_executed | apply loop_skipped | apply loop_entered
        | apply loop_listening | apply loop_browser ].

(** The side condition on the handlers; extended as the handlers of the
    variants are dealt with. *)
Ltac handler_frame := intros; reflexivity.

(** Proves [preserves R m] by following the shape of [m]. *)
Ltac preserves_step :=
  lazymatch goal with
  | |- preserves _ (bind _ _) => apply preserves_bind; [apply _ | | intros ?]
  | |- preserves _ (ret _) => apply preserves_ret; apply _
  | |- preserves _ (throw _) => apply preserves_throw; apply _
  | |- preserves _ (gets _) => apply preserves_gets; apply _
  | |- preserves _ (log _) => apply preserves_log; apply _
  | |- preserves _ (push_completed _) => apply preserves_push_completed; apply _
  | |- preserves _ (member _ _) => apply preserves_member; apply _
  | |- preserves _ (content_of _) => apply preserves_content_of; apply _
  | |- preserves _ (page_url _) => apply preserves_page_url; apply _
  | |- preserves _ (await _ _ _ _) =>
      apply preserves_await;
      [apply _ | first [assumption | handler_frame] | discriminate]
  | |- preserves _ (sleep _ _ _) =>
      apply preserves_sleep;
      [apply _ | first [assumption | handler_frame]]
  | |- preserves _ (try_catch _ _) =>
      apply preserves_try_catch; [apply _ | | intros ?]
  | |- preserves _ (race_timer _ _) =>
      apply preserves_race_timer; try apply _
  | |- preserves _ (try_finally _ _) =>
      apply preserves_try_finally; [apply _ | | ]
  | |- preserves _ (modify _) =>
      apply preserves_modify; intros ?;
      first [frame_write | unfold unchanged, raised; simpl; solve [auto]]
  | |- preserves _ (if ?b then _ else _) => destruct b
  | |- preserves _ (match ?x with _ => _ end) => destruct x
  end.

Create HintDb frames discriminated.

Ltac preserves_auto :=
  cbv zeta;
  repeat first
    [ assumption
    | solve [eauto 4 with frames typeclass_instances]
    | preserves_step ].

Section PreservesHelpers.
Context (R : relation State) `{!Frame R}.
Context (W : World) (handle : PageEvent → State → State).
Context (Hhandle : ∀ e s, R s (handle e s)).

Lemma preserves_clickElement sel : preserves R (clickElement W handle sel).
Proof using All. unfold clickElement. preserves_auto. Qed.

Lemma preserves_typeText sel text : preserves R (typeText W handle sel text).
Proof using All. unfold typeText. preserves_auto. Qed.

Lemma preserves_selectOption sel v :
  preserves R (selectOption W handle sel v).
Proof using All. unfold selectOption. preserves_auto. Qed.

Lemma preserves_takeScreenshot : preserves R (takeScreenshot W handle).
Proof using All. unfold takeScreenshot. preserves_auto. Qed.

Lemma preserves_extractLinks : preserves R (extractLinks W handle).
Proof using All. unfold extractLinks. preserves_auto. Qed.

Lemma preserves_scroll d : preserves R (scroll W handle d).
Proof using All. unfold scroll. preserves_auto. Qed.

Lemma preserves_highlightElements sel :
  preserves R (highlightElements W handle sel).
Proof using All. unfold highlightElements. preserves_auto. Qed.

Lemma preserves_checkIfVideoPlaying : preserves R (checkIfVideoPlaying W handle).
Proof using All. unfold checkIfVideoPlaying. preserves_auto. Qed.

Lemma preserves_extractPageContent : preserves R (extractPageContent W handle).
Proof using All. unfold extractPageContent. preserves_auto. Qed.

Lemma preserves_first_present l : preserves R (first_present W handle l).
Proof using All. induction l as [|x l IH]; simpl; preserves_auto. Qed.

Lemma preserves_findAlternativeSelector sel :
  preserves R (findAlternativeSelector W handle sel).
Proof using All. apply preserves_first_present. Qed.

Lemma preserves_clickWithRetry_from n a m sel :
  preserves R (clickWithRetry_from W handle n a m sel).
Proof using All.
  revert a. induction n as [|n IH]; intros a; simpl; preserves_auto.
Qed.

Lemma preserves_clickWithRetry sel : preserves R (clickWithRetry W handle sel).
Proof using All. apply preserves_clickWithRetry_from. Qed.
End PreservesHelpers.

(** How the shared page helpers enter the proofs about the variants. *)
Ltac helper_frame lem := apply lem; [apply _ | handler_frame].

Global Hint Extern 1 (preserves _ (clickElement _ _ _)) =>
  helper_frame preserves_clickElement : frames.
Global Hint Extern 1 (preserves _ (typeText _ _ _ _)) =>
  helper_frame preserves_typeText : frames.
Global Hint Extern 1 (preserves _ (selectOption _ _ _ _)) =>
  helper_frame preserves_selectOption : frames.
Global Hint Extern 1 (preserves _ (takeScreenshot _ _)) =>
  helper_frame preserves_takeScreenshot : frames.
Global Hint Extern 1 (preserves _ (extractLinks _ _)) =>
  helper_frame preserves_extractLinks : frames.
Global Hint Extern 1 (preserves _ (scroll _ _ _)) =>
  helper_frame preserves_scroll : frames.
Global Hint Extern 1 (preserves _ (highlightElements _ _ _)) =>
  helper_frame preserves_highlightElements : frames.
Global Hint Extern 1 (preserves _ (checkIfVideoPlaying _ _)) =>
  helper_frame preserves_checkIfVideoPlaying : frames.
Global Hint Extern 1 (preserves _ (extractPageContent _ _)) =>
  helper_frame preserves_extractPageContent : frames.
Global Hint Extern 1 (preserves _ (findAlternativeSelector _ _ _)) =>
  helper_frame preserves_findAlternativeSelector : frames.
Global Hint Extern 1 (preserves _ (clickWithRetry _ _ _)) =>
  helper_frame preserves_clickWithRetry : frames.

(** A chain of writes, each of which the frame allows. *)
Ltac frame_chain :=
  repeat first [ reflexivity | frame_write | (etransitivity; [|frame_write]) ].

(** * Frames of Router *)

Lemma router_on_event (R : relation State) `{!Frame R} e s :
  R s (Router.on_event e s).
Proof.
  destruct e as [type text|message|url [errorText|]]; simpl;
    repeat case_match; frame_chain.
Qed.

Ltac handler_frame ::=
  intros; first [reflexivity | apply router_on_event; apply _].

Section RouterFrames.
Context `{JsonHost} (W : World).
Context (R : relation State) `{!Frame R}.

Lemma router_generateNextStep : preserves R (Router.generateNextStep W).
Proof.
  unfold Router.generateNextStep, Router.call; try unfold Router.parse_content.
  preserves_auto.
Qed.
#[local] Hint Resolve router_generateNextStep : frames.

Lemma router_summarizePage : preserves R (Router.summarizePage W).
Proof. unfold Router.summarizePage, Router.call. preserves_auto. Qed.
#[local] Hint Resolve router_summarizePage : frames.

Lemma router_perform nextStep : preserves R (Router.perform W nextStep).
Proof. unfold Router.perform, Router.call. preserves_auto. Qed.
#[local] Hint Resolve router_perform : frames.

Lemma router_recover nextStep e : preserves R (Router.recover W nextStep e).
Proof. unfold Router.recover. preserves_auto. Qed.
#[local] Hint Resolve router_recover : frames.

Lemma router_execute nextStep : preserves R (Router.execute W nextStep).
Proof. unfold Router.execute. preserves_auto. Qed.
#[local] Hint Resolve router_execute : frames.

Lemma router_checkTaskCompletion : preserves R (Router.checkTaskCompletion W).
Proof. unfold Router.checkTaskCompletion, Router.call. preserves_auto. Qed.
#[local] Hint Resolve router_checkTaskCompletion : frames.

Lemma router_detect_completion : preserves R (Router.detect_completion W).
Proof. unfold Router.detect_completion. preserves_auto. Qed.
#[local] Hint Resolve router_detect_completion : frames.

Lemma router_summarizeErrors l : preserves R (Router.summarizeErrors W l).
Proof. unfold Router.summarizeErrors, Router.call. preserves_auto. Qed.
#[local] Hint Resolve router_summarizeErrors : frames.

Lemma router_summarizeTest : preserves R (Router.summarizeTest W).
Proof. unfold Router.summarizeTest, Router.call. preserves_auto. Qed.
#[local] Hint Resolve router_summarizeTest : frames.

Lemma router_report : preserves R (Router.report W).
Proof. unfold Router.report. preserves_auto. Qed.
#[local] Hint Resolve router_report : frames.

Lemma router_check_response r : preserves R (Router.check_response r).
Proof. unfold Router.check_response. preserves_auto. Qed.
#[local] Hint Resolve router_check_response : frames.

End RouterFrames.

#[global] Hint Resolve router_generateNextStep router_summarizePage router_perform router_recover router_execute router_checkTaskCompletion router_detect_completion router_summarizeErrors router_summarizeTest router_report router_check_response : frames.

Section RouterLoopFrames.
Context `{JsonHost} (W : World).
Context (R : relation State) `{!LoopFrame R}.

Lemma router_advance nextStep : preserves R (Router.advance W nextStep).
Proof. unfold Router.advance. preserves_auto. Qed.
#[local] Hint Resolve router_advance : frames.

Lemma router_guard_and_act nextStep : preserves R (Router.guard_and_act W nextStep).
Proof. unfold Router.guard_and_act. preserves_auto. Qed.
#[local] Hint Resolve router_guard_and_act : frames.

Lemma router_iteration : preserves R (Router.iteration W).
Proof. unfold Router.iteration. preserves_auto. Qed.
#[local] Hint Resolve router_iteration : frames.

Lemma router_while_loop fuel : preserves R (Router.while_loop W fuel).
Proof. induction fuel as [|fuel IH]; simpl; preserves_auto. Qed.
#[local] Hint Resolve router_while_loop : frames.

Lemma router_analysis fuel url : preserves R (Router.analysis W fuel url).
Proof. unfold Router.analysis, Router.call. preserves_auto. Qed.
#[local] Hint Resolve router_analysis : frames.
End RouterLoopFrames.

#[global] Hint Resolve router_advance router_guard_and_act router_iteration router_while_loop router_analysis : frames.

(** * Frames of Service *)

Lemma service_on_event (R : relation State) `{!Frame R} e s :
  R s (Service.on_event e s).
Proof.
  destruct e as [type text|message|url [errorText|]]; simpl;
    repeat case_match; frame_chain.
Qed.

Ltac handler_frame ::=
  intros;
  first [ reflexivity | apply router_on_event; apply _
        | apply service_on_event; apply _ ].

Section ServiceFrames.
Context `{JsonHost} (W : World).
Context (R : relation State) `{!Frame R}.

Lemma service_generateNextStep : preserves R (Service.generateNextStep W).
Proof.
  unfold Service.generateNextStep, Service.call; try unfold Router.parse_content.
  preserves_auto.
Qed.
#[local] Hint Resolve service_generateNextStep : frames.

Lemma service_summarizePage : preserves R (Service.summarizePage W).
Proof. unfold Service.summarizePage, Service.call. preserves_auto. Qed.
#[local] Hint Resolve service_summarizePage : frames.

Lemma service_perform nextStep : preserves R (Service.perform W nextStep).
Proof. unfold Service.perform, Service.call. preserves_auto. Qed.
#[local] Hint Resolve service_perform : frames.

Lemma service_recover nextStep e : preserves R (Service.recover W nextStep e).
Proof. unfold Service.recover. preserves_auto. Qed.
#[local] Hint Resolve service_recover : frames.

Lemma service_execute nextStep : preserves R (Service.execute W nextStep).
Proof. unfold Service.execute. preserves_auto. Qed.
#[local] Hint Resolve service_execute : frames.

Lemma service_detect_completion : preserves R (Service.detect_completion W).
Proof. unfold Service.detect_completion. preserves_auto. Qed.
#[local] Hint Resolve service_detect_completion : frames.

Lemma service_summarizeErrors l : preserves R (Service.summarizeErrors W l).
Proof. unfold Service.summarizeErrors, Service.call. preserves_auto. Qed.
#[local] Hint Resolve service_summarizeErrors : frames.

Lemma service_summarizeTest : preserves R (Service.summarizeTest W).
Proof. unfold Service.summarizeTest, Service.call. preserves_auto. Qed.
#[local] Hint Resolve service_summarizeTest : frames.

Lemma service_report : preserves R (Service.report W).
Proof. unfold Service.report. preserves_auto. Qed.
#[local] Hint Resolve service_report : frames.

End ServiceFrames.

#[global] Hint Resolve service_generateNextStep service_summarizePage service_perform service_recover service_execute service_detect_completion service_summarizeErrors service_summarizeTest service_report : frames.

Section ServiceLoopFrames.
Context `{JsonHost} (W : World).
Context (R : relation State) `{!LoopFrame R}.

Lemma service_advance nextStep : preserves R (Service.advance W nextStep).
Proof. unfold Service.advance. preserves_auto. Qed.
#[local] Hint Resolve service_advance : frames.

Lemma service_guard_and_act nextStep : preserves R (Service.guard_and_act W nextStep).
Proof. unfold Service.guard_and_act. preserves_auto. Qed.
#[local] Hint Resolve service_guard_and_act : frames.

Lemma service_iteration : preserves R (Service.iteration W).
Proof. unfold Service.iteration. preserves_auto. Qed.
#[local] Hint Resolve service_iteration : frames.

Lemma service_while_loop fuel : preserves R (Service.while_loop W fuel).
Proof. induction fuel as [|fuel IH]; simpl; preserves_auto. Qed.
#[local] Hint Resolve service_while_loop : frames.

Lemma service_analysis fuel url : preserves R (Service.analysis W fuel url).
Proof. unfold Service.analysis, Service.call. preserves_auto. Qed.
#[local] Hint Resolve service_analysis : frames.
End ServiceLoopFrames.

#[global] Hint Resolve service_advance service_guard_and_act service_iteration service_while_loop service_analysis : frames.

(** * The repetition guard and the step budget *)

Lemma times_app key l1 l2 : times key (l1 ++ l2) = times key l1 + times key l2.
Proof. unfold times. by rewrite filter_app, length_app. Qed.

Lemma times_here key : times key [key] = 1.
Proof. unfold times. by rewrite filter_cons_True. Qed.

Lemma times_elsewhere key k : k ≠ key → times key [k] = 0.
Proof. intros. unfold times. by rewrite filter_cons_False. Qed.

Lemma repeated_true attempts key :
  repeated attempts key = true → ∃ n, attempts !! key = Some n ∧ 3 ≤ n.
Proof.
  unfold repeated, read_attempts.
  destruct (attempts !! key) as [n|]; [|by destruct (inherited key)].
  intros [_ Hn%Nat.leb_le]%andb_prop. eauto.
Qed.

Lemma repeated_at_cap attempts key n :
  attempts !! key = Some n → 3 ≤ n → repeated attempts key = true.
Proof.
  intros Hn Hle. unfold repeated, read_attempts. rewrite Hn.
  destruct (Nat.leb_spec 3 n), (Nat.eqb_spec n 0); simpl; (lia || done).
Qed.

Lemma repeated_false attempts key :
  repeated attempts key = false → default 0 (attempts !! key) < 3.
Proof.
  unfold repeated, read_attempts.
  destruct (attempts !! key) as [n|]; [|simpl; lia].
  destruct (Nat.leb_spec 3 n), (Nat.eqb_spec n 0); simpl; intros; (lia || done).
Qed.

(** A name of [Object.prototype] that has no count is never skipped and
    never counted. *)
Lemma repeated_inherited attempts key :
  inherited key = true → attempts !! key = None →
  repeated attempts key = false ∧ count_attempt key attempts = attempts.
Proof.
  intros Hkey Hnone. unfold repeated, count_attempt, read_attempts.
  by rewrite Hnone, Hkey.
Qed.

(** Any other signature is counted. *)
Lemma count_attempt_own attempts key :
  inherited key = false →
  count_attempt key attempts
  = <[key := default 0 (attempts !! key) + 1]> attempts.
Proof.
  intros Hkey. unfold count_attempt, read_attempts. rewrite Hkey.
  destruct (attempts !! key) as [[|n]|]; done.
Qed.

Lemma counted_attempt g key :
  counted g → repeated (g_attempts g) key = false →
  counted {| g_step := g_step g;
             g_attempts := count_attempt key (g_attempts g);
             g_executed := g_executed g ++ [key];
             g_skipped := g_skipped g;
             g_entered := g_entered g |}.
Proof.
  intros [Hcap Hexec Hown Hskip] Hrep.
  pose proof (repeated_false _ _ Hrep) as Hlt.
  destruct (inherited key) eqn:Hkey.
  { destruct (repeated_inherited (g_attempts g) key Hkey (Hown _ Hkey))
      as [_ Hsame].
    split; simpl; rewrite ?Hsame; try done.
    intros k Hk. rewrite times_app, (Hexec _ Hk), times_elsewhere; [lia|].
    intros ->. congruence. }
  split; simpl; rewrite count_attempt_own by done.
  - apply map_Forall_insert_2; [lia | done].
  - intros k Hk. rewrite times_app, (Hexec _ Hk).
    destruct (decide (key = k)) as [->|Hne].
    + by rewrite times_here, lookup_insert_eq.
    + rewrite times_elsewhere, lookup_insert_ne by done. lia.
  - intros k Hk. rewrite lookup_insert_ne; [by apply Hown|].
    intros <-. congruence.
  - eapply Forall_impl; [exact Hskip|]. intros k Hk. simpl in Hk.
    rewrite lookup_insert_ne; [done|].
    intros <-. rewrite Hk in Hlt. simpl in Hlt. lia.
Qed.

Lemma guarded_counted g r g' : guarded g r g' → counted g → counted g'.
Proof.
  intros Hg Hc. destruct Hg as [key Hrep|key Hrep|key e Hrep|key e Hrep].
  - destruct Hc as [Hcap Hexec Hown Hskip]. split; simpl; [done..|].
    apply Forall_app; split; [done|]. constructor; [|constructor].
    destruct (repeated_true _ _ Hrep) as (n & Hn & Hle).
    rewrite Hn. f_equal. specialize (Hcap _ _ Hn). simpl in Hcap. lia.
  - destruct (counted_attempt g key Hc Hrep). by split.
  - destruct (counted_attempt g key Hc Hrep). by split.
  - destruct (counted_attempt g key Hc Hrep). by split.
Qed.

Lemma guarded_step g r g' :
  guarded g r g' →
  g_step g ≤ g_step g' ≤ g_step g + 1 ∧ (r = Ok Next → g_step g' = g_step g + 1).
Proof. intros []; simpl; split; (lia || done). Qed.

Lemma counted_times g key :
  counted g → inherited key = false → times key (g_executed g) ≤ 3.
Proof.
  intros [Hcap Hexec _ _] Hkey. rewrite (Hexec _ Hkey).
  destruct (g_attempts g !! key) as [n|] eqn:Hn; simpl; [|lia].
  exact (Hcap _ _ Hn).
Qed.

Lemma at_head_initial : at_head (guard initial).
Proof.
  split; [split|]; simpl.
  - apply map_Forall_empty.
  - intros key _. by rewrite lookup_empty.
  - intros key _. by rewrite lookup_empty.
  - constructor.
  - done.
Qed.

Lemma at_head_within budget g : at_head g → g_step g ≤ budget → within budget g.
Proof.
  intros [Hc He] Hb. split; try done; rewrite He, ?length_seq; (done || lia).
Qed.

Lemma counted_enter g : counted g → counted (enter g).
Proof. intros [? ? ? ?]. by split. Qed.

Lemma pass_within budget g r g' :
  at_head g → g_step g < budget →
  (g' = enter g ∧ r ≠ Ok Next) ∨ guarded (enter g) r g' →
  within budget g' ∧ (r = Ok Next → at_head g').
Proof.
  intros [Hc He] Hb Hpass.
  assert (g_entered (enter g) = seq 0 (g_step g + 1)) as Hen.
  { simpl. rewrite He, seq_app. simpl. done. }
  destruct Hpass as [[-> Hr]|Hg].
  - split; [|done].
    split; [by apply counted_enter|rewrite Hen, ?length_seq..|];
      simpl; (done || lia).
  - pose proof (guarded_counted _ _ _ Hg (counted_enter _ Hc)) as Hc'.
    assert (g_entered g' = g_entered (enter g)) as Hsame by (by destruct Hg).
    destruct (guarded_step _ _ _ Hg) as [Hs Hnext]. simpl in Hs, Hnext.
    split.
    + split; [done|rewrite Hsame, Hen, ?length_seq..|]; (done || lia).
    + intros Hr. split; [done|]. rewrite Hsame, Hen, (Hnext Hr). done.
Qed.

(** ** Running a computation one step at a time *)

Lemma bind_eq {A B} (m : M A) (k : A → M B) s :
  bind m k s =
  match m s with
  | (Ok a, s') => k a s'
  | (Throw e, s') => (Throw e, s')
  end.
Proof. reflexivity. Qed.

Lemma try_catch_eq {A} (m : M A) h s :
  try_catch m h s =
  match m s with
  | (Ok a, s') => (Ok a, s')
  | (Throw e, s') => h e s'
  end.
Proof. reflexivity. Qed.

Lemma bind_modify {B} f (k : unit → M B) s : bind (modify f) k s = k tt (f s).
Proof. reflexivity. Qed.

Lemma bind_gets {A B} (f : State → A) (k : A → M B) s :
  bind (gets f) k s = k (f s) s.
Proof. reflexivity. Qed.

Lemma bind_ret {A B} (a : A) (k : A → M B) s : bind (ret a) k s = k a s.
Proof. reflexivity. Qed.

Lemma ret_eq {A} (a : A) s : ret a s = (Ok a, s).
Proof. reflexivity. Qed.

Lemma throw_eq {A} e s : throw (A:=A) e s = (Throw e, s).
Proof. reflexivity. Qed.

Lemma bind_throw {A B} e (k : A → M B) s : bind (throw e) k s = (Throw e, s).
Proof. reflexivity. Qed.

Lemma bind_log {B} text (k : unit → M B) s :
  bind (log text) k s = k tt (set_result (result s +:+ text) s).
Proof. reflexivity. Qed.

Lemma log_eq text s : log text s = (Ok tt, set_result (result s +:+ text) s).
Proof. reflexivity. Qed.

Lemma modify_eq f s : modify f s = (Ok tt, f s).
Proof. reflexivity. Qed.

Lemma bind_push_completed {B} entry (k : unit → M B) s :
  bind (push_completed entry) k s =
  k tt (set_completedActions (completedActions s ++ [entry]) s).
Proof. reflexivity. Qed.

Lemma bind_assoc {A B C} (m : M A) (k : A → M B) (k' : B → M C) s :
  bind (bind m k) k' s = bind m (λ a, bind (k a) k') s.
Proof. unfold bind. by destruct (m s) as [[a|e] s1]. Qed.

(** Runs the assignments and reads at the head of a computation. *)
Ltac run :=
  repeat first
    [ rewrite bind_assoc | rewrite bind_modify | rewrite bind_gets | rewrite bind_ret
    | rewrite bind_throw | rewrite bind_log | rewrite bind_push_completed
    | rewrite ret_eq | rewrite throw_eq | rewrite log_eq | rewrite modify_eq ];
  cbv beta iota; try unfold id.

(** Runs the computation [m] at the head of a bind, keeping what the frame
    fact [F] says about the state it leaves. *)
Ltac run_framed F :=
  rewrite bind_eq;
  lazymatch goal with
  | |- context [match ?m ?s with _ => _ end] =>
      let HF := fresh "HF" in
      pose proof (F s) as HF; red in HF;
      let a := fresh "a" in
      let e := fresh "e" in
      let s' := fresh "s" in
      destruct (m s) as [[a|e] s']; simpl in HF
  end.

(** ** The loop of Router *)

Section RouterLoop.
Context `{JsonHost} (W : World).

Lemma router_advance_guard nextStep s :
  ∃ s', Router.advance W nextStep s = (Ok tt, s') ∧
        guard s' = {| g_step := stepCount s + 1;
                      g_attempts := actionAttempts s;
                      g_executed := executed s; g_skipped := skipped s;
                      g_entered := entered s |}.
Proof. eexists. split; [reflexivity|]. done. Qed.

Lemma router_guard_and_act_guarded nextStep s r s' :
  Router.guard_and_act W nextStep s = (r, s') →
  guarded (guard s) r (guard s').
Proof.
  unfold Router.guard_and_act. cbv zeta. run.
  destruct (repeated (actionAttempts s) (actionKey nextStep)) eqn:Hrep.
  - run. intros [= <- <-]. apply (guarded_skip (guard s) _ Hrep).
  - run. rewrite bind_eq.
    match goal with
    | |- context [Router.execute W nextStep ?s0] => set (s1 := s0)
    end.
    pose proof (router_execute W (unchanged guard) nextStep s1) as F1.
    destruct (Router.execute W nextStep s1) as [[[]|e] s2]; simpl in F1.
    + rewrite bind_eq.
      destruct (router_advance_guard nextStep s2) as (s3 & -> & G3).
      pose proof (router_detect_completion W (unchanged guard) s3) as F3.
      rewrite bind_eq.
      destruct (Router.detect_completion W s3) as [[[]|e] s4]; simpl in *;
        intros [= <- <-]; red in F1, F3; rewrite F3, G3;
        replace (stepCount s2) with (stepCount s1) by (by inversion F1);
        replace (actionAttempts s2) with (actionAttempts s1)
          by (by inversion F1);
        replace (executed s2) with (executed s1) by (by inversion F1);
        replace (skipped s2) with (skipped s1) by (by inversion F1);
        replace (entered s2) with (entered s1) by (by inversion F1); simpl.
      * apply (guarded_done (guard s) _ Hrep).
      * apply (guarded_thrown (guard s) _ e Hrep).
    + intros [= <- <-]. red in F1. rewrite F1.
      apply (guarded_failed (guard s) _ e Hrep).
Qed.

(** One pass through the loop body: the entry is recorded, and the pass
    either leaves before the guard or goes through it. *)
Lemma router_iteration_pass s r s' :
  Router.iteration W s = (r, s') →
  (guard s' = enter (guard s) ∧ r ≠ Ok Next) ∨
  guarded (enter (guard s)) r (guard s').
Proof.
  unfold Router.iteration. run.
  match goal with
  | |- context [criticalErrorOccurred ?s0] => set (s0' := s0)
  end.
  assert (guard s0' = enter (guard s)) as <- by done. clearbody s0'.
  destruct (criticalErrorOccurred s0').
  { run. intros [= <- <-]. left. done. }
  rewrite bind_eq.
  pose proof (preserves_extractPageContent (unchanged guard) W Router.on_event
                (router_on_event (unchanged guard)) s0') as F1.
  destruct (extractPageContent W Router.on_event s0') as [[content|e] s1];
    simpl in F1; red in F1; rewrite <- F1.
  2:{ intros [= <- <-]. left. done. }
  rewrite bind_eq.
  pose proof (router_generateNextStep W (unchanged guard) s1) as F2.
  destruct (Router.generateNextStep W s1) as [[nextStep|e] s2];
    simpl in F2; red in F2; rewrite <- F2.
  2:{ intros [= <- <-]. left. done. }
  run. destruct (negb (truthy nextStep)).
  { run. intros [= <- <-]. left. done. }
  run. intros Hact. right. exact (router_guard_and_act_guarded _ _ _ _ Hact).
Qed.

Lemma router_while_loop_within fuel s r s' :
  at_head (guard s) → stepCount s ≤ Router.maxSteps →
  Router.while_loop W fuel s = (r, s') →
  within Router.maxSteps (guard s') ∧
  (Router.maxSteps ≤ fuel + stepCount s → r ≠ Ok OutOfFuel).
Proof.
  assert (∀ fuel s r s', at_head (guard s) → stepCount s ≤ Router.maxSteps →
            (Ok Done, s) = (r, s') →
            within Router.maxSteps (guard s') ∧
            (Router.maxSteps ≤ fuel + stepCount s → r ≠ Ok OutOfFuel)) as Hdone.
  { intros f0 s0 r0 s0' ? ? [= <- <-]. split; [by apply at_head_within|done]. }
  revert s. induction fuel as [|fuel IH]; intros s Hhead Hle; simpl; run;
    (destruct (negb (taskCompleted s) && (stepCount s <? Router.maxSteps)) eqn:Hc;
     run;
     [ apply andb_prop in Hc as [_ Hlt%Nat.ltb_lt]
     | intros E;
       first [ exact (Hdone 0 _ _ _ Hhead Hle E)
             | exact (Hdone (S fuel) _ _ _ Hhead Hle E) ] ]).
  - intros [= <- <-]. split; [by apply at_head_within|lia].
  - rewrite bind_eq.
    destruct (Router.iteration W s) as [flow s1] eqn:Hit.
    apply router_iteration_pass in Hit.
    destruct (pass_within Router.maxSteps _ _ _ Hhead Hlt Hit) as [Hw Hnext].
    destruct flow as [[| |o]|e]; run; try (intros [= <- <-]; done).
    intros Hloop. specialize (Hnext eq_refl).
    assert (stepCount s1 = stepCount s + 1) as Hs1.
    { destruct Hit as [[_ ?]|Hg]; [done|].
      apply guarded_step in Hg as [_ Hg]. exact (Hg eq_refl). }
    destruct (IH s1 Hnext ltac:(lia) Hloop) as [Hw' Hfuel].
    split; [done|]. intros ?. apply Hfuel. lia.
Qed.
End RouterLoop.

(** ** The loop of Service *)

Section ServiceLoop.
Context `{JsonHost} (W : World).

Lemma service_advance_guard nextStep s :
  ∃ s', Service.advance W nextStep s = (Ok tt, s') ∧
        guard s' = {| g_step := stepCount s + 1;
                      g_attempts := actionAttempts s;
                      g_executed := executed s; g_skipped := skipped s;
                      g_entered := entered s |}.
Proof. eexists. split; [reflexivity|]. done. Qed.

Lemma service_guard_and_act_guarded nextStep s r s' :
  Service.guard_and_act W nextStep s = (r, s') →
  guarded (guard s) r (guard s').
Proof.
  unfold Service.guard_and_act. cbv zeta. run.
  destruct (repeated (actionAttempts s) (actionKey nextStep)) eqn:Hrep.
  - run. intros [= <- <-]. apply (guarded_skip (guard s) _ Hrep).
  - run. rewrite bind_eq.
    match goal with
    | |- context [Service.execute W nextStep ?s0] => set (s1 := s0)
    end.
    pose proof (service_execute W (unchanged guard) nextStep s1) as F1.
    destruct (Service.execute W nextStep s1) as [[[]|e] s2]; simpl in F1.
    + rewrite bind_eq.
      destruct (service_advance_guard nextStep s2) as (s3 & -> & G3).
      pose proof (service_detect_completion W (unchanged guard) s3) as F3.
      rewrite bind_eq.
      destruct (Service.detect_completion W s3) as [[[]|e] s4]; simpl in *;
        intros [= <- <-]; red in F1, F3; rewrite F3, G3;
        replace (stepCount s2) with (stepCount s1) by (by inversion F1);
        replace (actionAttempts s2) with (actionAttempts s1)
          by (by inversion F1);
        replace (executed s2) with (executed s1) by (by inversion F1);
        replace (skipped s2) with (skipped s1) by (by inversion F1);
        replace (entered s2) with (entered s1) by (by inversion F1); simpl.
      * apply (guarded_done (guard s) _ Hrep).
      * apply (guarded_thrown (guard s) _ e Hrep).
    + intros [= <- <-]. red in F1. rewrite F1.
      apply (guarded_failed (guard s) _ e Hrep).
Qed.

(** One pass through the loop body: the entry is recorded, and the pass
    either leaves before the guard or goes through it. *)
Lemma service_iteration_pass s r s' :
  Service.iteration W s = (r, s') →
  (guard s' = enter (guard s) ∧ r ≠ Ok Next) ∨
  guarded (enter (guard s)) r (guard s').
Proof.
  unfold Service.iteration. run.
  match goal with
  | |- context [criticalErrorOccurred ?s0] => set (s0' := s0)
  end.
  assert (guard s0' = enter (guard s)) as <- by done. clearbody s0'.
  destruct (criticalErrorOccurred s0').
  { run. intros [= <- <-]. left. done. }
  rewrite bind_eq.
  pose proof (preserves_extractPageContent (unchanged guard) W Service.on_event
                (service_on_event (unchanged guard)) s0') as F1.
  destruct (extractPageContent W Service.on_event s0') as [[content|e] s1];
    simpl in F1; red in F1; rewrite <- F1.
  2:{ intros [= <- <-]. left. done. }
  rewrite bind_eq.
  pose proof (service_generateNextStep W (unchanged guard) s1) as F2.
  destruct (Service.generateNextStep W s1) as [[nextStep|e] s2];
    simpl in F2; red in F2; rewrite <- F2.
  2:{ intros [= <- <-]. left. done. }
  run. destruct (negb (truthy nextStep)).
  { run. intros [= <- <-]. left. done. }
  run. intros Hact. right. exact (service_guard_and_act_guarded _ _ _ _ Hact).
Qed.

Lemma service_while_loop_within fuel s r s' :
  at_head (guard s) → stepCount s ≤ Service.maxSteps →
  Service.while_loop W fuel s = (r, s') →
  within Service.maxSteps (guard s') ∧
  (Service.maxSteps ≤ fuel + stepCount s → r ≠ Ok OutOfFuel).
Proof.
  assert (∀ fuel s r s', at_head (guard s) → stepCount s ≤ Service.maxSteps →
            (Ok Done, s) = (r, s') →
            within Service.maxSteps (guard s') ∧
            (Service.maxSteps ≤ fuel + stepCount s → r ≠ Ok OutOfFuel)) as Hdone.
  { intros f0 s0 r0 s0' ? ? [= <- <-]. split; [by apply at_head_within|done]. }
  revert s. induction fuel as [|fuel IH]; intros s Hhead Hle; simpl; run;
    (destruct (negb (taskCompleted s) && (stepCount s <? Service.maxSteps)) eqn:Hc;
     run;
     [ apply andb_prop in Hc as [_ Hlt%Nat.ltb_lt]
     | intros E;
       first [ exact (Hdone 0 _ _ _ Hhead Hle E)
             | exact (Hdone (S fuel) _ _ _ Hhead Hle E) ] ]).
  - intros [= <- <-]. split; [by apply at_head_within|lia].
  - rewrite bind_eq.
    destruct (Service.iteration W s) as [flow s1] eqn:Hit.
    apply service_iteration_pass in Hit.
    destruct (pass_within Service.maxSteps _ _ _ Hhead Hlt Hit) as [Hw Hnext].
    destruct flow as [[| |o]|e]; run; try (intros [= <- <-]; done).
    intros Hloop. specialize (Hnext eq_refl).
    assert (stepCount s1 = stepCount s + 1) as Hs1.
    { destruct Hit as [[_ ?]|Hg]; [done|].
      apply guarded_step in Hg as [_ Hg]. exact (Hg eq_refl). }
    destruct (IH s1 Hnext ltac:(lia) Hloop) as [Hw' Hfuel].
    split; [done|]. intros ?. apply Hfuel. lia.
Qed.
End ServiceLoop.

(** ** Whole runs *)

Lemma within_unchanged budget s s' :
  unchanged guard s s' → within budget (guard s) → within budget (guard s').
Proof. unfold unchanged. by intros ->. Qed.

Lemma at_head_unchanged s s' :
  unchanged guard s s' → at_head (guard s) → at_head (guard s').
Proof. unfold unchanged. by intros ->. Qed.

Lemma try_finally_eq {A} (m : M A) c s :
  try_finally m c s =
  match c (m s).2 with
  | (Ok _, s') => ((m s).1, s')
  | (Throw e, s') => (Throw e, s')
  end.
Proof. reflexivity. Qed.

(** The last call of a run that closes its browser. *)
Lemma preserves_close (R : relation State) `{!Frame R} W handle :
  (∀ e s, R s (handle e s)) →
  (∀ s, R s (set_calls (calls s ++ [Close]) s)) →
  preserves R (await W handle w_unit Close).
Proof.
  intros Hhandle Hclose s. unfold await. simpl. destruct (listening s).
  - etransitivity; [apply (deliver_frame R handle Hhandle) | apply Hclose].
  - apply Hclose.
Qed.

Section RouterRun.
Context `{JsonHost} (W : World).

Lemma router_analysis_within fuel url s r s' :
  at_head (guard s) → stepCount s ≤ Router.maxSteps →
  Router.analysis W fuel url s = (r, s') →
  within Router.maxSteps (guard s') ∧
  (Router.maxSteps ≤ fuel + stepCount s → r ≠ Ok None).
Proof.
  intros Hhead Hle. unfold Router.analysis, Router.call.
  assert (∀ x, unchanged guard s x → within Router.maxSteps (guard x)) as Hsame.
  { intros x Hx. apply (within_unchanged _ s); [done|by apply at_head_within]. }
  rewrite bind_eq.
  pose proof (preserves_await (unchanged guard) W Router.on_event
                (router_on_event _) w_response (Goto (VStr url))
                ltac:(done) s) as F0.
  destruct (await W Router.on_event w_response (Goto (VStr url)) s)
    as [[[response|]|e] s0]; simpl in F0; run;
    try (intros [= <- <-]; split; [by apply Hsame|done]).
  rewrite bind_eq.
  pose proof (router_check_response (unchanged guard) response s0) as F1.
  destruct (Router.check_response response s0) as [[[o|]|e] s1];
    simpl in F1; run;
    try (intros [= <- <-]; split; [apply Hsame; by etransitivity|done]).
  assert (unchanged guard s s1) as G1 by (by etransitivity).
  assert (stepCount s1 = stepCount s) as E1 by exact (f_equal g_step G1).
  rewrite bind_eq.
  destruct (Router.while_loop W fuel s1) as [exit s2] eqn:Hloop.
  apply router_while_loop_within in Hloop as [Hw Hfuel];
    [|by apply (at_head_unchanged s)|by rewrite E1].
  rewrite E1 in Hfuel.
  destruct exit as [[| |o]|e]; run; try (intros [= <- <-]; done).
  - intros [= <- <-]. split; [done|]. intros Hf. by destruct (Hfuel Hf).
  - rewrite bind_eq.
    pose proof (router_report W (unchanged guard) s2) as F3.
    destruct (Router.report W s2) as [[o|e] s3]; simpl in F3; run;
      intros [= <- <-]; (split; [by apply (within_unchanged _ s2)|done]).
Qed.

Lemma router_run_within fuel url task r s' :
  Router.runQualityAnalysis W fuel url task initial = (r, s') →
  within Router.maxSteps (guard s') ∧ (Router.maxSteps ≤ fuel → r ≠ Ok None).
Proof.
  unfold Router.runQualityAnalysis, Router.attempt, Router.call.
  assert (∀ x, unchanged guard initial x →
               within Router.maxSteps (guard x)) as Hsame.
  { intros x Hx. apply (within_unchanged _ initial); [done|].
    apply at_head_within; [apply at_head_initial|simpl; lia]. }
  assert (∀ c, c ≠ Close →
            preserves (unchanged guard) (await W Router.on_event w_unit c))
    as Hcall.
  { intros c Hc. apply preserves_await; [apply _|apply router_on_event; apply _|done]. }
  rewrite bind_eq. pose proof (Hcall Launch ltac:(done) initial) as F0.
  destruct (await W Router.on_event w_unit Launch initial) as [[[]|e] s0];
    simpl in F0; run;
    try (intros [= <- <-]; split; [by apply Hsame|done]).
  rewrite bind_eq.
  pose proof (Hcall NewPage ltac:(done) (set_browser true s0)) as F1.
  destruct (await W Router.on_event w_unit NewPage (set_browser true s0))
    as [[[]|e] s1]; simpl in F1; run;
    try (intros [= <- <-]; split; [apply Hsame; by etransitivity|done]).
  match goal with |- try_finally _ _ ?x = _ → _ => set (s2 := x) end.
  assert (unchanged guard initial s2) as G2.
  { transitivity s0; [done|]. transitivity s1; [done|]. done. }
  clearbody s2. rewrite try_finally_eq, try_catch_eq.
  destruct (Router.analysis W fuel url s2) as [ra s3] eqn:Ha.
  apply router_analysis_within in Ha as [Hw Hfuel];
    [|by apply (at_head_unchanged initial)
     |rewrite (f_equal g_step G2 : stepCount s2 = 0); lia].
  rewrite (f_equal g_step G2 : stepCount s2 = 0), Nat.add_0_r in Hfuel.
  assert (∃ ra', (match ra with
                  | Ok a => (Ok a, s3)
                  | Throw e => ret (Some (failure_outcome e)) s3
                  end) = (ra', s3) ∧ (Router.maxSteps ≤ fuel → ra' ≠ Ok None))
    as (ra' & -> & Hra').
  { destruct ra as [a|e]; eexists; (split; [reflexivity|]); [done|]. intros _. done. }
  pose proof (preserves_close (unchanged guard) W Router.on_event
                (router_on_event _) ltac:(done) s3) as F4.
  unfold await in *. simpl in *.
  destruct (w_unit W (length (calls s3))) as [[]|e]; intros [= <- <-];
    (split; [apply (within_unchanged _ s3); [exact F4|done]|]);
    [done|]. intros _. done.
Qed.
End RouterRun.

Section ServiceRun.
Context `{JsonHost} (W : World).

Lemma service_analysis_within fuel url s r s' :
  at_head (guard s) → stepCount s ≤ Service.maxSteps →
  Service.analysis W fuel url s = (r, s') →
  within Service.maxSteps (guard s') ∧
  (Service.maxSteps ≤ fuel + stepCount s → r ≠ Ok None).
Proof.
  intros Hhead Hle. unfold Service.analysis, Service.call.
  assert (∀ x, unchanged guard s x → within Service.maxSteps (guard x))
    as Hsame.
  { intros x Hx. apply (within_unchanged _ s); [done|by apply at_head_within]. }
  rewrite bind_eq.
  assert (preserves (unchanged guard)
            (race_timer W (await W Service.on_event w_response
                             (Goto (VStr url))))) as F0.
  { apply preserves_race_timer; try apply _.
    apply preserves_await; [apply _|apply service_on_event; apply _|done]. }
  specialize (F0 s).
  destruct (race_timer W _ s) as [[[response|]|e] s0]; simpl in F0; run;
    try (intros [= <- <-]; split; [by apply Hsame|done]).
  destruct (negb (from_option ok false response)); run;
    try (intros [= <- <-]; split; [by apply Hsame|done]).
  match goal with
  | |- context [pageErrorOccurred ?x] => set (s1 := x)
  end.
  assert (unchanged guard s s1) as G1 by exact F0.
  assert (stepCount s1 = stepCount s) as E1 by exact (f_equal g_step G1).
  clearbody s1.
  destruct (pageErrorOccurred s1); run;
    try (intros [= <- <-]; split; [by apply Hsame|done]).
  rewrite bind_eq.
  destruct (Service.while_loop W fuel s1) as [exit s2] eqn:Hloop.
  apply service_while_loop_within in Hloop as [Hw Hfuel];
    [|by apply (at_head_unchanged s)|by rewrite E1].
  rewrite E1 in Hfuel.
  destruct exit as [[| |o]|e]; run; try (intros [= <- <-]; done).
  - intros [= <- <-]. split; [done|]. intros Hf. by destruct (Hfuel Hf).
  - rewrite bind_eq.
    pose proof (service_report W (unchanged guard) s2) as F3.
    destruct (Service.report W s2) as [[o|e] s3]; simpl in F3; run;
      intros [= <- <-]; (split; [by apply (within_unchanged _ s2)|done]).
Qed.

Lemma service_run_within fuel url task r s' :
  Service.runQualityAnalysis W fuel url task initial = (r, s') →
  within Service.maxSteps (guard s') ∧
  (Service.maxSteps ≤ fuel → r ≠ Ok None).
Proof.
  unfold Service.runQualityAnalysis, Service.attempt, Service.session,
    Service.cleanup, Service.call.
  rewrite try_finally_eq, try_catch_eq.
  assert (∀ c, c ≠ Close →
            preserves (unchanged guard) (await W Service.on_event w_unit c))
    as Hcall.
  { intros c Hc.
    apply preserves_await; [apply _|apply service_on_event; apply _|done]. }
  assert (∃ ra s3,
    bind (await W Service.on_event w_unit Launch)
      (λ _, bind (modify (set_browser true))
         (λ _, bind (await W Service.on_event w_unit NewPage)
            (λ _, Service.analysis W fuel url))) initial = (ra, s3) ∧
    within Service.maxSteps (guard s3) ∧
    (Service.maxSteps ≤ fuel → ra ≠ Ok None)) as (ra & s3 & -> & Hw & Hra).
  { assert (∀ x, unchanged guard initial x →
                 within Service.maxSteps (guard x)) as Hsame.
    { intros x Hx. apply (within_unchanged _ initial); [done|].
      apply at_head_within; [apply at_head_initial|simpl; lia]. }
    rewrite bind_eq. pose proof (Hcall Launch ltac:(done) initial) as F0.
    destruct (await W Service.on_event w_unit Launch initial) as [[[]|e] s0];
      simpl in F0; run;
      try (do 2 eexists; split; [reflexivity|]; split; [by apply Hsame|done]).
    rewrite bind_eq.
    pose proof (Hcall NewPage ltac:(done) (set_browser true s0)) as F1.
    destruct (await W Service.on_event w_unit NewPage (set_browser true s0))
      as [[[]|e] s1]; simpl in F1; run;
      try (do 2 eexists; split; [reflexivity|];
           split; [apply Hsame; by etransitivity|done]).
    assert (unchanged guard initial s1) as G1.
    { transitivity s0; [done|]. done. }
    destruct (Service.analysis W fuel url s1) as [ra s3] eqn:Ha.
    apply service_analysis_within in Ha as [Hw Hfuel];
      [|by apply (at_head_unchanged initial)
       |rewrite (f_equal g_step G1 : stepCount s1 = 0); lia].
    rewrite (f_equal g_step G1 : stepCount s1 = 0), Nat.add_0_r in Hfuel.
    do 2 eexists. split; [reflexivity|]. done. }
  assert (∃ ra', (match ra with
                  | Ok a => (Ok a, s3)
                  | Throw e => ret (Some (failure_outcome e)) s3
                  end) = (ra', s3) ∧ (Service.maxSteps ≤ fuel → ra' ≠ Ok None))
    as (ra' & -> & Hra').
  { destruct ra as [a|e]; eexists; (split; [reflexivity|]); [done|].
    intros _. done. }
  run. cbn [fst snd].
  pose proof (preserves_close (unchanged guard) W Service.on_event
                (service_on_event _) ltac:(done) s3) as F4.
  destruct (browser s3).
  - unfold await in *. simpl in *.
    destruct (w_unit W (length (calls s3))) as [[]|e]; intros [= <- <-];
      (split; [apply (within_unchanged _ s3); [exact F4|done]|]);
      [done|]. intros _. done.
  - run. intros [= <- <-]. done.
Qed.
End ServiceRun.

(** ** Awaited calls, step by step *)

Lemma await_eq {A} W handle (answer : World → nat → Res A) c s :
  await W handle answer c s =
  (answer W (length (calls s)),
   set_calls (calls (arrive W handle s) ++ [c]) (arrive W handle s)).
Proof. reflexivity. Qed.

Lemma bind_await {A B} W handle (answer : World → nat → Res A) c
    (k : A → M B) s :
  bind (await W handle answer c) k s =
  match answer W (length (calls s)) with
  | Ok a => k a (set_calls (calls (arrive W handle s) ++ [c])
                   (arrive W handle s))
  | Throw e => (Throw e, set_calls (calls (arrive W handle s) ++ [c])
                           (arrive W handle s))
  end.
Proof. rewrite bind_eq, await_eq. by destruct (answer W _). Qed.

Lemma deliver_unchanged {A} (f : State → A) handle :
  (∀ e s, f (handle e s) = f s) → ∀ events s, f (deliver handle events s) = f s.
Proof.
  intros Hf events. unfold deliver.
  induction events as [|e events IH]; intros s; simpl; [done|].
  by rewrite IH, Hf.
Qed.

Lemma arrive_unchanged {A} (f : State → A) W handle :
  (∀ e s, f (handle e s) = f s) → ∀ s, f (arrive W handle s) = f s.
Proof.
  intros Hf s. unfold arrive. destruct (listening s); [|done].
  by apply deliver_unchanged.
Qed.

Lemma router_on_event_kept e s : kept (Router.on_event e s) = kept s.
Proof.
  destruct e as [type text|message|url [errorText|]]; simpl;
    repeat case_match; done.
Qed.

Lemma service_on_event_kept e s :
  kept_service (Service.on_event e s) = kept_service s.
Proof.
  destruct e as [type text|message|url [errorText|]]; simpl;
    repeat case_match; done.
Qed.

Lemma router_arrive_kept W s : kept (arrive W Router.on_event s) = kept s.
Proof. apply arrive_unchanged, router_on_event_kept. Qed.

Lemma service_arrive_kept W s :
  kept_service (arrive W Service.on_event s) = kept_service s.
Proof. apply arrive_unchanged, service_on_event_kept. Qed.

Lemma router_arrive_calls W s : calls (arrive W Router.on_event s) = calls s.
Proof. pose proof (router_arrive_kept W s) as K. unfold kept in K. congruence. Qed.

Lemma router_arrive_result W s : result (arrive W Router.on_event s) = result s.
Proof. pose proof (router_arrive_kept W s) as K. unfold kept in K. congruence. Qed.

Lemma router_arrive_screenshots W s :
  screenshots (arrive W Router.on_event s) = screenshots s.
Proof. pose proof (router_arrive_kept W s) as K. unfold kept in K. congruence. Qed.

Lemma router_arrive_taskCompleted W s :
  taskCompleted (arrive W Router.on_event s) = taskCompleted s.
Proof. pose proof (router_arrive_kept W s) as K. unfold kept in K. congruence. Qed.

Lemma router_arrive_guard W s : guard (arrive W Router.on_event s) = guard s.
Proof. pose proof (router_arrive_kept W s) as K. unfold kept in K. congruence. Qed.

Lemma service_arrive_calls W s : calls (arrive W Service.on_event s) = calls s.
Proof.
  pose proof (service_arrive_kept W s) as K. unfold kept_service in K.
  congruence.
Qed.

(** What holds of the state a computation leaves carries over a bind. *)
Lemma bind_post {A B} (P : State → Prop) (m : M A) (k : A → M B) s :
  P (m s).2 → (∀ a s', P s' → P (k a s').2) → P (bind m k s).2.
Proof.
  intros Hm Hk. unfold bind. destruct (m s) as [[a|e] s1]; simpl in *; auto.
Qed.

Lemma is_str_eq v lit : is_str v lit = true → v = VStr lit.
Proof.
  destruct v; simpl; try done. by intros ->%String.eqb_eq.
Qed.

(** ** What the observers take for critical *)

Lemma router_on_event_critical e s :
  criticalErrorOccurred (Router.on_event e s) = true
  ↔ criticalErrorOccurred s = true ∨ refused e.
Proof.
  unfold refused. destruct e as [type text|message|url [text|]]; simpl.
  - destruct (_ || _); simpl; (split; [auto|]);
      intros [?|(? & ? & ? & _)]; done.
  - split; [auto|]. intros [?|(? & ? & ? & _)]; done.
  - destruct (String.eqb_spec text "net::ERR_ABORTED") as [->|Hne]; simpl.
    { split; [auto|]. intros [?|(? & ? & [= <- <-] & ? & _)]; done. }
    destruct (includes "ERR_CONNECTION_REFUSED" text) eqn:Hrefused; simpl.
    { split; [|done]. intros _. right. exists url, text. auto. }
    destruct (includes "ERR_NAME_NOT_RESOLVED" text) eqn:Hname; simpl.
    { split; [|done]. intros _. right. exists url, text. auto. }
    split; [auto|]. intros [Hs|(url' & text' & [= <- <-] & _ & [?|?])];
      congruence.
  - split; [auto|]. intros [?|(? & ? & ? & _)]; done.
Qed.

Lemma service_on_event_critical e s :
  criticalErrorOccurred (Service.on_event e s) = true
  ↔ criticalErrorOccurred s = true ∨ refused e ∨ react_error e.
Proof.
  unfold refused, react_error.
  destruct e as [type text|message|url [text|]]; simpl.
  - destruct (_ || _); simpl; (split; [auto|]);
      intros [?|[(? & ? & ? & _)|(? & ? & _)]]; done.
  - destruct (includes "React" message) eqn:Hreact; simpl.
    { split; [|done]. intros _. right. right. exists message. auto. }
    destruct (includes "must be used within" message) eqn:Hused; simpl.
    { split; [|done]. intros _. right. right. exists message. auto. }
    split; [auto|].
    intros [Hs|[(url & text & [=] & _)|(message' & [= <-] & [?|?])]];
      congruence.
  - destruct (String.eqb_spec text "net::ERR_ABORTED") as [->|Hne]; simpl.
    { split; [auto|].
      intros [?|[(? & ? & [= <- <-] & ? & _)|(? & ? & _)]]; done. }
    destruct (includes "ERR_CONNECTION_REFUSED" text) eqn:Hrefused; simpl.
    { split; [|done]. intros _. right. left. exists url, text. auto. }
    destruct (includes "ERR_NAME_NOT_RESOLVED" text) eqn:Hname; simpl.
    { split; [|done]. intros _. right. left. exists url, text. auto. }
    split; [auto|].
    intros [Hs|[(url' & text' & [= <- <-] & _ & [?|?])|(m & [=] & _)]];
      congruence.
  - split; [auto|]. intros [?|[(? & ? & ? & _)|(? & ? & _)]]; done.
Qed.

Lemma router_deliver_critical events s :
  criticalErrorOccurred (deliver Router.on_event events s) = true
  ↔ criticalErrorOccurred s = true ∨ Exists refused events.
Proof.
  revert s. induction events as [|e events IH]; intros s.
  - simpl. rewrite Exists_nil. tauto.
  - change (deliver Router.on_event (e :: events) s)
      with (deliver Router.on_event events (Router.on_event e s)).
    rewrite IH, router_on_event_critical, Exists_cons. tauto.
Qed.

Lemma service_deliver_critical events s :
  criticalErrorOccurred (deliver Service.on_event events s) = true
  ↔ criticalErrorOccurred s = true ∨ Exists refused events
    ∨ Exists react_error events.
Proof.
  revert s. induction events as [|e events IH]; intros s.
  - simpl. rewrite !Exists_nil. tauto.
  - change (deliver Service.on_event (e :: events) s)
      with (deliver Service.on_event events (Service.on_event e s)).
    rewrite IH, service_on_event_critical, !Exists_cons. tauto.
Qed.

(** * Frames of the web task executor *)

Section SocialFrames.
Context `{JsonHost} (W : World).
Context (R : relation State) `{!LoopFrame R}.

Lemma social_trimmed_content d : preserves R (Social.trimmed_content d).
Proof. unfold Social.trimmed_content. preserves_auto. Qed.
#[local] Hint Resolve social_trimmed_content : frames.

Lemma social_generateInstructions_from n :
  preserves R (Social.generateInstructions_from W n).
Proof.
  induction n as [|n IH]; simpl; unfold Social.call; preserves_auto.
Qed.

Lemma social_generateInstructions : preserves R (Social.generateInstructions W).
Proof. apply social_generateInstructions_from. Qed.
#[local] Hint Resolve social_generateInstructions : frames.

Lemma social_generateNextStep : preserves R (Social.generateNextStep W).
Proof. unfold Social.generateNextStep, Social.call. preserves_auto. Qed.
#[local] Hint Resolve social_generateNextStep : frames.

Lemma social_clickElement l : preserves R (Social.clickElement W l).
Proof. unfold Social.clickElement, Social.call. preserves_auto. Qed.
#[local] Hint Resolve social_clickElement : frames.

Lemma social_typeText t : preserves R (Social.typeText W t).
Proof. unfold Social.typeText, Social.call. preserves_auto. Qed.
#[local] Hint Resolve social_typeText : frames.

Lemma social_takeScreenshot : preserves R (Social.takeScreenshot W).
Proof. unfold Social.takeScreenshot, Social.call. preserves_auto. Qed.
#[local] Hint Resolve social_takeScreenshot : frames.

Lemma social_summarizePage : preserves R (Social.summarizePage W).
Proof. unfold Social.summarizePage, Social.call. preserves_auto. Qed.
#[local] Hint Resolve social_summarizePage : frames.

Lemma social_lowered v : preserves R (Social.lowered v).
Proof. unfold Social.lowered. preserves_auto. Qed.
#[local] Hint Resolve social_lowered : frames.

Lemma social_signals_completion v : preserves R (Social.signals_completion v).
Proof. unfold Social.signals_completion. preserves_auto. Qed.
#[local] Hint Resolve social_signals_completion : frames.

Lemma social_perform nextStep : preserves R (Social.perform W nextStep).
Proof. unfold Social.perform, Social.call. preserves_auto. Qed.
#[local] Hint Resolve social_perform : frames.

Lemma social_iteration : preserves R (Social.iteration W).
Proof. unfold Social.iteration. preserves_auto. Qed.
#[local] Hint Resolve social_iteration : frames.

Lemma social_while_loop fuel : preserves R (Social.while_loop W fuel).
Proof. induction fuel as [|fuel IH]; simpl; preserves_auto. Qed.
#[local] Hint Resolve social_while_loop : frames.

Lemma social_task_body fuel : preserves R (Social.task_body W fuel).
Proof. unfold Social.task_body, Social.call. preserves_auto. Qed.
#[local] Hint Resolve social_task_body : frames.

Lemma social_executeWebTask fuel task :
  preserves R (Social.executeWebTask W fuel task).
Proof. unfold Social.executeWebTask, Social.call. preserves_auto. Qed.
End SocialFrames.

(** * The properties *)

Lemma within_budget_respected budget s :
  within budget (guard s) → budget_respected budget s.
Proof. intros [_ ? ? ? ?]. by split. Qed.

(** C2.  In every run, in both variants and after any number of passes,
    the step counter was 0 when the first pass was entered and one higher
    at each later entry, there were at most [maxSteps] passes, and the
    counter never exceeds [maxSteps]; and [maxSteps] passes always suffice
    for the loop to end (the model does not run out of fuel). *)
Theorem C2_step_budget `{JsonHost} (W : World) fuel extra url task :
  budget_respected Router.maxSteps
    (Router.runQualityAnalysis W fuel url task initial).2 ∧
  (Router.runQualityAnalysis W (Router.maxSteps + extra) url task initial).1
    ≠ Ok None ∧
  budget_respected Service.maxSteps
    (Service.runQualityAnalysis W fuel url task initial).2 ∧
  (Service.runQualityAnalysis W (Service.maxSteps + extra) url task initial).1
    ≠ Ok None.
Proof.
  split; [|split; [|split]].
  - destruct (Router.runQualityAnalysis W fuel url task initial)
      as [r s] eqn:E.
    apply router_run_within in E as [Hw _]. by apply within_budget_respected.
  - destruct (Router.runQualityAnalysis W (Router.maxSteps + extra) url task
                initial) as [r s] eqn:E.
    apply router_run_within in E as [_ Hf]. apply Hf. lia.
  - destruct (Service.runQualityAnalysis W fuel url task initial)
      as [r s] eqn:E.
    apply service_run_within in E as [Hw _]. by apply within_budget_respected.
  - destruct (Service.runQualityAnalysis W (Service.maxSteps + extra) url task
                initial) as [r s] eqn:E.
    apply service_run_within in E as [_ Hf]. apply Hf. lia.
Qed.

(** C10.  When the guard skips a proposal because its signature stands at
    3 or more attempts, the pass ends at once: the step counter goes up by
    one, the skip is logged, and nothing else changes; no call is made, and
    completed actions, screenshots, every attempt count, the current state
    and the flags are as before. *)
Theorem C10_skip_frame `{JsonHost} (W : World) s nextStep n :
  actionAttempts s !! actionKey nextStep = Some n → 3 ≤ n →
  Router.guard_and_act W nextStep s = (Ok Next, skipping nextStep s) ∧
  Service.guard_and_act W nextStep s = (Ok Next, skipping nextStep s) ∧
  stepCount (skipping nextStep s) = stepCount s + 1 ∧
  calls (skipping nextStep s) = calls s ∧
  executed (skipping nextStep s) = executed s ∧
  completedActions (skipping nextStep s) = completedActions s ∧
  screenshots (skipping nextStep s) = screenshots s ∧
  actionAttempts (skipping nextStep s) = actionAttempts s ∧
  currentState (skipping nextStep s) = currentState s ∧
  videoClicked (skipping nextStep s) = videoClicked s ∧
  taskCompleted (skipping nextStep s) = taskCompleted s ∧
  criticalErrorOccurred (skipping nextStep s) = criticalErrorOccurred s ∧
  errors (skipping nextStep s) = errors s.
Proof.
  intros Hn Hle. pose proof (repeated_at_cap _ _ _ Hn Hle) as Hrep.
  split; [|split; [|done]].
  - unfold Router.guard_and_act. cbv zeta. run. rewrite Hrep. run. done.
  - unfold Service.guard_and_act. cbv zeta. run. rewrite Hrep. run. done.
Qed.

(** C7, as amended.  In the router and in the service variant, once
    NAVIGATE is among the completed actions, the executor answers a
    NAVIGATE proposal, whatever its url, by logging the step and nothing
    else: no navigation, no other call, and [currentState] and
    [completedActions] as before. *)
Theorem C7_navigate_once `{JsonHost} (W : World) s nextStep :
  is_str (field "action" nextStep) "NAVIGATE" = true →
  "NAVIGATE" ∈ completedActions s →
  Router.execute W nextStep s = (Ok tt, idle_step s) ∧
  Service.execute W nextStep s = (Ok tt, idle_step s) ∧
  calls (idle_step s) = calls s ∧
  navigations (idle_step s) = navigations s ∧
  currentState (idle_step s) = currentState s ∧
  completedActions (idle_step s) = completedActions s.
Proof.
  intros Hact Hdone.
  split; [|split; [|done]].
  - unfold Router.execute, Router.perform. cbv zeta.
    rewrite try_catch_eq, Hact. run.
    rewrite bool_decide_eq_true_2, andb_false_r by done. run. done.
  - unfold Service.execute, Service.perform. cbv zeta.
    rewrite try_catch_eq, Hact. run.
    rewrite bool_decide_eq_true_2, andb_false_r by done. run. done.
Qed.

(** A [try] whose handler returns a value never throws. *)
Lemma try_catch_total {A} (m : M A) (fallback : A) s :
  ∃ a, (try_catch m (λ _, ret fallback) s).1 = Ok a.
Proof.
  rewrite try_catch_eq. destruct (m s) as [[a|e] s1]; simpl; eauto.
Qed.

(** C3, as amended.  In the router and in the service variant,
    [generateNextStep] answers a reply that is missing, empty or not JSON
    with the default proposal, whose action is SUMMARIZE and which the loop
    accepts as a step.  For the router variant not JSON means that neither
    the text nor what the brace pattern extracts from it parses; for the
    service variant, that the text does not parse once the fence and the
    comments are stripped; a failure to read the page is answered alike.
    In both variants [generateNextStep] never throws, whatever the model
    or the page do. *)
Theorem C3_default_on_malformed `{JsonHost} (W : World) s :
  (match w_chat W (length (calls s)) with
   | Ok (Choice (Some content)) =>
       content = "" ∨
       (JSON_parse content = None ∧
        ∀ object, match_object content = Some object →
                  JSON_parse object = None)
   | _ => True
   end →
   (Router.generateNextStep W s).1 = Ok default_step) ∧
  ((∃ e, w_string W (length (calls s)) = Throw e) ∨
   match w_chat W (S (length (calls s))) with
   | Ok (Choice (Some content)) =>
       content = "" ∨ JSON_parse (Service.clean_content content) = None
   | _ => True
   end →
   (Service.generateNextStep W s).1 = Ok default_step) ∧
  is_str (field "action" default_step) "SUMMARIZE" = true ∧
  truthy default_step = true ∧
  (∀ s0, ∃ step, (Router.generateNextStep W s0).1 = Ok step) ∧
  (∀ s0, ∃ step, (Service.generateNextStep W s0).1 = Ok step).
Proof.
  split; [|split; [|split; [done|split; [done|split]]]].
  - unfold Router.generateNextStep, Router.call.
    rewrite try_catch_eq, bind_await.
    destruct (w_chat W (length (calls s))) as [[|[content|]]|e]; try done.
    intros [->|[Hparse Hobject]]; [done|].
    destruct (String.eqb content ""); [done|].
    unfold Router.parse_content. rewrite Hparse.
    destruct (match_object content) as [object|] eqn:Hmatch; [|done].
    by rewrite (Hobject _ eq_refl).
  - unfold Service.generateNextStep, Service.call.
    rewrite try_catch_eq, bind_await.
    destruct (w_string W (length (calls s))) as [html|e0]; [|done].
    rewrite bind_await. cbn [calls set_calls].
    rewrite length_app, service_arrive_calls. simpl length.
    rewrite Nat.add_1_r.
    destruct (w_chat W (S (length (calls s)))) as [[|[content|]]|e];
      try done.
    intros [[e He]|[->|Hparse]]; [done|done|].
    destruct (String.eqb content ""); [done|].
    by rewrite Hparse.
  - intros s0. apply try_catch_total.
  - intros s0. apply try_catch_total.
Qed.

Lemma router_summarize_executes `{JsonHost} (W : World) s nextStep page reply :
  is_str (field "action" nextStep) "SUMMARIZE" = true →
  w_string W (length (calls s)) = Ok page →
  w_chat W (S (length (calls s))) = Ok (Choice reply) →
  taskCompleted (Router.execute W nextStep s).2 = true.
Proof.
  intros Hact%is_str_eq Hpage Hreply.
  unfold Router.execute, Router.perform. cbv zeta. rewrite Hact. simpl is_str.
  cbv iota. unfold Router.summarizePage, Router.call.
  rewrite try_catch_eq. run. rewrite bind_await, Hpage. run.
  rewrite bind_await. cbn [calls set_calls].
  rewrite length_app, router_arrive_calls. simpl length.
  rewrite Nat.add_1_r, Hreply.
  destruct reply as [summary|]; simpl content_of; run; done.
Qed.

Lemma service_summarize_executes `{JsonHost} (W : World) s nextStep page reply :
  is_str (field "action" nextStep) "SUMMARIZE" = true →
  w_string W (length (calls s)) = Ok page →
  w_chat W (S (length (calls s))) = Ok reply →
  taskCompleted (Service.execute W nextStep s).2 = true.
Proof.
  intros Hact%is_str_eq Hpage Hreply.
  unfold Service.execute, Service.perform. cbv zeta. rewrite Hact. simpl is_str.
  cbv iota. unfold Service.summarizePage, Service.call.
  rewrite try_catch_eq. run. rewrite bind_await, Hpage. run.
  rewrite bind_await. cbn [calls set_calls].
  rewrite length_app, service_arrive_calls. simpl length.
  rewrite Nat.add_1_r, Hreply. run. done.
Qed.

Lemma router_completed_ends `{JsonHost} (W : World) fuel s :
  taskCompleted s = true → Router.while_loop W fuel s = (Ok Done, s).
Proof. intros Hs. destruct fuel; simpl; run; rewrite Hs; done. Qed.

Lemma service_completed_ends `{JsonHost} (W : World) fuel s :
  taskCompleted s = true → Service.while_loop W fuel s = (Ok Done, s).
Proof. intros Hs. destruct fuel; simpl; run; rewrite Hs; done. Qed.

(** C9, as amended.  In the router and in the service variant, when a
    SUMMARIZE proposal passes the guard and the page text and the summary
    are obtained, the pass ends with [taskCompleted] set, whatever happens
    in the rest of the pass, and the loop test that follows ends the loop:
    no further pass is run. *)
Theorem C9_summarize_completes `{JsonHost} (W : World) s nextStep page reply :
  is_str (field "action" nextStep) "SUMMARIZE" = true →
  repeated (actionAttempts s) (actionKey nextStep) = false →
  w_string W (length (calls s)) = Ok page →
  w_chat W (S (length (calls s))) = Ok (Choice reply) →
  let router := (Router.guard_and_act W nextStep s).2 in
  let service := (Service.guard_and_act W nextStep s).2 in
  (taskCompleted router = true ∧
   ∀ fuel, Router.while_loop W fuel router = (Ok Done, router)) ∧
  (taskCompleted service = true ∧
   ∀ fuel, Service.while_loop W fuel service = (Ok Done, service)).
Proof.
  intros Hact Hrep Hpage Hreply. cbv zeta.
  assert (taskCompleted (Router.guard_and_act W nextStep s).2 = true) as Hr.
  { unfold Router.guard_and_act. cbv zeta. run. rewrite Hrep. run.
    apply (bind_post (λ x, taskCompleted x = true)).
    - by apply (router_summarize_executes W _ nextStep page reply).
    - intros [] s1 Hs1.
      assert (preserves (raised taskCompleted)
                (bind (Router.advance W nextStep)
                   (λ _, bind (Router.detect_completion W) (λ _, ret Next))))
        as Hrest by preserves_auto.
      exact (Hrest s1 Hs1). }
  assert (taskCompleted (Service.guard_and_act W nextStep s).2 = true) as Hs.
  { unfold Service.guard_and_act. cbv zeta. run. rewrite Hrep. run.
    apply (bind_post (λ x, taskCompleted x = true)).
    - by apply (service_summarize_executes W _ nextStep page (Choice reply)).
    - intros [] s1 Hs1.
      assert (preserves (raised taskCompleted)
                (bind (Service.advance W nextStep)
                   (λ _, bind (Service.detect_completion W) (λ _, ret Next))))
        as Hrest by preserves_auto.
      exact (Hrest s1 Hs1). }
  split; (split; [done|]); intros fuel.
  - by apply router_completed_ends.
  - by apply service_completed_ends.
Qed.

Lemma service_attempt_closes `{JsonHost} (W : World) fuel url :
  preserves (unchanged closes) (Service.attempt W fuel url).
Proof. unfold Service.attempt, Service.session, Service.call. preserves_auto. Qed.

Lemma router_attempt_closes `{JsonHost} (W : World) fuel url :
  preserves (unchanged closes) (Router.attempt W fuel url).
Proof. unfold Router.attempt. preserves_auto. Qed.

Lemma closes_after_close W handle s :
  (∀ e x, calls (handle e x) = calls x) →
  closes (await W handle w_unit Close s).2 = closes s + 1.
Proof.
  intros Hcalls. rewrite await_eq. unfold closes. cbn [snd calls set_calls].
  rewrite (arrive_unchanged calls W handle Hcalls), filter_app, length_app.
  done.
Qed.

Lemma router_on_event_calls e s : calls (Router.on_event e s) = calls s.
Proof. by injection (router_on_event_kept e s). Qed.

Lemma service_on_event_calls e s : calls (Service.on_event e s) = calls s.
Proof. by injection (service_on_event_kept e s). Qed.

Lemma service_on_event_browser e s : browser (Service.on_event e s) = browser s.
Proof. by injection (service_on_event_kept e s). Qed.

(** C5, as amended.  A run of the service variant closes its browser
    exactly once if it launched one, and not at all otherwise, whatever
    way it ends; a run of the router variant closes it exactly once when
    the launch and the opening of the page succeeded; [executeWebTask]
    never closes its browser. *)
Theorem C5_session_released `{JsonHost} (W : World) fuel url task :
  let service := (Service.runQualityAnalysis W fuel url task initial).2 in
  let router := (Router.runQualityAnalysis W fuel url task initial).2 in
  let social := (Social.executeWebTask W fuel task initial).2 in
  closes service = (if browser service then 1 else 0) ∧
  closes router = match w_unit W 0, w_unit W 1 with
                  | Ok _, Ok _ => 1
                  | _, _ => 0
                  end ∧
  closes social = 0.
Proof.
  cbv zeta. split; [|split].
  - unfold Service.runQualityAnalysis. rewrite try_finally_eq.
    pose proof (service_attempt_closes W fuel url initial) as Hc.
    red in Hc. change (closes initial) with 0 in Hc.
    set (s1 := (Service.attempt W fuel url initial).2) in *.
    unfold Service.cleanup, Service.call. run.
    destruct (browser s1) eqn:Hb.
    + pose proof (closes_after_close W Service.on_event s1
                    service_on_event_calls) as Hclose.
      assert (browser (await W Service.on_event w_unit Close s1).2 = true)
        as Hb'.
      { rewrite await_eq. cbn [snd browser set_calls].
        by rewrite (arrive_unchanged browser W _ service_on_event_browser). }
      destruct (await W Service.on_event w_unit Close s1) as [[[]|e] s2];
        cbn [snd] in *; rewrite Hb', Hclose, Hc; done.
    + run. cbn [snd]. by rewrite Hb, Hc.
  - unfold Router.runQualityAnalysis, Router.call.
    rewrite bind_await. change (length (calls initial)) with 0.
    destruct (w_unit W 0) as [[]|e0]; [|done].
    run. rewrite bind_await.
    change (length (calls _)) with 1.
    destruct (w_unit W 1) as [[]|e1]; [|done].
    run.
    match goal with |- context [try_finally _ _ ?x] => set (s0 := x) end.
    assert (closes s0 = 0) as H0 by done. clearbody s0.
    rewrite try_finally_eq.
    pose proof (router_attempt_closes W fuel url s0) as Hc. red in Hc.
    set (s1 := (Router.attempt W fuel url s0).2) in *.
    pose proof (closes_after_close W Router.on_event s1
                  router_on_event_calls) as Hclose.
    destruct (await W Router.on_event w_unit Close s1) as [[[]|e] s2];
      cbn [snd] in *; rewrite Hclose, Hc, H0; done.
  - exact (social_executeWebTask W (unchanged closes) fuel task initial).
Qed.

(** C4, as amended.  When the body of the outer [try] of the service
    variant throws and closing the browser succeeds, the caller receives an
    object whose transcript is the fixed text An error occurred during the
    analysis, not the transcript so far, and whose error is the message of
    the exception.  The [try]/[catch] of both variants lets no exception
    pass, so that an exception can reach the caller of the service variant
    only from [browser.close()]; the router variant turns an exception of
    its [try] body into the same object. *)
Theorem C4_failure_outcome `{JsonHost} (W : World) fuel url task e s1 :
  Service.session W fuel url initial = (Throw e, s1) →
  (Service.cleanup W s1).1 = Ok tt →
  (Service.runQualityAnalysis W fuel url task initial).1
    = Ok (Some (failure_outcome e)) ∧
  o_result (failure_outcome e) = "An error occurred during the analysis" ∧
  o_error (failure_outcome e) = Some e ∧
  (∀ s e', (Service.attempt W fuel url s).1 ≠ Throw e') ∧
  (∀ s e', (Router.attempt W fuel url s).1 ≠ Throw e') ∧
  (∀ e', (Service.runQualityAnalysis W fuel url task initial).1 = Throw e' →
         (Service.cleanup W (Service.attempt W fuel url initial).2).1
           = Throw e') ∧
  (∀ s s', Router.analysis W fuel url s = (Throw e, s') →
           Router.attempt W fuel url s = (Ok (Some (failure_outcome e)), s')).
Proof.
  intros Hsession Hcleanup.
  assert (Service.attempt W fuel url initial
          = (Ok (Some (failure_outcome e)), s1)) as Hattempt.
  { unfold Service.attempt. by rewrite try_catch_eq, Hsession. }
  split; [|split; [done|split; [done|split; [|split; [|split]]]]].
  - unfold Service.runQualityAnalysis.
    rewrite try_finally_eq, Hattempt. cbn [fst snd].
    destruct (Service.cleanup W s1) as [[[]|e'] s2]; [done|discriminate].
  - intros s e'. unfold Service.attempt. rewrite try_catch_eq.
    by destruct (Service.session W fuel url s) as [[a|e0] s0].
  - intros s e'. unfold Router.attempt. rewrite try_catch_eq.
    by destruct (Router.analysis W fuel url s) as [[a|e0] s0].
  - intros e'. unfold Service.runQualityAnalysis.
    rewrite try_finally_eq, Hattempt. cbn [fst snd].
    destruct (Service.cleanup W s1) as [[[]|e''] s2]; [discriminate|].
    by intros [= ->].
  - intros s s' Ha. unfold Router.attempt. by rewrite try_catch_eq, Ha.
Qed.

(** C6, as amended.  When the first navigation is answered by a response
    that is not ok, the service variant returns at once with the error
    HTTP status and the code, and no pass of the loop is entered; the
    router variant does the same when the code is 400 or more.  (The
    launch, the opening of the page and the closing of the browser are
    taken to succeed.) *)
Theorem C6_http_failure `{JsonHost} (W : World) fuel url task response :
  w_unit W 0 = Ok tt → w_unit W 1 = Ok tt →
  w_response W 2 = Ok (Some response) → w_timer_first W 2 = false →
  w_unit W 3 = Ok tt →
  ok response = false →
  let router := Router.runQualityAnalysis W fuel url task initial in
  let service := Service.runQualityAnalysis W fuel url task initial in
  ((400 ≤ status response)%Z →
   router.1 = Ok (Some
     {| o_result := "Critical error: HTTP status " +:+
                    pretty (status response) +:+ nl;
        o_screenshots := Some [];
        o_error := Some ("HTTP status " +:+ pretty (status response)) |}) ∧
   no_step_taken router.2) ∧
  service.1 = Ok (Some
    {| o_result := "Critical error: HTTP status " +:+ pretty (status response);
       o_screenshots := Some [];
       o_error := Some ("HTTP status " +:+ pretty (status response)) |}) ∧
  no_step_taken service.2.
Proof.
  intros Hlaunch Hpage Hgoto Htimer Hclose Hok. cbv zeta. split.
  - intros Hstatus.
    unfold Router.runQualityAnalysis, Router.call.
    rewrite bind_await. change (length (calls initial)) with 0.
    rewrite Hlaunch. run. rewrite bind_await.
    change (length (calls _)) with 1. rewrite Hpage. run.
    match goal with |- context [try_finally _ _ ?x] => set (s0 := x) end.
    rewrite try_finally_eq. unfold Router.attempt, Router.analysis, Router.call.
    rewrite try_catch_eq, bind_await.
    change (length (calls s0)) with 2. rewrite Hgoto.
    set (s1 := set_calls _ (arrive W Router.on_event s0)).
    assert (calls s1 = calls s0 ++ [Goto (VStr url)]) as Hcalls1.
    { subst s1. cbn [calls set_calls]. by rewrite router_arrive_calls. }
    assert (result s1 = "" ∧ screenshots s1 = [] ∧ taskCompleted s1 = false
            ∧ guard s1 = guard initial) as (Hr1 & Hs1 & Ht1 & Hg1).
    { subst s1.
      change (result (set_calls ?v ?x)) with (result x).
      change (screenshots (set_calls ?v ?x)) with (screenshots x).
      change (taskCompleted (set_calls ?v ?x)) with (taskCompleted x).
      change (guard (set_calls ?v ?x)) with (guard x).
      rewrite router_arrive_result, router_arrive_screenshots,
        router_arrive_taskCompleted, router_arrive_guard. done. }
    unfold Router.check_response. rewrite Hok. cbn [negb]. cbv zeta. run.
    apply Z.leb_le in Hstatus. rewrite Hstatus. run.
    set (s2 := set_result _ s1).
    assert (length (calls s2) = 3) as Hlen.
    { subst s2. cbn [calls set_result]. by rewrite Hcalls1. }
    cbn [fst snd]. rewrite await_eq, Hlen, Hclose. cbn [fst snd].
    split.
    + subst s2. cbn [result screenshots set_result]. by rewrite Hr1, Hs1.
    + unfold no_step_taken.
      change (entered (set_calls ?v ?x)) with (g_entered (guard x)).
      change (executed (set_calls ?v ?x)) with (g_executed (guard x)).
      change (stepCount (set_calls ?v ?x)) with (g_step (guard x)).
      change (taskCompleted (set_calls ?v ?x)) with (taskCompleted x).
      rewrite router_arrive_guard, router_arrive_taskCompleted.
      subst s2.
      change (guard (set_result ?v ?x)) with (guard x).
      change (taskCompleted (set_result ?v ?x)) with (taskCompleted x).
      by rewrite Hg1, Ht1.
  - unfold Service.runQualityAnalysis, Service.attempt, Service.session,
      Service.call.
    rewrite try_finally_eq, try_catch_eq.
    rewrite bind_await. change (length (calls initial)) with 0.
    rewrite Hlaunch. run. rewrite bind_await.
    change (length (calls _)) with 1. rewrite Hpage.
    unfold Service.analysis, Service.call. rewrite bind_eq.
    unfold race_timer. change (length (calls _)) with 2. rewrite Htimer.
    rewrite await_eq. change (length (calls _)) with 2. rewrite Hgoto.
    cbn [from_option]. rewrite Hok. cbn [negb]. run.
    cbn [fst snd]. unfold Service.cleanup, Service.call. run.
    cbn [browser set_calls arrive listening set_browser initial].
    rewrite await_eq. change (length (calls _)) with 3. rewrite Hclose.
    done.
Qed.

(** * Further properties of the code *)

(** ** Texts *)

Lemma append_nil_l (a : string) : "" +:+ a = a.
Proof. reflexivity. Qed.

Lemma append_cons c (a b : string) : String c a +:+ b = String c (a +:+ b).
Proof. reflexivity. Qed.

Lemma append_assoc (a b c : string) : a +:+ (b +:+ c) = (a +:+ b) +:+ c.
Proof.
  induction a as [|x a IH]; [done|]. rewrite !append_cons. congruence.
Qed.

Lemma append_nil_r (a : string) : a +:+ "" = a.
Proof.
  induction a as [|x a IH]; [done|]. rewrite append_cons. congruence.
Qed.

Lemma rev_app_spec s acc : String.rev_app s acc = String.rev s +:+ acc.
Proof.
  unfold String.rev. revert acc.
  induction s as [|c s IH]; intros acc; simpl; [done|].
  rewrite (IH (String c "")), IH.
  by rewrite <-append_assoc.
Qed.

Lemma rev_cons c s : String.rev (String c s) = String.rev s +:+ String c "".
Proof. unfold String.rev at 1. simpl. apply rev_app_spec. Qed.

Lemma rev_append a b : String.rev (a +:+ b) = String.rev b +:+ String.rev a.
Proof.
  induction a as [|c a IH].
  - by rewrite append_nil_l, append_nil_r.
  - by rewrite append_cons, !rev_cons, IH, append_assoc.
Qed.

Lemma rev_involutive s : String.rev (String.rev s) = s.
Proof.
  induction s as [|c s IH]; [done|].
  by rewrite rev_cons, rev_append, IH.
Qed.

Lemma prefix_cons a s1 b s2 :
  String.prefix (String a s1) (String b s2)
  = if ascii_dec a b then String.prefix s1 s2 else false.
Proof. reflexivity. Qed.







Lemma strip_comments_from_cons b c s :
  strip_comments_from b (String c s)
  = if is_line_terminator c then String c (strip_comments_from false s)
    else if b then strip_comments_from true s
    else if String.prefix "//" (String c s) then strip_comments_from true s
    else String c (strip_comments_from false s).
Proof. reflexivity. Qed.

Lemma includes_cons needle c s :
  includes needle (String c s)
  = String.prefix needle (String c s) || includes needle s.
Proof. reflexivity. Qed.

(** What comes out of the comment pattern begins with a slash only if
    what went in did. *)
Lemma strip_comments_head s rest' :
  strip_comments_from false s = String "/" rest' →
  ∃ rest, s = String "/" rest.
Proof.
  destruct s as [|c s]; [done|].
  rewrite strip_comments_from_cons.
  destruct (is_line_terminator c) eqn:Hc.
  - intros Heq. by simplify_eq.
  - destruct (ascii_dec "/" c) as [<-|Hne]; [eauto|].
    rewrite prefix_cons. destruct (ascii_dec "/" c); [done|].
    intros Heq. by simplify_eq.
Qed.

Lemma strip_comments_from_clean b s :
  includes "//" (strip_comments_from b s) = false.
Proof.
  revert b. induction s as [|c s IH]; intros b; [done|].
  rewrite strip_comments_from_cons.
  destruct (is_line_terminator c) eqn:Hc.
  { rewrite includes_cons, IH, orb_false_r, prefix_cons.
    destruct (ascii_dec "/" c) as [<-|]; done. }
  destruct b; [apply IH|].
  destruct (String.prefix "//" (String c s)) eqn:Hp; [apply IH|].
  rewrite includes_cons, IH, orb_false_r, prefix_cons.
  destruct (ascii_dec "/" c) as [<-|]; [|done].
  destruct (strip_comments_from false s) as [|c' out] eqn:Hout; [done|].
  rewrite prefix_cons.
  destruct (ascii_dec "/" c') as [<-|]; [|done].
  apply strip_comments_head in Hout as [rest ->].
  rewrite !prefix_cons in Hp.
  destruct (ascii_dec "/" "/"); [|done].
  by destruct rest.
Qed.


(** X1.  The text the service variant of [generateNextStep] hands to the
    parser, and so does the variant of root.ts, contains no pair of
    slashes, whatever the reply was; a reply that does contain one, such
    as a step with an absolute http url, is therefore never parsed as it
    was sent. *)
Theorem X1_cleaned_has_no_slashes content :
  includes "//" (Service.clean_content content) = false ∧
  (includes "//" content = true → Service.clean_content content ≠ content).
Proof.
  assert (includes "//" (Service.clean_content content) = false) as Hclean
    by apply strip_comments_from_clean.
  split; [done|].
  intros Hcontent Heq. rewrite Heq in Hclean. congruence.
Qed.



Lemma drop_until_append c pre rest :
  has_char c pre = false →
  drop_until c (pre +:+ String c rest) = Some (String c rest).
Proof.
  induction pre as [|x pre IH].
  - intros _. rewrite append_nil_l. simpl. by rewrite Ascii.eqb_refl.
  - rewrite append_cons. simpl. intros [Hx Hpre]%orb_false_iff.
    rewrite Hx. auto.
Qed.

Lemma has_char_rev c s : has_char c (String.rev s) = has_char c s.
Proof.
  assert (∀ a b, has_char c (a +:+ b) = has_char c a || has_char c b)
    as Happ.
  { intros a b. induction a as [|x a IH]; [done|].
    rewrite append_cons. simpl. by rewrite IH, orb_assoc. }
  induction s as [|x s IH]; [done|].
  rewrite rev_cons, Happ, IH. simpl.
  by rewrite orb_false_r, orb_comm.
Qed.

(** The brace pattern finds an object that stands between a text without
    an opening brace and a text without a closing brace. *)
Lemma match_object_wrapped pre mid post :
  has_char "{" pre = false → has_char "}" post = false →
  match_object (pre +:+ "{" +:+ mid +:+ "}" +:+ post)
  = Some ("{" +:+ mid +:+ "}").
Proof.
  intros Hpre Hpost. unfold match_object.
  change (pre +:+ "{" +:+ mid +:+ "}" +:+ post)
    with (pre +:+ String "{" (mid +:+ "}" +:+ post)).
  rewrite drop_until_append by done. simpl.
  assert (String.rev (String "{" (mid +:+ "}" +:+ post))
          = String.rev post +:+ String "}" (String.rev ("{" +:+ mid)))
    as ->.
  { change (String "{" (mid +:+ "}" +:+ post))
      with ("{" +:+ mid +:+ "}" +:+ post).
    rewrite (append_assoc "{" mid), rev_append, rev_append.
    by rewrite <-append_assoc. }
  rewrite drop_until_append by by rewrite has_char_rev.
  simpl. f_equal.
  change (String "}" (String.rev ("{" +:+ mid)))
    with (String.rev "}" +:+ String.rev ("{" +:+ mid)).
  by rewrite <-rev_append, rev_involutive, append_assoc.
Qed.

(** X3.  The router variant of [generateNextStep] tolerates prose around
    the object: when the reply as a whole is not JSON, but is an object
    between a text without an opening brace and a text without a closing
    brace, the step is what that object parses to. *)
Theorem X3_object_in_prose `{JsonHost} (W : World) s pre mid post step :
  w_chat W (length (calls s))
    = Ok (Choice (Some (pre +:+ "{" +:+ mid +:+ "}" +:+ post))) →
  has_char "{" pre = false → has_char "}" post = false →
  JSON_parse (pre +:+ "{" +:+ mid +:+ "}" +:+ post) = None →
  JSON_parse ("{" +:+ mid +:+ "}") = Some step →
  (Router.generateNextStep W s).1 = Ok step.
Proof.
  intros Hreply Hpre Hpost Hwhole Hobject.
  unfold Router.generateNextStep, Router.call.
  rewrite try_catch_eq, bind_await, Hreply.
  destruct (String.eqb _ "") eqn:Hempty.
  { apply String.eqb_eq in Hempty.
    destruct pre; rewrite ?append_cons, ?append_nil_l in Hempty; done. }
  unfold Router.parse_content.
  by rewrite Hwhole, match_object_wrapped, Hobject.
Qed.

(** ** The page observers *)


(** ** The page observers *)

(** X4.  After the observers have handled a list of page events, the
    critical flag is set exactly when it was set before or one of the
    events is a request failure other than an abort whose error text
    names a refused connection or an unresolved name, or, in the service
    variant, a page error whose message mentions React or a missing
    provider.  Console messages never set it. *)
Theorem X4_critical_signals events s :
  (criticalErrorOccurred (deliver Router.on_event events s) = true
   ↔ criticalErrorOccurred s = true ∨ Exists refused events) ∧
  (criticalErrorOccurred (deliver Service.on_event events s) = true
   ↔ criticalErrorOccurred s = true ∨ Exists refused events
     ∨ Exists react_error events).
Proof.
  split; [apply router_deliver_critical|apply service_deliver_critical].
Qed.

(** ** Clicking with retries *)

Section Retry.
Context (W : World) (handle : PageEvent → State → State).
Context (Hcalls : ∀ e s, calls (handle e s) = calls s).

Lemma untouched_refl s : untouched handle s s.
Proof. intros A f _ _. done. Qed.

Lemma untouched_trans s1 s2 s3 :
  untouched handle s1 s2 → untouched handle s2 s3 → untouched handle s1 s3.
Proof. intros H12 H23 A f He Hc. rewrite (H23 A f), (H12 A f); done. Qed.

(** An awaited call appends itself to the log and lets the observers
    run; its answer is the one the world has for its index. *)
Lemma await_spec {A} (answer : World → nat → Res A) c s :
  ∃ s', await W handle answer c s = (answer W (length (calls s)), s') ∧
        calls s' = calls s ++ [c] ∧ untouched handle s s'.
Proof using Hcalls.
  eexists. split; [apply await_eq|]. split.
  - simpl. by rewrite (arrive_unchanged calls W handle Hcalls).
  - intros B f He Hc. rewrite Hc. by apply arrive_unchanged.
Qed.

Lemma sleep_spec ms s :
  ∃ s', sleep W handle ms s = (Ok tt, s') ∧
        calls s' = calls s ++ [Sleep ms] ∧ untouched handle s s'.
Proof using Hcalls.
  destruct (await_spec w_unit (Sleep ms) s) as (s' & Heq & Hs' & Hun).
  exists s'. unfold sleep. by rewrite Heq.
Qed.

Lemma count_app p l1 l2 : count p (l1 ++ l2) = count p l1 + count p l2.
Proof. unfold count. by rewrite filter_app, length_app. Qed.

(** What [clickWithRetry] does with [remaining] passes left. *)
Lemma clickWithRetry_from_spec remaining attempt maxAttempts selector s :
  ∃ b s' l,
    clickWithRetry_from W handle remaining attempt maxAttempts selector s
      = (Ok b, s') ∧
    calls s' = calls s ++ l ∧
    untouched handle s s' ∧
    count is_click l ≤ remaining + 1 ∧
    count is_wait_for_selector l ≤ remaining ∧
    length l ≤ 3 * remaining + 2 ∧
    (b = true ↔
     ∃ earlier, l = earlier ++ [Click selector] ∧
                w_unit W (length (calls s ++ earlier)) = Ok tt).
Proof using Hcalls.
  revert attempt s.
  induction remaining as [|remaining IH]; intros attempt s.
  { exists false, s, []. rewrite app_nil_r.
    split_and!; [done|done|apply untouched_refl|unfold count; simpl; lia..|].
    split; [done|]. intros (earlier & Hl & _). by destruct earlier. }
  cbn [clickWithRetry_from].
  rewrite bind_eq, try_catch_eq, bind_eq.
  destruct (await_spec w_unit (WaitForSelector selector) s)
    as (s1 & -> & Hs1 & Hun1).
  (* the handler, entered with the calls [tried] of this pass *)
  assert (∀ tried sh,
    calls sh = calls s ++ tried → untouched handle s sh →
    count is_click tried ≤ 1 → count is_wait_for_selector tried ≤ 1 →
    length tried ≤ 2 →
    (∀ earlier, tried = earlier ++ [Click selector] →
                w_unit W (length (calls s ++ earlier)) ≠ Ok tt) →
    tried ≠ [] →
    ∃ b s' l,
      bind
        (if attempt =? maxAttempts - 1
         then try_catch
                (await W handle w_unit (Evaluate "scrollIntoView" [selector]);;
                 sleep W handle (VNum 1000);;
                 await W handle w_unit (Click selector);;
                 ret (Some true))
                (λ _, ret (Some false))
         else sleep W handle (VNum 1000);; ret None)
        (λ returned,
           match returned with
           | Some b0 => ret b0
           | None =>
               clickWithRetry_from W handle remaining (S attempt)
                 maxAttempts selector
           end) sh = (Ok b, s') ∧
      calls s' = calls s ++ l ∧
      untouched handle s s' ∧
      count is_click l ≤ S remaining + 1 ∧
      count is_wait_for_selector l ≤ S remaining ∧
      length l ≤ 3 * S remaining + 2 ∧
      (b = true ↔
       ∃ earlier, l = earlier ++ [Click selector] ∧
                  w_unit W (length (calls s ++ earlier)) = Ok tt))
    as Hhandler.
  { intros tried sh Hsh Hunh Hclicks Hwaits Hlen Hfailed Htried.
    rewrite bind_eq.
    destruct (attempt =? maxAttempts - 1).
    - rewrite try_catch_eq, bind_eq.
      destruct (await_spec w_unit (Evaluate "scrollIntoView" [selector]) sh)
        as (s2 & -> & Hs2 & Hun2).
      destruct (w_unit W (length (calls sh))) as [[]|e2].
      + rewrite bind_eq.
        destruct (sleep_spec (VNum 1000) s2) as (s3 & -> & Hs3 & Hun3).
        rewrite bind_eq.
        destruct (await_spec w_unit (Click selector) s3)
          as (s4 & -> & Hs4 & Hun4).
        assert (calls s4 = calls s ++
                  (tried ++ [Evaluate "scrollIntoView" [selector];
                             Sleep (VNum 1000)]) ++ [Click selector])
          as Hcalls4.
        { rewrite Hs4, Hs3, Hs2, Hsh, <-!app_assoc. done. }
        assert (length (calls s3) = length (calls s ++
                  (tried ++ [Evaluate "scrollIntoView" [selector];
                             Sleep (VNum 1000)]))) as Hlen3.
        { rewrite Hs3, Hs2, Hsh, <-!app_assoc. done. }
        assert (untouched handle s s4) as Hun.
        { repeat (eapply untouched_trans; [|eassumption]). done. }
        destruct (w_unit W (length (calls s3))) as [[]|e4] eqn:Hclick.
        * eexists true, s4, _. split; [reflexivity|].
          split; [exact Hcalls4|]. split; [exact Hun|].
          split_and!;
            [rewrite ?count_app, ?length_app; unfold count in *; simpl; lia..|]. split; [|done].
          intros _. eexists. split; [reflexivity|]. by rewrite <-Hlen3.
        * eexists false, s4, _. split; [reflexivity|].
          split; [exact Hcalls4|]. split; [exact Hun|].
          split_and!;
            [rewrite ?count_app, ?length_app; unfold count in *; simpl; lia..|]. split; [done|].
          intros (earlier & Heq & Hok).
          apply app_inj_tail in Heq as [<- _].
          rewrite <-Hlen3 in Hok. congruence.
      + eexists false, s2, (tried ++ [_]). split; [reflexivity|].
        split; [by rewrite Hs2, Hsh, <-app_assoc|].
        split; [by eapply untouched_trans|].
        split_and!;
          [rewrite ?count_app, ?length_app; unfold count in *; simpl; lia..|]. split; [done|].
        intros (earlier & Heq & _). by apply app_inj_tail in Heq as [_ ?].
    - rewrite bind_eq.
      destruct (sleep_spec (VNum 1000) sh) as (s2 & -> & Hs2 & Hun2).
      change (ret (A:=option bool) None s2) with (Ok (@None bool), s2).
      cbv beta iota.
      destruct (IH (S attempt) s2)
        as (b & s' & l & -> & Hs' & Hun' & Hc & Hw & Hl & Hb).
      exists b, s', (tried ++ [Sleep (VNum 1000)] ++ l).
      split; [done|].
      split; [by rewrite Hs', Hs2, Hsh, <-!app_assoc|].
      split; [eauto using untouched_trans|].
      split_and!;
        [rewrite ?count_app, ?length_app; unfold count in *; simpl; lia..|]. split.
      + intros Htrue. apply Hb in Htrue as (earlier & -> & Hok).
        exists (tried ++ [Sleep (VNum 1000)] ++ earlier).
        split; [by rewrite <-!app_assoc|].
        by rewrite Hs2, Hsh, <-!app_assoc in Hok.
      + intros (earlier & Heq & Hok). apply Hb.
        destruct (decide (l = [])) as [->|Hnil].
        { rewrite app_nil_r in Heq.
          by apply app_inj_tail in Heq as [_ ?]. }
        destruct (exists_last Hnil) as (l' & x & ->).
        rewrite !app_assoc in Heq.
        apply app_inj_tail in Heq as [<- ->].
        exists l'. split; [done|].
        by rewrite Hs2, Hsh, <-!app_assoc in *. }
  destruct (w_unit W (length (calls s))) as [[]|e1] eqn:Hwait.
  - rewrite bind_eq.
    destruct (await_spec w_unit (Click selector) s1) as (s2 & -> & Hs2 & Hun2).
    assert (length (calls s1) = length (calls s ++ [WaitForSelector selector]))
      as Hlen1 by by rewrite Hs1.
    destruct (w_unit W (length (calls s1))) as [[]|e2] eqn:Hclick.
    + exists true, s2, [WaitForSelector selector; Click selector].
      split; [done|].
      split; [by rewrite Hs2, Hs1, <-app_assoc|].
      split; [eauto using untouched_trans|].
      split_and!; [unfold count; simpl; lia..|]. split; [|done].
      intros _. exists [WaitForSelector selector]. split; [done|].
      by rewrite <-Hlen1.
    + apply (Hhandler [WaitForSelector selector; Click selector]).
      * by rewrite Hs2, Hs1, <-app_assoc.
      * eauto using untouched_trans.
      * cbv. lia.
      * cbv. lia.
      * simpl. lia.
      * intros earlier Heq.
        change [WaitForSelector selector; Click selector]
          with ([WaitForSelector selector] ++ [Click selector]) in Heq.
        apply app_inj_tail in Heq as [<- _]. rewrite <-Hlen1. congruence.
      * done.
  - apply (Hhandler [WaitForSelector selector]); try done;
      try (unfold count; simpl; lia).
    intros earlier Heq. by destruct earlier as [|? [|]].
Qed.

End Retry.

Lemma since_app s s' l : calls s' = calls s ++ l → since s s' = l.
Proof. unfold since. intros ->. by rewrite drop_app_length. Qed.

(** X5.  [clickWithRetry] never throws.  It waits for the selector at
    most 3 times, clicks at most 4 times and makes at most 11 calls in
    all, and it returns true exactly when the last call it made is a click
    that succeeded. *)
Theorem X5_click_retry W selector s :
  ∃ b s',
    clickWithRetry W Service.on_event selector s = (Ok b, s') ∧
    count is_wait_for_selector (since s s') ≤ 3 ∧
    count is_click (since s s') ≤ 4 ∧
    length (since s s') ≤ 11 ∧
    (b = true ↔
     ∃ earlier, since s s' = earlier ++ [Click selector] ∧
                w_unit W (length (calls s ++ earlier)) = Ok tt).
Proof.
  destruct (clickWithRetry_from_spec W Service.on_event
              service_on_event_calls 3 0 3 selector s)
    as (b & s' & l & Hrun & Hl & _ & Hclicks & Hwaits & Hlen & Hb).
  exists b, s'. rewrite (since_app _ _ _ Hl). by split_and!.
Qed.

Lemma service_click_completed `{JsonHost} (W : World) nextStep s :
  is_str (field "action" nextStep) "CLICK" = true →
  truthy (field "selector" (field "params" nextStep)) = true →
  ∃ s' text,
    Service.execute W nextStep s = (Ok tt, s') ∧
    completedActions s'
      = completedActions s ++
        ["CLICK_" +:+ to_string (field "selector" (field "params" nextStep))]
    ∧ result s' = text +:+ "Step completed successfully" +:+ nl.
Proof.
  intros Haction Hselector.
  unfold Service.execute, Service.perform. cbv zeta.
  apply is_str_eq in Haction. rewrite Haction, Hselector.
  cbn [is_str String.eqb Ascii.eqb Bool.eqb]. cbv beta iota.
  rewrite try_catch_eq, bind_assoc, bind_eq.
  destruct (clickWithRetry_from_spec W Service.on_event
              service_on_event_calls 3 0 3
              (field "selector" (field "params" nextStep)) s)
    as (b & s1 & l & Hrun & _ & Hun & _).
  unfold clickWithRetry. rewrite Hrun.
  assert (completedActions s1 = completedActions s) as Hcompleted.
  { apply Hun; [|done]. intros e s0.
    destruct e as [type text|message|url [errorText|]]; simpl;
      repeat case_match; done. }
  run.
  destruct (_ || _); run; simpl; rewrite Hcompleted; eauto.
Qed.

(** X6.  In the service variant a CLICK step on a selector is always
    recorded as completed and logged as successful, whether or not any of
    its clicks succeeded: the executor does not look at what
    [clickWithRetry] returns. *)
Theorem X6_click_always_completed `{JsonHost} (W : World) nextStep selector s :
  is_str (field "action" nextStep) "CLICK" = true →
  field "selector" (field "params" nextStep) = VStr selector →
  selector ≠ "" →
  ∃ s' text,
    Service.execute W nextStep s = (Ok tt, s') ∧
    completedActions s' = completedActions s ++ ["CLICK_" +:+ selector] ∧
    result s' = text +:+ "Step completed successfully" +:+ nl.
Proof.
  intros Haction Hselector Hne.
  destruct (service_click_completed W nextStep s Haction)
    as (s' & text & Hrun & Hcompleted & Hresult).
  { rewrite Hselector. by destruct selector. }
  rewrite Hselector in Hcompleted. by exists s', text.
Qed.

(** ** Looking for an alternative selector *)

Section Alternatives.
Context (W : World) (handle : PageEvent → State → State).
Context (Hcalls : ∀ e s, calls (handle e s) = calls s).

Lemma first_present_spec selectors s :
  ∃ s', (first_present W handle selectors s).2 = s' ∧
    untouched handle s s' ∧
    match (first_present W handle selectors s).1 with
    | Ok (Some selector) =>
        ∃ before after,
          selectors = before ++ selector :: after ∧
          calls s' = calls s ++ map Query (before ++ [selector]) ∧
          asked_in_vain W s before ∧
          w_bool W (length (calls s) + length before) = Ok true
    | Ok None =>
        calls s' = calls s ++ map Query selectors ∧
        asked_in_vain W s selectors
    | Throw e =>
        ∃ before selector after,
          selectors = before ++ selector :: after ∧
          calls s' = calls s ++ map Query (before ++ [selector]) ∧
          asked_in_vain W s before ∧
          w_bool W (length (calls s) + length before) = Throw e
    end.
Proof using Hcalls.
  revert s. induction selectors as [|selector selectors IH]; intros s.
  { exists s. split; [done|]. split; [apply untouched_refl|].
    simpl. rewrite app_nil_r. split; [done|]. intros i Hi. simpl in Hi. lia. }
  cbn [first_present]. rewrite bind_eq.
  destruct (await_spec W handle Hcalls w_bool (Query selector) s)
    as (s1 & -> & Hs1 & Hun1).
  destruct (w_bool W (length (calls s))) as [[|]|e] eqn:Hanswer.
  - exists s1. split; [done|]. split; [done|]. simpl.
    exists [], selectors. split_and!; [done|done| |by rewrite Nat.add_0_r].
    intros i Hi. simpl in Hi. lia.
  - destruct (IH s1) as (s' & Hs' & Hun' & Hspec).
    exists s'. split; [done|]. split; [eauto using untouched_trans|].
    assert (∀ i, length (calls s1) + i = length (calls s) + S i) as Hindex.
    { intros i. rewrite Hs1, length_app. simpl. lia. }
    assert (∀ before, asked_in_vain W s1 before →
                      asked_in_vain W s (selector :: before)) as Hvain.
    { intros before Hbefore [|i] Hi.
      - by rewrite Nat.add_0_r.
      - rewrite <-Hindex. apply Hbefore. simpl in Hi. lia. }
    destruct (first_present W handle selectors s1).1 as [[found|]|e].
    + destruct Hspec as (before & after & -> & Hcalls' & Hbefore & Hhit).
      exists (selector :: before), after.
      split_and!; [done| |by apply Hvain|].
      * rewrite Hcalls', Hs1, <-app_assoc. done.
      * rewrite <-Hhit, Hindex. done.
    + destruct Hspec as [Hcalls' Hall].
      split; [|by apply Hvain].
      rewrite Hcalls', Hs1, <-app_assoc. done.
    + destruct Hspec
        as (before & failed & after & -> & Hcalls' & Hbefore & Hhit).
      exists (selector :: before), failed, after.
      split_and!; [done| |by apply Hvain|].
      * rewrite Hcalls', Hs1, <-app_assoc. done.
      * rewrite <-Hhit, Hindex. done.
  - exists s1. split; [done|]. split; [done|]. simpl.
    exists [], selector, selectors.
    split_and!; [done|done| |by rewrite Nat.add_0_r].
    intros i Hi. simpl in Hi. lia.
Qed.

End Alternatives.

(** X7.  [findAlternativeSelector] asks the page for its alternatives in
    their order and stops at the first one the page has, which it returns;
    it returns null when it has asked for all ten in vain, and fails with
    the error of the first query that fails.  The selector it is given
    plays no part. *)
Theorem X7_alternative_selector W originalSelector s :
  let run := findAlternativeSelector W Router.on_event originalSelector s in
  length (since s run.2) ≤ 10 ∧
  match run.1 with
  | Ok (Some selector) =>
      ∃ before after,
        alternatives = before ++ selector :: after ∧
        since s run.2 = map Query (before ++ [selector]) ∧
        asked_in_vain W s before ∧
        w_bool W (length (calls s) + length before) = Ok true
  | Ok None =>
      since s run.2 = map Query alternatives ∧
      asked_in_vain W s alternatives
  | Throw e =>
      ∃ before selector after,
        alternatives = before ++ selector :: after ∧
        since s run.2 = map Query (before ++ [selector]) ∧
        asked_in_vain W s before ∧
        w_bool W (length (calls s) + length before) = Throw e
  end.
Proof.
  unfold findAlternativeSelector. cbv zeta.
  destruct (first_present_spec W Router.on_event router_on_event_calls
              alternatives s) as (s' & -> & _ & Hspec).
  destruct (first_present W Router.on_event alternatives s).1
    as [[selector|]|e].
  - destruct Hspec as (before & after & Hsplit & Hcalls & Hrest).
    rewrite (since_app _ _ _ Hcalls). split; [|by eauto 6].
    apply (f_equal length) in Hsplit.
    rewrite length_app in Hsplit. simpl in Hsplit.
    rewrite length_map, length_app. simpl. lia.
  - destruct Hspec as [Hcalls Hrest].
    rewrite (since_app _ _ _ Hcalls). split; [|done].
    by rewrite length_map.
  - destruct Hspec as (before & selector & after & Hsplit & Hcalls & Hrest).
    rewrite (since_app _ _ _ Hcalls). split; [|by eauto 8].
    apply (f_equal length) in Hsplit.
    rewrite length_app in Hsplit. simpl in Hsplit.
    rewrite length_map, length_app. simpl. lia.
Qed.

(** ** The first step of the task executor *)

Section Instructions.
Context `{JsonHost} (W : World).

Lemma quiet_calls (e : PageEvent) (s : State) :
  calls ((λ (_ : PageEvent) (s0 : State), s0) e s) = calls s.
Proof. done. Qed.

Lemma generateInstructions_from_eq remaining :
  Social.generateInstructions_from W (S remaining)
  = (response ← Social.call W w_fetch (Fetch "generateInstructions");
     if negb (f_ok response) then
       throw ("OpenAI API request failed: " +:+ f_statusText response)
     else
       content ← Social.trimmed_content (f_data response);
       match JSON_parse content with
       | Some v => ret v
       | None =>
           if remaining =? 0 then
             throw ("Failed to get a valid JSON response after " +:+
                    "multiple attempts. Please try again.")
           else Social.generateInstructions_from W remaining
       end).
Proof. reflexivity. Qed.

Lemma generateInstructions_from_spec remaining s :
  let run := Social.generateInstructions_from W (S remaining) s in
  let n := length (calls s) in
  ∃ k, 1 ≤ k ≤ S remaining ∧
    calls run.2 = calls s ++ replicate k (Fetch "generateInstructions") ∧
    (∀ i, i < k - 1 → unparsed W (n + i)) ∧
    match run.1 with
    | Ok v => parsed W (n + k - 1) v
    | Throw e =>
        (k = S remaining ∧ unparsed W (n + k - 1) ∧
         e = "Failed to get a valid JSON response after multiple attempts. Please try again.")
        ∨ request_failed W (n + k - 1) e
    end.
Proof.
  cbv zeta. revert s. induction remaining as [|remaining IH]; intros s.
  all: rewrite generateInstructions_from_eq; unfold Social.call.
  all: try set (again := Social.generateInstructions_from W (S remaining))
         in *.
  all: rewrite bind_eq.
  all: destruct (await_spec W (λ _ s0, s0) quiet_calls w_fetch
                   (Fetch "generateInstructions") s) as (s1 & Hawait & Hs1 & _).
  all: rewrite Hawait; clear Hawait.
  all: unfold unparsed, parsed, request_failed, fetched_content.
  all: destruct (w_fetch W (length (calls s))) as [[okay text data]|e]
         eqn:Hanswer.
  all: try destruct okay.
  all: try destruct data as [|[content|]].
  all: try destruct (JSON_parse (trim content)) as [v|] eqn:Hparse.
  all: cbv beta iota;
       cbn [f_ok f_data f_statusText negb Social.trimmed_content Nat.eqb];
       run; rewrite ?Hparse; cbv beta iota.
  all: try (exists 1; split_and!;
            [lia|lia|done|intros i Hi; lia|];
            replace (length (calls s) + 1 - 1) with (length (calls s))
              by lia;
            rewrite Hanswer; simpl;
            first [by eauto | left; by eauto 10]).
  destruct (IH s1) as (k & Hk & Hcalls' & Hbefore & Hlast).
  assert (∀ i, length (calls s1) + i = length (calls s) + S i) as Hindex.
  { intros i. rewrite Hs1, length_app. simpl. lia. }
  exists (S k). split_and!; [lia|lia| | |].
  - rewrite Hcalls', Hs1, <-app_assoc. done.
  - intros [|i] Hi.
    + rewrite Nat.add_0_r, Hanswer. simpl. eauto.
    + rewrite <-Hindex. apply Hbefore. lia.
  - replace (length (calls s) + S k - 1)
      with (length (calls s1) + k - 1) by (rewrite <-Hindex; lia).
    destruct (again s1).1 as [v|e]; [done|].
    destruct Hlast as [(-> & Hunparsed & ->)|Hfailed]; [|by right].
    left. done.
Qed.

End Instructions.

(** X8.  [generateInstructions] sends between one and three requests and
    does nothing else.  Every request before the last was answered by a
    content that is not JSON.  When it returns, it returns what the content
    of the last reply, trimmed, parses to; when it throws, either the last
    request failed, or it was the third and its content is not JSON
    either, and the error is the one about multiple attempts. *)
Theorem X8_first_step_attempts `{JsonHost} (W : World) s :
  let run := Social.generateInstructions W s in
  let n := length (calls s) in
  ∃ k, 1 ≤ k ≤ 3 ∧
    since s run.2 = replicate k (Fetch "generateInstructions") ∧
    (∀ i, i < k - 1 → unparsed W (n + i)) ∧
    match run.1 with
    | Ok v => parsed W (n + k - 1) v
    | Throw e =>
        (k = 3 ∧ unparsed W (n + k - 1) ∧
         e = "Failed to get a valid JSON response after multiple attempts. Please try again.")
        ∨ request_failed W (n + k - 1) e
    end.
Proof.
  cbv zeta. unfold Social.generateInstructions.
  destruct (generateInstructions_from_spec W 2 s)
    as (k & Hk & Hcalls & Hbefore & Hlast).
  exists k. rewrite (since_app _ _ _ Hcalls). destruct Hk. by split_and!.
Qed.

(** ** The step budget of the task executor *)

Lemma arrive_quiet W s : arrive W (λ _ s0, s0) s = s.
Proof.
  unfold arrive, deliver. destruct (listening s); [|done].
  by induction (w_events W (length (calls s))).
Qed.

Section Stray.
Context `{JsonHost} (W : World) (step : Value).
Context (Hstep : stray step) (Hreplies : ∀ i, parsed W i step).

Lemma stray_object : nullish step = false.
Proof.
  destruct Hstep as [(thought & Hthought & _) _]. by destruct step.
Qed.

Lemma stray_generateNextStep s :
  Social.generateNextStep W s
  = (Ok step, set_calls (calls s ++ [Fetch "generateNextStep"]) s).
Proof.
  unfold Social.generateNextStep, Social.call.
  rewrite bind_await, arrive_quiet.
  destruct (Hreplies (length (calls s))) as (content & Hcontent & Hparse).
  unfold fetched_content in Hcontent.
  destruct (w_fetch W (length (calls s))) as [[okay text data]|e]; [|done].
  simpl in *. destruct okay; [|done]. destruct data as [|[c|]]; try done.
  injection Hcontent as ->. simpl. run. by rewrite Hparse.
Qed.

Lemma stray_signals_completion s :
  Social.signals_completion step s = (Ok false, s).
Proof.
  unfold Social.signals_completion, member. rewrite stray_object.
  destruct Hstep as [(thought & -> & Hdone & Hgoal) (action & -> & Hnone & _)].
  run. simpl. run. rewrite Hdone, Hgoal. run.
  by destruct (String.eqb_spec (toLowerCase action) "none").
Qed.

Lemma stray_perform s :
  Social.perform W step s
  = (Ok false,
     set_result (result s +:+ "Unknown action: " +:+
                 to_string (field "action" step) +:+ nl) s).
Proof.
  unfold Social.perform. cbv zeta.
  destruct Hstep as [_ (action & -> & _ & Hunknown)].
  unfold task_actions in Hunknown.
  rewrite !not_elem_of_cons in Hunknown.
  destruct Hunknown as (? & ? & ? & ? & ? & ? & ? & ? & ? & _).
  cbn [is_str].
  repeat match goal with
         | |- context [String.eqb action ?lit] =>
             destruct (String.eqb_spec action lit); [done|]
         end.
  by run.
Qed.

(** A pass on a stray proposal: logged, and not counted. *)
Lemma stray_iteration s :
  ∃ s', Social.iteration W s = (Ok Next, s') ∧
        stepCount s' = stepCount s ∧ taskCompleted s' = taskCompleted s ∧
        entered s' = entered s ++ [stepCount s] ∧
        calls s' = calls s ++ [Fetch "generateNextStep"].
Proof.
  unfold Social.iteration. run.
  rewrite bind_eq, stray_generateNextStep. run.
  rewrite bind_eq, stray_signals_completion. run.
  rewrite bind_eq, try_catch_eq, bind_eq, stray_perform. run.
  eexists. split; [reflexivity|]. done.
Qed.

Lemma stray_while_loop fuel s :
  taskCompleted s = false → stepCount s < Social.maxSteps →
  ∃ s', Social.while_loop W fuel s = (Ok OutOfFuel, s') ∧
        stepCount s' = stepCount s ∧ taskCompleted s' = false ∧
        entered s' = entered s ++ replicate fuel (stepCount s) ∧
        calls s' = calls s ++ replicate fuel (Fetch "generateNextStep").
Proof.
  revert s. induction fuel as [|fuel IH]; intros s Hcompleted Hcount.
  all: cbn [Social.while_loop]; run; rewrite Hcompleted.
  all: destruct (Nat.ltb_spec (stepCount s) Social.maxSteps); [|lia].
  all: cbn [negb andb].
  - exists s. by rewrite !app_nil_r.
  - rewrite bind_eq.
    destruct (stray_iteration s) as (s1 & -> & Hn & Hc & He & Hcs).
    destruct (IH s1) as (s' & -> & Hn' & Hc' & He' & Hcs'); [congruence|lia|].
    exists s'. split; [done|].
    rewrite Hn', Hn, He', Hcs', He, Hcs, Hn, <-!app_assoc. done.
Qed.

End Stray.

(** X9.  In [executeWebTask] a proposal with an action the [switch] does
    not know is logged and not counted: its [continue] skips the increment
    of the step counter.  With a model that keeps sending such a proposal
    the loop makes as many passes as it is given and the counter stays
    where it is, so that the budget of 20 steps never ends the run. *)
Theorem X9_stray_steps_are_free `{JsonHost} (W : World) step task :
  stray step → (∀ i, parsed W i step) →
  (∀ fuel s,
     taskCompleted s = false → stepCount s < Social.maxSteps →
     let loop := Social.while_loop W fuel s in
     loop.1 = Ok OutOfFuel ∧
     stepCount loop.2 = stepCount s ∧
     length (entered loop.2) = length (entered s) + fuel) ∧
  (w_unit W 0 = Ok tt → w_unit W 1 = Ok tt →
   (∃ response, w_response W 3 = Ok response) →
   ∀ fuel,
     let run := Social.executeWebTask W fuel task initial in
     run.1 = Ok None ∧ stepCount run.2 = 0 ∧
     length (entered run.2) = fuel).
Proof.
  intros Hstep Hreplies. split.
  { intros fuel s Hcompleted Hcount. cbv zeta.
    destruct (stray_while_loop W step Hstep Hreplies fuel s Hcompleted Hcount)
      as (s' & -> & Hn & _ & He & _).
    simpl. rewrite He, length_app, length_replicate. done. }
  intros Hlaunch Hpage [response Hgoto] fuel. cbv zeta.
  unfold Social.executeWebTask, Social.call.
  rewrite bind_await, arrive_quiet. change (length (calls initial)) with 0.
  rewrite Hlaunch. run.
  rewrite bind_await, arrive_quiet. change (length (calls _)) with 1.
  rewrite Hpage.
  rewrite bind_eq, try_finally_eq, try_catch_eq.
  unfold Social.task_body, Social.generateInstructions.
  rewrite bind_eq, generateInstructions_from_eq.
  unfold Social.call. rewrite bind_await, arrive_quiet.
  change (length (calls _)) with 2.
  destruct (Hreplies 2) as (content & Hcontent & Hparse).
  unfold fetched_content in Hcontent.
  destruct (w_fetch W 2) as [[okay text data]|e]; [|done].
  simpl in Hcontent. destruct okay; [|done].
  destruct data as [|[c|]]; try done.
  injection Hcontent as ->.
  cbn [f_ok f_data negb Social.trimmed_content]. run. rewrite Hparse. run.
  unfold member. rewrite (stray_object W step Hstep Hreplies). run.
  rewrite bind_await, arrive_quiet. change (length (calls _)) with 3.
  rewrite Hgoto. run.
  rewrite bind_eq.
  match goal with
  | |- context [Social.while_loop W fuel ?s0] =>
      destruct (stray_while_loop W step Hstep Hreplies fuel s0)
        as (s' & -> & Hn & _ & He & _);
        [done|unfold Social.maxSteps; simpl; lia|]
  end.
  run. simpl. rewrite Hn, He, length_app, length_replicate. done.
Qed.

(** ** Errors of the task executor *)

(** X10.  Once the browser is launched and the page is open,
    [executeWebTask] never throws: whatever goes wrong after that ends up
    in the transcript.  In particular, when the first request to the model
    fails, the caller receives the transcript that consists of the error
    and an empty live page url. *)
Theorem X10_task_errors_contained `{JsonHost} (W : World) fuel task :
  w_unit W 0 = Ok tt → w_unit W 1 = Ok tt →
  let run := Social.executeWebTask W fuel task initial in
  (∃ outcome, run.1 = Ok outcome) ∧
  (∀ e, request_failed W 2 e →
        run.1 = Ok (Some {| t_result := "Error: " +:+ e +:+ nl;
                            t_livePageUrl := VStr "" |})).
Proof.
  intros Hlaunch Hpage. cbv zeta.
  unfold Social.executeWebTask, Social.call.
  rewrite bind_await, arrive_quiet. change (length (calls initial)) with 0.
  rewrite Hlaunch. run.
  rewrite bind_await, arrive_quiet. change (length (calls _)) with 1.
  rewrite Hpage.
  rewrite bind_eq, try_finally_eq, try_catch_eq.
  match goal with
  | |- context [Social.task_body W fuel ?s0] => set (opened := s0)
  end.
  split.
  - destruct (Social.task_body W fuel opened) as [[[|]|e] s1]; run; eauto.
  - intros e Hfailed.
    unfold Social.task_body, Social.generateInstructions.
    rewrite bind_eq, generateInstructions_from_eq.
    unfold Social.call. rewrite bind_await, arrive_quiet.
    change (length (calls opened)) with 2.
    unfold request_failed in Hfailed.
    destruct (w_fetch W 2) as [[okay text data]|e'].
    + simpl in Hfailed. cbn [f_ok f_data f_statusText negb].
      destruct okay; cbn [negb].
      * destruct data as [|[c|]]; [|done|]; subst e; by run.
      * subst e. by run.
    + subst e'. by run.
Qed.

(** ** The HTTP route *)


(** X12.  A failure inside the analysis is answered with status 200: when
    the body of the [try] of [runQualityAnalysis] throws and the browser
    closes, the route sends the failure object of the [catch] as a
    success. *)
Theorem X12_route_failure_is_200 `{JsonHost} (W : World) fuel url task e s1 :
  url ≠ "" → task ≠ "" →
  Service.session W fuel url initial = (Throw e, s1) →
  (Service.cleanup W s1).1 = Ok tt →
  (Api.handler W fuel "POST"
     (VObj [("url", VStr url); ("task", VStr task)]) initial).1
  = Ok (Some {| r_status := 200; r_allow := None;
                r_payload := Json (failure_outcome e) |}).
Proof.
  intros Hurl Htask Hsession Hcleanup.
  unfold Api.handler. cbn [String.eqb Ascii.eqb Bool.eqb].
  rewrite try_catch_eq, bind_eq. unfold Api.destructure. cbn [nullish].
  run. cbn [fst snd field assoc String.eqb Ascii.eqb Bool.eqb truthy].
  destruct (String.eqb_spec url ""); [done|].
  destruct (String.eqb_spec task ""); [done|].
  cbn [negb orb to_string]. rewrite bind_eq.
  unfold Service.runQualityAnalysis, Service.attempt.
  rewrite try_finally_eq, try_catch_eq, Hsession. run. cbn [fst snd].
  destruct (Service.cleanup W s1) as [[[]|e'] s2]; [|discriminate].
  by run.
Qed.

(** ** The errors that are summarised *)

Global Instance later_preorder : PreOrder later.
Proof.
  split; unfold later.
  - intros s. done.
  - intros s1 s2 s3 H12 H23. by etransitivity.
Qed.

Global Instance frame_later : LoopFrame later.
Proof.
  split; [split; [apply _|..]|..]; intros; unfold later; simpl;
    try done; by apply prefix_app_r.
Qed.

Lemma later_since c s s1 s' :
  calls s1 = calls s ++ [c] → later s1 s' → c ∈ since s s'.
Proof.
  unfold later, since. intros Hs1 [rest Hs']. rewrite Hs', Hs1.
  rewrite <-app_assoc, drop_app_length. set_solver.
Qed.

Lemma filter_reportable errors :
  (0 <? length (filter reportable errors)) = true
  ↔ Exists reportable errors.
Proof.
  rewrite Nat.ltb_lt. induction errors as [|error errors IH].
  - simpl. rewrite Exists_nil. lia.
  - rewrite filter_cons, Exists_cons.
    destruct (decide (reportable error)); simpl; [|tauto].
    split; [auto|lia].
Qed.

(** X13.  After the loop, the model is asked for a summary of the errors
    exactly when one of the recorded errors is something other than the
    unload violation of the permissions policy; when all of them are that
    violation, or there are none, the only request is the one for the
    summary of the test. *)
Theorem X13_unload_violations_unreported `{JsonHost} (W : World) s :
  (Chat "summarizeErrors" ∈ since s (Router.report W s).2
   ↔ Exists reportable (errors s)) ∧
  (Chat "summarizeErrors" ∈ since s (Service.report W s).2
   ↔ Exists reportable (errors s)) ∧
  (¬ Exists reportable (errors s) →
   since s (Router.report W s).2 = [Chat "summarizeTest"] ∧
   since s (Service.report W s).2 = [Chat "summarizeTest"]).
Proof.
  assert (∀ text, errors (set_result text s) = errors s) as Herrors by done.
  assert (∀ text, calls (set_result text s) = calls s) as Hcalls by done.
  assert (
    (Exists reportable (errors s) →
     Chat "summarizeErrors" ∈ since s (Router.report W s).2 ∧
     Chat "summarizeErrors" ∈ since s (Service.report W s).2) ∧
    (¬ Exists reportable (errors s) →
     since s (Router.report W s).2 = [Chat "summarizeTest"] ∧
     since s (Service.report W s).2 = [Chat "summarizeTest"])) as [Hyes Hno].
  { rewrite <-filter_reportable. unfold reportable.
    unfold Router.report, Service.report. run.
    split.
    - intros Hsome.
      destruct (negb (taskCompleted s)); run; cbn [errors set_result];
        rewrite Hsome.
      all: unfold Router.summarizeErrors, Service.summarizeErrors,
             Router.call, Service.call.
      all: split.
      all: rewrite !bind_assoc, bind_eq, await_eq.
      all: match goal with
           | |- context [set_calls (calls ?a ++ [?c]) ?a] =>
               let asked := fresh "asked" in
               set (asked := set_calls (calls a ++ [c]) a);
               assert (calls asked = calls s ++ [c])
                 by (subst asked; cbn [calls set_calls];
                     rewrite ?router_arrive_calls, ?service_arrive_calls;
                     done);
               apply (later_since c s asked); [done|]
           end.
      all: destruct (w_chat W _) as [reply|e]; [|done].
      all: match goal with
           | |- later ?asked (?m ?asked).2 =>
               assert (preserves later m) as Hrest by preserves_auto;
               apply Hrest
           end.
    - intros Hnone. apply not_true_is_false in Hnone.
      destruct (negb (taskCompleted s)); run; cbn [errors set_result];
        rewrite Hnone; run.
      all: unfold Router.summarizeTest, Service.summarizeTest,
             Router.call, Service.call.
      all: split.
      all: rewrite bind_assoc, bind_await.
      all: match goal with
           | |- context [set_calls (calls ?a ++ [?c]) ?a] =>
               let asked := fresh "asked" in
               set (asked := set_calls (calls a ++ [c]) a);
               assert (calls asked = calls s ++ [c])
                 by (subst asked; cbn [calls set_calls];
                     rewrite ?router_arrive_calls, ?service_arrive_calls;
                     done);
               destruct (w_chat W _) as [[|[c'|]]|e];
               cbn [content_of]; run;
               apply since_app; cbn [snd calls set_result]; assumption
           end. }
  split_and!; [| |done].
  - split; [|by apply Hyes]. intros Hin.
    destruct (decide (Exists reportable (errors s))) as [|Hnone]; [done|].
    destruct (Hno Hnone) as [Heq _]. rewrite Heq in Hin.
    apply list_elem_of_singleton in Hin. discriminate.
  - split; [|by apply Hyes]. intros Hin.
    destruct (decide (Exists reportable (errors s))) as [|Hnone]; [done|].
    destruct (Hno Hnone) as [_ Heq]. rewrite Heq in Hin.
    apply list_elem_of_singleton in Hin. discriminate.
Qed.

(** ** Errors of a step *)

Lemma service_click_total `{JsonHost} (W : World) nextStep s :
  is_str (field "action" nextStep) "CLICK" = true →
  ∃ s', Service.execute W nextStep s = (Ok tt, s').
Proof.
  intros Haction.
  destruct (truthy (field "selector" (field "params" nextStep))) eqn:Hsel.
  { destruct (service_click_completed W nextStep s Haction Hsel)
      as (s' & text & Hrun & _).
    eauto. }
  unfold Service.execute, Service.perform. cbv zeta.
  apply is_str_eq in Haction. rewrite Haction, Hsel.
  cbn [is_str String.eqb Ascii.eqb Bool.eqb]. cbv beta iota.
  rewrite try_catch_eq. run. eauto.
Qed.

(** X14.  An error of a step does not end the run, with two exceptions.
    In the router variant the executor can only throw on a CLICK or a
    TYPE step, where the search for an alternative selector and the
    second try are outside any [try]; in the service variant only on a
    TYPE step, since [clickWithRetry] never throws. *)
Theorem X14_step_errors_contained `{JsonHost} (W : World) nextStep s :
  (is_str (field "action" nextStep) "CLICK" = false →
   is_str (field "action" nextStep) "TYPE" = false →
   ∃ s', Router.execute W nextStep s = (Ok tt, s')) ∧
  (is_str (field "action" nextStep) "TYPE" = false →
   ∃ s', Service.execute W nextStep s = (Ok tt, s')).
Proof.
  split.
  - intros Hclick Htype. unfold Router.execute. rewrite try_catch_eq.
    destruct (bind (Router.perform W nextStep) _ s) as [[[]|e] s1]; [eauto|].
    unfold Router.recover. cbv zeta. rewrite Hclick, Htype. run. eauto.
  - intros Htype.
    destruct (is_str (field "action" nextStep) "CLICK") eqn:Hclick.
    { by apply service_click_total. }
    unfold Service.execute. rewrite try_catch_eq.
    destruct (bind (Service.perform W nextStep) _ s) as [[[]|e] s1]; [eauto|].
    unfold Service.recover. cbv zeta. rewrite Hclick, Htype. run. eauto.
Qed.

(** ** The step budget of the other variants *)

Global Instance frame_tally : Frame (unchanged tally).
Proof. frame_instance. Qed.

Lemma tally_budget budget s s' :
  unchanged tally s s' → budget_respected budget s →
  budget_respected budget s'.
Proof.
  unfold unchanged, tally. intros Hun [? ? ? ?].
  assert (stepCount s' = stepCount s) as Hn by congruence.
  assert (entered s' = entered s) as He by congruence.
  split; rewrite ?He, ?Hn; done.
Qed.

Lemma head_budget budget s :
  entered s = seq 0 (stepCount s) → stepCount s ≤ budget →
  budget_respected budget s.
Proof. intros He Hle. split; rewrite ?He, ?length_seq; (done || lia). Qed.

Lemma pass_budget budget s s1 :
  entered s = seq 0 (stepCount s) → stepCount s < budget →
  entered s1 = entered s ++ [stepCount s] →
  stepCount s ≤ stepCount s1 ≤ stepCount s + 1 →
  budget_respected budget s1.
Proof.
  intros Hhead Hlt He Hn.
  assert (length (entered s1) = stepCount s + 1) as Hlen.
  { rewrite He, Hhead, length_app, length_seq. done. }
  split; rewrite ?Hlen; try lia.
  rewrite He, Hhead, seq_app. done.
Qed.

Section Loops.
Context (budget : nat) (body : M Flow) (loop : nat → M LoopExit).
Context (Hloops : loops budget body loop).
Context (Hpass : ∀ s, counted_pass s (body s).1 (body s).2).

(** A loop whose passes are counted stays within its budget, and ends
    when it is given as many passes as the budget has left. *)
Lemma loop_budget fuel s :
  entered s = seq 0 (stepCount s) → stepCount s ≤ budget →
  budget_respected budget (loop fuel s).2 ∧
  (budget ≤ fuel + stepCount s → (loop fuel s).1 ≠ Ok OutOfFuel).
Proof using All.
  revert s. induction fuel as [|fuel IH]; intros s Hhead Hle.
  all: rewrite Hloops; run.
  all: destruct (negb (taskCompleted s) && (stepCount s <? budget)) eqn:Hc;
         run; [| split; [by apply head_budget|done] ].
  all: apply andb_prop in Hc as [_ Hlt%Nat.ltb_lt].
  - split; [by apply head_budget|]. cbn [fst]. lia.
  - rewrite bind_eq. pose proof (Hpass s) as (He & Hn & Hnext).
    destruct (body s) as [[[| |o]|e] s1]; cbn [fst snd] in *; run.
    + specialize (Hnext eq_refl).
      destruct (IH s1) as [Hb Hfuel].
      { rewrite He, Hhead, Hnext, seq_app. done. }
      { lia. }
      split; [done|]. intros ?. apply Hfuel. lia.
    + split; [|done]. by apply (pass_budget budget s).
    + split; [|done]. by apply (pass_budget budget s).
    + split; [|done]. by apply (pass_budget budget s).
Qed.

End Loops.

Section RootPartFrames.
Context `{JsonHost} (W : World).
Context (R : relation State) `{!Frame R}.

Lemma rootpart_generateNextStep : preserves R (RootPart.generateNextStep W).
Proof.
  unfold RootPart.generateNextStep, RootPart.call. preserves_auto.
Qed.

Lemma rootpart_summarizePage : preserves R (RootPart.summarizePage W).
Proof. unfold RootPart.summarizePage, RootPart.call. preserves_auto. Qed.
#[local] Hint Resolve rootpart_summarizePage : frames.

Lemma rootpart_summarizeTest : preserves R (RootPart.summarizeTest W).
Proof. unfold RootPart.summarizeTest, RootPart.call. preserves_auto. Qed.
#[local] Hint Resolve rootpart_summarizeTest : frames.

Lemma rootpart_checkTaskCompletion :
  preserves R (RootPart.checkTaskCompletion W).
Proof. unfold RootPart.checkTaskCompletion, RootPart.call. preserves_auto. Qed.

Lemma rootpart_perform nextStep : preserves R (RootPart.perform W nextStep).
Proof. unfold RootPart.perform, RootPart.call. preserves_auto. Qed.
#[local] Hint Resolve rootpart_perform : frames.

Lemma rootpart_execute nextStep : preserves R (RootPart.execute W nextStep).
Proof.
  unfold RootPart.execute, RootPart.push_action. preserves_auto.
Qed.

Lemma rootpart_report : preserves R (RootPart.report W).
Proof. unfold RootPart.report. preserves_auto. Qed.

End RootPartFrames.

(** Compares the bookkeeping of two states. *)
Ltac tally_solve := unfold unchanged, tally in *; simpl in *; congruence.

Section RootPartBudget.
Context `{JsonHost} (W : World).

Lemma rootpart_loops :
  loops RootPart.maxSteps (RootPart.iteration W) (RootPart.while_loop W).
Proof. by intros [|fuel]. Qed.

Lemma rootpart_iteration_pass s :
  counted_pass s (RootPart.iteration W s).1 (RootPart.iteration W s).2.
Proof.
  unfold RootPart.iteration, RootPart.call. run.
  match goal with
  | |- context [bind _ _ ?s0] => set (s1 := s0)
  end.
  assert (tally s1 = (stepCount s, entered s ++ [stepCount s])) as T1 by done.
  clearbody s1.
  assert (∀ e x, unchanged tally s1 x → counted_pass s (Throw e) x)
    as Hbefore.
  { intros e x Hx. red in Hx. rewrite T1 in Hx. injection Hx as Hn He.
    split; [done|]. split; [lia|done]. }
  assert (∀ r x y, unchanged tally s1 x →
            unchanged tally (set_stepCount (stepCount x + 1) x) y →
            counted_pass s r y) as Hafter.
  { intros r x y Hx Hy. red in Hx, Hy. rewrite T1 in Hx.
    injection Hx as Hn He. unfold tally in Hy. simpl in Hy.
    injection Hy as Hn' He'.
    split; [congruence|]. split; [lia|]. intros _. lia. }
  run_framed (preserves_await (unchanged tally) W (λ _ x, x)
                ltac:(done) w_string (Evaluate "innerText" [])
                ltac:(done)).
  2: { by apply Hbefore. }
  cbv beta iota.
  run_framed (rootpart_generateNextStep W (unchanged tally)).
  2: { apply Hbefore. by etransitivity. }
  cbv beta iota. run.
  run_framed (rootpart_execute W (unchanged tally) a0).
  2: { apply Hbefore. tally_solve. }
  cbv beta iota.
  run_framed (preserves_page_url (unchanged tally) W).
  2: { apply Hbefore. tally_solve. }
  cbv beta iota. unfold member.
  destruct (nullish a0).
  { run. apply Hbefore. tally_solve. }
  run.
  match goal with
  | |- counted_pass s (?m ?x).1 _ =>
      assert (preserves (unchanged tally) m) as Htail
        by (pose proof (rootpart_checkTaskCompletion W (unchanged tally));
            preserves_auto);
      pose proof (Htail x) as Hx
  end.
  eapply Hafter; [|exact Hx]. tally_solve.
Qed.

Lemma rootpart_run_budget fuel url task :
  let run := RootPart.runQualityAnalysis W fuel url task initial in
  budget_respected RootPart.maxSteps run.2 ∧
  (RootPart.maxSteps ≤ fuel → run.1 ≠ Ok None).
Proof.
  cbv zeta. unfold RootPart.runQualityAnalysis. rewrite try_finally_eq.
  set (body := try_catch _ _ initial).
  assert (budget_respected RootPart.maxSteps body.2 ∧
          (RootPart.maxSteps ≤ fuel → body.1 ≠ Ok None)) as [Hbudget Hfuel].
  { subst body. rewrite try_catch_eq. unfold RootPart.call.
    assert (∀ x, unchanged tally initial x →
                 budget_respected RootPart.maxSteps x) as Hstart.
    { intros x Hx. apply (tally_budget _ initial); [done|].
      by apply head_budget; [|simpl; lia]. }
    run_framed (preserves_await (unchanged tally) W (λ _ x, x)
                  ltac:(done) w_unit Launch ltac:(done)).
    2: { run. split; [by apply Hstart|done]. }
    cbv beta iota. run.
    run_framed (preserves_await (unchanged tally) W (λ _ x, x)
                  ltac:(done) w_unit NewPage ltac:(done)).
    2: { run. split; [apply Hstart; tally_solve|done]. }
    cbv beta iota. run.
    run_framed (preserves_await (unchanged tally) W (λ _ x, x)
                  ltac:(done) w_response (Goto (VStr url)) ltac:(done)).
    2: { run. split; [apply Hstart; tally_solve|done]. }
    cbv beta iota. rewrite bind_eq.
    match goal with
    | |- context [RootPart.while_loop W fuel ?x] =>
        assert (tally x = (0, [])) as Hx by tally_solve;
        injection Hx as Hn He;
        destruct (loop_budget RootPart.maxSteps (RootPart.iteration W)
                    (RootPart.while_loop W) rootpart_loops
                    rootpart_iteration_pass fuel x) as [Hb Hf];
          [by rewrite He, Hn|rewrite Hn; lia|]
    end.
    match type of Hb with
    | budget_respected _ (?m ?x).2 =>
        destruct (m x) as [[[| |o]|e] s'] eqn:Hloop
    end; cbn [fst snd] in *; run.
    - split; [done|]. intros ?. exfalso. apply Hf; [rewrite Hn; lia|done].
    - rewrite bind_eq.
      pose proof (rootpart_report W (unchanged tally) s') as Hr.
      destruct (RootPart.report W s') as [[o|e] s''];
        cbn [snd] in Hr; run;
        (split; [by apply (tally_budget _ s')|done]).
    - split; done.
    - split; done. }
  set (s1 := body.2) in *.
  assert (preserves (unchanged tally)
            (launched ← gets browser;
             if launched then RootPart.call W w_unit Close else ret tt))
    as Hcleanup.
  { unfold RootPart.call. apply preserves_bind; [apply _|preserves_auto|].
    intros [|]; [|preserves_auto].
    apply (preserves_close (unchanged tally)); done. }
  specialize (Hcleanup s1).
  match type of Hcleanup with
  | unchanged tally _ (?m ?x).2 => destruct (m x) as [[[]|e] s2]
  end; cbn [fst snd] in *.
  - split; [by apply (tally_budget _ s1)|done].
  - split; [by apply (tally_budget _ s1)|done].
Qed.

End RootPartBudget.

Section LegacyFrames.
Context `{JsonHost} (W : World).
Context (R : relation State) `{!Frame R}.

Lemma legacy_add_completed entry : preserves R (Legacy.add_completed entry).
Proof.
  intros s. unfold Legacy.add_completed, modify. simpl.
  destruct (bool_decide _); [reflexivity|apply frame_completedActions].
Qed.
#[local] Hint Resolve legacy_add_completed : frames.

Lemma legacy_generateNextStep : preserves R (Legacy.generateNextStep W).
Proof.
  unfold Legacy.generateNextStep, Legacy.call, Legacy.on_event.
  preserves_auto.
Qed.

Lemma legacy_selector_mentions_search params :
  preserves R (Legacy.selector_mentions_search params).
Proof. unfold Legacy.selector_mentions_search. preserves_auto. Qed.
#[local] Hint Resolve legacy_selector_mentions_search : frames.

Lemma legacy_already_performed nextStep :
  preserves R (Legacy.already_performed nextStep).
Proof. unfold Legacy.already_performed. preserves_auto. Qed.

Lemma legacy_perform nextStep : preserves R (Legacy.perform W nextStep).
Proof.
  unfold Legacy.perform, Legacy.call, Legacy.on_event. preserves_auto.
Qed.
#[local] Hint Resolve legacy_perform : frames.

Lemma legacy_execute nextStep : preserves R (Legacy.execute W nextStep).
Proof. unfold Legacy.execute. preserves_auto. Qed.

Lemma legacy_summarizeErrors l : preserves R (Legacy.summarizeErrors W l).
Proof.
  unfold Legacy.summarizeErrors, Legacy.call, Legacy.on_event.
  preserves_auto.
Qed.
#[local] Hint Resolve legacy_summarizeErrors : frames.

Lemma legacy_report : preserves R (Legacy.report W).
Proof. unfold Legacy.report. preserves_auto. Qed.

End LegacyFrames.

Section LegacyBudget.
Context `{JsonHost} (W : World).

Lemma legacy_loops :
  loops Legacy.maxSteps (Legacy.iteration W) (Legacy.while_loop W).
Proof. by intros [|fuel]. Qed.

Lemma legacy_iteration_pass s :
  counted_pass s (Legacy.iteration W s).1 (Legacy.iteration W s).2.
Proof.
  unfold Legacy.iteration. run.
  match goal with
  | |- context [criticalErrorOccurred ?s0] => set (s1 := s0)
  end.
  assert (tally s1 = (stepCount s, entered s ++ [stepCount s])) as T1 by done.
  clearbody s1.
  assert (∀ r x, r ≠ Ok Next → unchanged tally s1 x → counted_pass s r x)
    as Hbefore.
  { intros r x Hr Hx. red in Hx. rewrite T1 in Hx. injection Hx as Hn He.
    split; [done|]. split; [lia|done]. }
  assert (∀ r x y, unchanged tally s1 x →
            unchanged tally (set_stepCount (stepCount x + 1) x) y →
            counted_pass s r y) as Hafter.
  { intros r x y Hx Hy. red in Hx, Hy. rewrite T1 in Hx.
    injection Hx as Hn He. unfold tally in Hy. simpl in Hy.
    injection Hy as Hn' He'.
    split; [congruence|]. split; [lia|]. intros _. lia. }
  destruct (criticalErrorOccurred s1).
  { run. apply Hbefore; [done|tally_solve]. }
  run_framed (legacy_generateNextStep W (unchanged tally)).
  2: { apply Hbefore; [done|tally_solve]. }
  cbv beta iota. run.
  destruct (negb (truthy a)).
  { run. apply Hbefore; [done|tally_solve]. }
  run.
  run_framed (legacy_already_performed (unchanged tally) a).
  2: { apply Hbefore; [done|tally_solve]. }
  cbv beta iota.
  destruct a0 as [text|].
  { run. eapply Hafter; [|reflexivity]. tally_solve. }
  run.
  run_framed (legacy_execute W (unchanged tally) a).
  2: { apply Hbefore; [done|tally_solve]. }
  cbv beta iota.
  run_framed (preserves_page_url (unchanged tally) W).
  2: { apply Hbefore; [done|tally_solve]. }
  cbv beta iota. run.
  match goal with
  | |- counted_pass s (?m ?x).1 _ =>
      assert (preserves (unchanged tally) m) as Htail
        by (unfold Legacy.detect_completion; preserves_auto);
      pose proof (Htail x) as Hx
  end.
  eapply Hafter; [|exact Hx]. tally_solve.
Qed.

Lemma legacy_run_budget fuel url task :
  let run := Legacy.runQualityAnalysis W fuel url task initial in
  budget_respected Legacy.maxSteps run.2 ∧
  (Legacy.maxSteps ≤ fuel → run.1 ≠ Ok None).
Proof.
  cbv zeta. unfold Legacy.runQualityAnalysis, Legacy.call, Legacy.on_event.
  assert (∀ x, unchanged tally initial x →
               budget_respected Legacy.maxSteps x) as Hstart.
  { intros x Hx. apply (tally_budget _ initial); [done|].
    by apply head_budget; [|simpl; lia]. }
  run_framed (preserves_await (unchanged tally) W Router.on_event
                (router_on_event _) w_unit Launch ltac:(done)).
  2: { split; [by apply Hstart|done]. }
  cbv beta iota. run.
  run_framed (preserves_await (unchanged tally) W Router.on_event
                (router_on_event _) w_unit NewPage ltac:(done)).
  2: { split; [apply Hstart; tally_solve|done]. }
  cbv beta iota. run.
  rewrite try_finally_eq.
  match goal with
  | |- context [try_catch _ _ ?x] => set (opened := x)
  end.
  assert (tally opened = (0, [])) as Hopened by tally_solve.
  clearbody opened.
  set (body := try_catch _ _ opened).
  assert (budget_respected Legacy.maxSteps body.2 ∧
          (Legacy.maxSteps ≤ fuel → body.1 ≠ Ok None)) as [Hbudget Hfuel].
  { subst body. rewrite try_catch_eq.
    run_framed (preserves_await (unchanged tally) W Router.on_event
                  (router_on_event _) w_response (Goto (VStr url))
                  ltac:(done)).
    2: { run. split; [apply Hstart; tally_solve|done]. }
    cbv beta iota. rewrite bind_eq.
    match goal with
    | |- context [Legacy.while_loop W fuel ?x] =>
        assert (tally x = (0, [])) as Hx by tally_solve;
        injection Hx as Hn He;
        destruct (loop_budget Legacy.maxSteps (Legacy.iteration W)
                    (Legacy.while_loop W) legacy_loops
                    legacy_iteration_pass fuel x) as [Hb Hf];
          [by rewrite He, Hn|rewrite Hn; lia|]
    end.
    match type of Hb with
    | budget_respected _ (?m ?x).2 =>
        destruct (m x) as [[[| |o]|e] s'] eqn:Hloop
    end; cbn [fst snd] in *; run.
    - split; [done|]. intros ?. exfalso. apply Hf; [rewrite Hn; lia|done].
    - rewrite bind_eq.
      pose proof (legacy_report W (unchanged tally) s') as Hr.
      destruct (Legacy.report W s') as [[o|e] s''];
        cbn [snd] in Hr; run;
        (split; [by apply (tally_budget _ s')|done]).
    - split; done.
    - split; done. }
  set (s1 := body.2) in *.
  pose proof (preserves_close (unchanged tally) W Router.on_event
                (router_on_event _) ltac:(done) s1) as Hcleanup.
  destruct (await W Router.on_event w_unit Close s1) as [[[]|e] s2];
    cbn [fst snd] in *.
  - split; [by apply (tally_budget _ s1)|done].
  - split; [by apply (tally_budget _ s1)|done].
Qed.

End LegacyBudget.

(** X15.  The other two variants of [runQualityAnalysis], the one of
    root.ts with 15 steps and the first one of part_001 with 10, keep to
    their step budget too: the step counter was 0 when the first pass was
    entered and one higher at each later entry, there were no more passes
    than the budget allows, and that many passes always suffice for the
    run to end. *)
Theorem X15_other_step_budgets `{JsonHost} (W : World) fuel extra url task :
  budget_respected RootPart.maxSteps
    (RootPart.runQualityAnalysis W fuel url task initial).2 ∧
  (RootPart.runQualityAnalysis W (RootPart.maxSteps + extra) url task
     initial).1 ≠ Ok None ∧
  budget_respected Legacy.maxSteps
    (Legacy.runQualityAnalysis W fuel url task initial).2 ∧
  (Legacy.runQualityAnalysis W (Legacy.maxSteps + extra) url task
     initial).1 ≠ Ok None.
Proof.
  split_and!.
  - apply rootpart_run_budget.
  - apply rootpart_run_budget. lia.
  - apply legacy_run_budget.
  - apply legacy_run_budget. lia.
Qed.

(** ** The first navigation of the service variant *)

(** X16.  In the service variant, with the browser launched and closed
    without error: when the timer of the first navigation fires before the
    page has loaded, the run ends at once with the error Page load timed
    out; when the navigation resolves to no response at all, it ends at
    once with the error HTTP status undefined.  In both cases no pass of
    the loop is entered and the browser is closed once. *)
Theorem X16_first_navigation_edges `{JsonHost} (W : World) fuel url task :
  w_unit W 0 = Ok tt → w_unit W 1 = Ok tt → w_unit W 3 = Ok tt →
  let run := Service.runQualityAnalysis W fuel url task initial in
  (w_timer_first W 2 = true →
   run.1 = Ok (Some {| o_result := "Navigation failed due to timeout";
                       o_screenshots := Some [];
                       o_error := Some "Page load timed out" |}) ∧
   no_step_taken run.2 ∧ closes run.2 = 1) ∧
  (w_timer_first W 2 = false → w_response W 2 = Ok None →
   run.1 = Ok (Some {| o_result := "Critical error: HTTP status undefined";
                       o_screenshots := Some [];
                       o_error := Some "HTTP status undefined" |}) ∧
   no_step_taken run.2 ∧ closes run.2 = 1).
Proof.
  intros Hlaunch Hpage Hclose. cbv zeta.
  unfold Service.runQualityAnalysis, Service.attempt, Service.session,
    Service.call.
  rewrite try_finally_eq, try_catch_eq.
  rewrite bind_await. change (length (calls initial)) with 0.
  rewrite Hlaunch. run. rewrite bind_await.
  change (length (calls _)) with 1. rewrite Hpage.
  unfold Service.analysis, Service.call. rewrite bind_eq.
  unfold race_timer. change (length (calls _)) with 2.
  split.
  - intros Htimer. rewrite Htimer. run.
    cbn [fst snd]. unfold Service.cleanup, Service.call. run.
    rewrite await_eq.
    cbn [browser set_calls arrive listening set_browser initial snd].
    rewrite await_eq. change (length (calls _)) with 3. rewrite Hclose.
    done.
  - intros Htimer Hgoto. rewrite Htimer.
    rewrite await_eq. change (length (calls _)) with 2. rewrite Hgoto.
    cbn [from_option negb]. run.
    cbn [fst snd]. unfold Service.cleanup, Service.call. run.
    cbn [browser set_calls arrive listening set_browser initial].
    rewrite await_eq. change (length (calls _)) with 3. rewrite Hclose.
    done.
Qed.

(** ** What a run can return *)

Lemma returns_bind {A B} (P : B → Prop) (m : M A) (k : A → M B) :
  (∀ a, returns P (k a)) → returns P (bind m k).
Proof.
  intros Hk s b. unfold bind. destruct (m s) as [[a|e] s1]; [|done].
  apply Hk.
Qed.

Lemma returns_ret {A} (P : A → Prop) (a : A) : P a → returns P (ret a).
Proof. intros Ha s b [= <-]. done. Qed.

Lemma returns_throw {A} (P : A → Prop) e : returns P (throw e).
Proof. intros s b. done. Qed.

(** Proves [returns P m] from the values at the ends of [m]. *)
Ltac returns_auto :=
  repeat first
    [ assumption
    | apply returns_bind; intros ?
    | apply returns_throw
    | apply returns_ret
    | lazymatch goal with
      | |- returns _ (if ?b then _ else _) => destruct b
      | |- returns _ (match ?x with _ => _ end) => destruct x
      end ].

Section ServiceReturns.
Context `{JsonHost} (W : World).

Lemma service_iteration_returns :
  returns critical_return (Service.iteration W).
Proof.
  unfold Service.iteration, Service.guard_and_act. cbv zeta.
  returns_auto; intros ? Hflow; by simplify_eq.
Qed.

Lemma service_while_loop_returns fuel :
  returns (λ exit, ∀ o, exit = Returned o →
                        o_error o = Some "Critical error")
    (Service.while_loop W fuel).
Proof.
  induction fuel as [|fuel IH]; cbn [Service.while_loop].
  - returns_auto; intros o [=].
  - apply returns_bind. intros s.
    destruct (negb (taskCompleted s) && (stepCount s <? Service.maxSteps));
      [|returns_auto; intros o [=]].
    intros s0 exit. rewrite bind_eq.
    pose proof (service_iteration_returns s0) as Hflow.
    destruct (Service.iteration W s0) as [[[| |o]|e] s1]; cbn [fst] in Hflow;
      run; try done.
    + apply IH.
    + intros [= <-] o' [=].
    + intros [= <-] o' [= <-]. by apply (Hflow _ eq_refl).
Qed.

Lemma service_report_returns :
  returns (λ o, o_error o = None) (Service.report W).
Proof. unfold Service.report. returns_auto. done. Qed.

End ServiceReturns.

(** X17.  No run of the service variant returns the outcome with the
    error Page error occurred: the flag it depends on is set by an
    observer that is registered only after the first navigation, and it
    is tested before any further call, so that it is still unset. *)
Theorem X17_page_error_outcome_unreachable `{JsonHost} (W : World)
    fuel url task transcript shots :
  (Service.runQualityAnalysis W fuel url task initial).1
  ≠ Ok (Some {| o_result := transcript; o_screenshots := Some shots;
                o_error := Some "Page error occurred" |}).
Proof.
  unfold Service.runQualityAnalysis. rewrite try_finally_eq.
  destruct (Service.cleanup W _) as [[[]|e] s']; [|done]. cbn [fst].
  unfold Service.attempt, Service.session, Service.call.
  rewrite try_catch_eq, bind_await. change (length (calls initial)) with 0.
  destruct (w_unit W 0) as [[]|e0]; [|done].
  run. rewrite bind_await. change (length (calls _)) with 1.
  destruct (w_unit W 1) as [[]|e1]; [|done].
  unfold Service.analysis, Service.call. rewrite bind_eq.
  unfold race_timer. change (length (calls _)) with 2.
  destruct (w_timer_first W 2); [done|].
  rewrite await_eq. change (length (calls _)) with 2.
  destruct (w_response W 2) as [response|e2]; [|done].
  destruct (negb (from_option ok false response)).
  { run. cbn [fst]. by intros [=]. }
  run. cbn [pageErrorOccurred set_listening set_currentState set_calls arrive
            listening set_browser initial].
  rewrite bind_eq.
  match goal with
  | |- context [Service.while_loop W fuel ?x] =>
      pose proof (service_while_loop_returns W fuel x) as Hloop;
      destruct (Service.while_loop W fuel x) as [[[| |o]|e] s1]
  end; cbn [fst] in Hloop; run; cbn [fst]; try done.
  - rewrite bind_eq.
    pose proof (service_report_returns W s1) as Hreport.
    destruct (Service.report W s1) as [[o|e] s2]; cbn [fst] in Hreport; run;
      cbn [fst]; [|done].
    intros [= ->]. by specialize (Hreport _ eq_refl).
  - intros [= ->]. by specialize (Hloop _ eq_refl _ eq_refl).
Qed.

(** ** The completion check *)


Lemma returns_bind_post {A B} (Q : A → Prop) (P : B → Prop)
    (m : M A) (k : A → M B) :
  returns Q m → (∀ a, Q a → returns P (k a)) → returns P (bind m k).
Proof.
  intros Hm Hk s b. unfold bind. specialize (Hm s).
  destruct (m s) as [[a|e] s1]; [|done].
  apply Hk. by apply Hm.
Qed.

Lemma returns_try_catch {A} (P : A → Prop) (m : M A) h :
  returns P m → (∀ e, returns P (h e)) → returns P (try_catch m h).
Proof.
  intros Hm Hh s a. unfold try_catch. specialize (Hm s).
  destruct (m s) as [[a'|e] s1]; [apply Hm|apply Hh].
Qed.

Lemma returns_try_finally {A} (P : A → Prop) (m : M A) c :
  returns P m → returns P (try_finally m c).
Proof.
  intros Hm s a. unfold try_finally.
  destruct (c (m s).2) as [[[]|e] s1]; [apply Hm|done].
Qed.

Section LegacyReturns.
Context `{JsonHost} (W : World).

Lemma legacy_iteration_returns :
  returns (λ flow, ∀ o, flow ≠ Return o) (Legacy.iteration W).
Proof. unfold Legacy.iteration. returns_auto; done. Qed.

Lemma legacy_while_loop_returns fuel :
  returns (λ exit, ∀ o, exit ≠ Returned o) (Legacy.while_loop W fuel).
Proof.
  induction fuel as [|fuel IH]; cbn [Legacy.while_loop].
  - returns_auto; done.
  - apply returns_bind. intros s.
    destruct (negb (taskCompleted s) && (stepCount s <? Legacy.maxSteps));
      [|returns_auto; done].
    eapply returns_bind_post; [apply legacy_iteration_returns|].
    intros [| |o] Hflow; [done|returns_auto; done|].
    by destruct (Hflow o).
Qed.

Lemma legacy_report_returns :
  returns (λ o, o_error o = None) (Legacy.report W).
Proof. unfold Legacy.report. returns_auto. done. Qed.

(** A pass that finds the critical flag set leaves the loop by its
    [break]. *)
Lemma legacy_critical_break fuel s :
  criticalErrorOccurred s = true → taskCompleted s = false →
  stepCount s < Legacy.maxSteps →
  Legacy.while_loop W (S fuel) s = (Ok Done, stopping s).
Proof.
  intros Hcritical Hcompleted Hcount. cbn [Legacy.while_loop]. run.
  rewrite Hcompleted. destruct (Nat.ltb_spec (stepCount s) Legacy.maxSteps);
    [|lia].
  cbn [negb andb]. unfold Legacy.iteration. run.
  cbn [criticalErrorOccurred set_entered]. rewrite Hcritical. by run.
Qed.

End LegacyReturns.

(** X19.  The first variant of part_001 leaves its loop by [break] when
    the critical flag is set, and goes on to the report: a run of it never
    returns an outcome with the error Critical error.  What it returns
    either has no error at all or is the failure object of its [catch]. *)
Theorem X19_critical_error_unreported `{JsonHost} (W : World) fuel url task :
  (∀ s, criticalErrorOccurred s = true → taskCompleted s = false →
        stepCount s < Legacy.maxSteps →
        Legacy.while_loop W (S fuel) s = (Ok Done, stopping s)) ∧
  (∀ o, (Legacy.runQualityAnalysis W fuel url task initial).1 = Ok (Some o) →
        o_error o = None ∨ ∃ e, o = failure_outcome e).
Proof.
  split; [intros s; apply legacy_critical_break|].
  intros o Hrun.
  assert (returns (λ r, ∀ o, r = Some o →
                        o_error o = None ∨ ∃ e, o = failure_outcome e)
            (Legacy.runQualityAnalysis W fuel url task)) as Hreturns.
  { unfold Legacy.runQualityAnalysis.
    do 5 (apply returns_bind; intros ?).
    apply returns_try_finally, returns_try_catch.
    - apply returns_bind. intros _.
      eapply returns_bind_post; [apply legacy_while_loop_returns|].
      intros [| |o'] Hexit.
      + returns_auto. done.
      + eapply returns_bind_post; [apply legacy_report_returns|].
        intros o' Ho'. returns_auto. intros ? [= <-]. by left.
      + by destruct (Hexit o').
    - intros e. returns_auto. intros ? [= <-]. right. by exists e. }
  exact (Hreturns initial _ Hrun o eq_refl).
Qed.

(** ** Announced completion *)


(** ** The cap on ordinary signatures *)

(** X21.  In every run of [runQualityAnalysis], in the router and in the
    service variant, and after any number of passes: no attempt count
    exceeds 3; a signature that is no name of [Object.prototype] was
    handed to the executor exactly as often as its count says, hence at
    most 3 times, so that a fourth identical proposal is never executed;
    every proposal the guard skipped stands at a count of 3; and a
    signature that is a name of [Object.prototype] has no count and is
    never skipped. *)
Theorem X21_ordinary_signatures_capped `{JsonHost} (W : World) fuel url task :
  let router := (Router.runQualityAnalysis W fuel url task initial).2 in
  let service := (Service.runQualityAnalysis W fuel url task initial).2 in
  (counted (guard router) ∧
   ∀ key, if inherited key then key ∉ skipped router
          else times key (executed router) ≤ 3) ∧
  (counted (guard service) ∧
   ∀ key, if inherited key then key ∉ skipped service
          else times key (executed service) ≤ 3).
Proof.
  assert (∀ s key, counted (guard s) →
            if inherited key then key ∉ skipped s
            else times key (executed s) ≤ 3) as Hkey.
  { intros s key Hc. destruct (inherited key) eqn:Hin.
    - intros Hskipped. destruct Hc as [_ _ Hown Hskip].
      rewrite Forall_forall in Hskip. specialize (Hskip _ Hskipped).
      rewrite (Hown _ Hin) in Hskip. done.
    - by apply (counted_times (guard s)). }
  cbv zeta.
  destruct (Router.runQualityAnalysis W fuel url task initial)
    as [r1 s1] eqn:E1.
  destruct (Service.runQualityAnalysis W fuel url task initial)
    as [r2 s2] eqn:E2.
  apply router_run_within in E1 as [[Hc1 _ _ _ _] _].
  apply service_run_within in E2 as [[Hc2 _ _ _ _] _].
  simpl. split; (split; [done|]); intros key; by apply Hkey.
Qed.

(** ** Where the critical flag is read *)

Section CriticalFlag.
Context `{JsonHost} (W : World).

(** A signal that arrives while a call is pending has set the flag when
    the call is answered. *)
Lemma router_call_critical {A} (answer : World → nat → Res A) c s :
  listening s = true →
  Exists refused (w_events W (length (calls s))) →
  criticalErrorOccurred (Router.call W answer c s).2 = true.
Proof.
  intros Hlistening Hevents. unfold Router.call. rewrite await_eq.
  cbn [snd criticalErrorOccurred set_calls]. unfold arrive.
  rewrite Hlistening. apply router_deliver_critical. by right.
Qed.

Lemma service_call_critical {A} (answer : World → nat → Res A) c s :
  listening s = true →
  Exists refused (w_events W (length (calls s)))
  ∨ Exists react_error (w_events W (length (calls s))) →
  criticalErrorOccurred (Service.call W answer c s).2 = true.
Proof.
  intros Hlistening Hevents. unfold Service.call. rewrite await_eq.
  cbn [snd criticalErrorOccurred set_calls]. unfold arrive.
  rewrite Hlistening. apply service_deliver_critical. by right.
Qed.

(** A pass that starts with the flag unset does not return from the run,
    whatever arrives while it is under way. *)
Lemma router_iteration_goes_on s o :
  criticalErrorOccurred s = false → (Router.iteration W s).1 ≠ Ok (Return o).
Proof.
  intros Hflag. unfold Router.iteration. run.
  cbn [criticalErrorOccurred set_entered]. rewrite Hflag.
  assert (returns (λ flow, flow ≠ Return o)
            (bind (extractPageContent W Router.on_event)
               (λ _, bind (Router.generateNextStep W)
                  (λ nextStep, bind (gets stepCount)
                     (λ n,
                        if negb (truthy nextStep) then
                          bind (log ("Step " +:+ pretty (n + 1) +:+
                                     ": Failed to generate next step" +:+ nl))
                            (λ _, ret Break)
                        else
                          bind (log ("Step " +:+ pretty (n + 1) +:+ ": " +:+
                                     JSON_stringify nextStep +:+ nl))
                            (λ _, Router.guard_and_act W nextStep))))))
    as Hrest.
  { unfold Router.guard_and_act. cbv zeta. returns_auto; done. }
  intros Hflow. exact (Hrest _ _ Hflow eq_refl).
Qed.

Lemma service_iteration_goes_on s o :
  criticalErrorOccurred s = false → (Service.iteration W s).1 ≠ Ok (Return o).
Proof.
  intros Hflag. unfold Service.iteration. run.
  cbn [criticalErrorOccurred set_entered]. rewrite Hflag.
  assert (returns (λ flow, flow ≠ Return o)
            (bind (extractPageContent W Service.on_event)
               (λ _, bind (Service.generateNextStep W)
                  (λ nextStep, bind (gets stepCount)
                     (λ n,
                        if negb (truthy nextStep) then
                          bind (log ("Step " +:+ pretty (n + 1) +:+
                                     ": Failed to generate next step" +:+ nl))
                            (λ _, ret Break)
                        else
                          bind (log ("Step " +:+ pretty (n + 1) +:+ ": " +:+
                                     JSON_stringify nextStep +:+ nl))
                            (λ _, Service.guard_and_act W nextStep))))))
    as Hrest.
  { unfold Service.guard_and_act. cbv zeta. returns_auto; done. }
  intros Hflow. exact (Hrest _ _ Hflow eq_refl).
Qed.

(** A signal that arrives while the page content is read, the first call
    of a pass, leaves the flag set at the end of that pass. *)
Lemma router_iteration_signalled s :
  listening s = true →
  Exists refused (w_events W (length (calls s))) →
  criticalErrorOccurred (Router.iteration W s).2 = true.
Proof.
  intros Hlistening Hevents. unfold Router.iteration. run.
  cbn [criticalErrorOccurred set_entered].
  destruct (criticalErrorOccurred s) eqn:Hflag; [by run|].
  apply (bind_post (λ x, criticalErrorOccurred x = true)).
  { by apply router_call_critical. }
  intros content s1 Hs1.
  apply (bind_post (λ x, criticalErrorOccurred x = true)).
  { exact (router_generateNextStep W (raised criticalErrorOccurred) s1 Hs1). }
  intros nextStep s2 Hs2. run. destruct (negb (truthy nextStep)); run.
  - done.
  - by apply (router_guard_and_act W (raised criticalErrorOccurred)).
Qed.

Lemma service_iteration_signalled s :
  listening s = true →
  Exists refused (w_events W (length (calls s)))
  ∨ Exists react_error (w_events W (length (calls s))) →
  criticalErrorOccurred (Service.iteration W s).2 = true.
Proof.
  intros Hlistening Hevents. unfold Service.iteration. run.
  cbn [criticalErrorOccurred set_entered].
  destruct (criticalErrorOccurred s) eqn:Hflag; [by run|].
  apply (bind_post (λ x, criticalErrorOccurred x = true)).
  { by apply service_call_critical. }
  intros content s1 Hs1.
  apply (bind_post (λ x, criticalErrorOccurred x = true)).
  { exact (service_generateNextStep W (raised criticalErrorOccurred) s1 Hs1). }
  intros nextStep s2 Hs2. run. destruct (negb (truthy nextStep)); run.
  - done.
  - by apply (service_guard_and_act W (raised criticalErrorOccurred)).
Qed.

(** A pass hands at most one proposal to the executor. *)
Lemma guarded_executed g r g' :
  guarded g r g' → length (g_executed g') ≤ length (g_executed g) + 1.
Proof. intros []; simpl; rewrite ?length_app; simpl; lia. Qed.

Lemma router_iteration_executed s :
  length (executed (Router.iteration W s).2) ≤ length (executed s) + 1.
Proof.
  destruct (Router.iteration W s) as [r s'] eqn:Hpass.
  apply router_iteration_pass in Hpass as [[Hg _]|Hg].
  - apply (f_equal g_executed) in Hg. simpl in *. rewrite Hg. lia.
  - apply guarded_executed in Hg. exact Hg.
Qed.

Lemma service_iteration_executed s :
  length (executed (Service.iteration W s).2) ≤ length (executed s) + 1.
Proof.
  destruct (Service.iteration W s) as [r s'] eqn:Hpass.
  apply service_iteration_pass in Hpass as [[Hg _]|Hg].
  - apply (f_equal g_executed) in Hg. simpl in *. rewrite Hg. lia.
  - apply guarded_executed in Hg. exact Hg.
Qed.

Lemma router_report_returns :
  returns (λ o, o_error o = None) (Router.report W).
Proof. unfold Router.report. returns_auto. done. Qed.

Lemma router_flagged_pass s :
  criticalErrorOccurred s = true →
  Router.iteration W s = (Ok (Return (critical_outcome s)), stopping s).
Proof. intros Hflag. unfold Router.iteration. run. simpl. rewrite Hflag. run. done. Qed.

Lemma service_flagged_pass s :
  criticalErrorOccurred s = true →
  Service.iteration W s = (Ok (Return (critical_outcome s)), stopping s).
Proof. intros Hflag. unfold Service.iteration. run. simpl. rewrite Hflag. run. done. Qed.

(** The loop from a loop test at which the flag is set: it ends there, or
    its one pass returns the Critical error outcome. *)
Lemma router_flagged_loop fuel s :
  criticalErrorOccurred s = true →
  Router.while_loop W fuel s = (Ok Done, s)
  ∨ Router.while_loop W fuel s = (Ok OutOfFuel, s)
  ∨ Router.while_loop W fuel s
    = (Ok (Returned (critical_outcome s)), stopping s).
Proof.
  intros Hflag.
  destruct fuel; simpl; run;
    destruct (negb (taskCompleted s) && (stepCount s <? Router.maxSteps));
    run; auto.
  rewrite bind_eq, (router_flagged_pass s Hflag). run. auto.
Qed.

Lemma service_flagged_loop fuel s :
  criticalErrorOccurred s = true →
  Service.while_loop W fuel s = (Ok Done, s)
  ∨ Service.while_loop W fuel s = (Ok OutOfFuel, s)
  ∨ Service.while_loop W fuel s
    = (Ok (Returned (critical_outcome s)), stopping s).
Proof.
  intros Hflag.
  destruct fuel; simpl; run;
    destruct (negb (taskCompleted s) && (stepCount s <? Service.maxSteps));
    run; auto.
  rewrite bind_eq, (service_flagged_pass s Hflag). run. auto.
Qed.

End CriticalFlag.

(** C8, as amended.  The critical flag is read in one place, the head of
    a loop pass.  A pass that finds it set returns the Critical error
    outcome at once, in both variants: it makes no call and hands nothing
    to the executor, and neither does the loop from a loop test at which
    the flag is set.  The observers set the flag while a call is pending:
    a refused connection or an unresolved name in both variants, a React
    page error in the service variant; once set it stays set, so that a
    signal that arrives while a pass reads the page leaves the flag set at
    the end of that pass.  The pass that is under way when the signal
    arrives is not cut short: a pass that started with the flag unset
    never returns from the run, it hands at most one proposal to the
    executor, and the report that follows the loop carries no error. *)
Theorem C8_critical_at_loop_head `{JsonHost} (W : World) s :
  criticalErrorOccurred s = true →
  (Router.iteration W s = (Ok (Return (critical_outcome s)), stopping s) ∧
   Service.iteration W s = (Ok (Return (critical_outcome s)), stopping s) ∧
   calls (stopping s) = calls s ∧
   executed (stopping s) = executed s ∧
   o_error (critical_outcome s) = Some "Critical error") ∧
  (∀ fuel,
     calls (Router.while_loop W fuel s).2 = calls s ∧
     executed (Router.while_loop W fuel s).2 = executed s ∧
     calls (Service.while_loop W fuel s).2 = calls s ∧
     executed (Service.while_loop W fuel s).2 = executed s) ∧
  (∀ nextStep,
     criticalErrorOccurred (Router.guard_and_act W nextStep s).2 = true ∧
     criticalErrorOccurred (Service.guard_and_act W nextStep s).2 = true) ∧
  (∀ A (answer : World → nat → Res A) c s0,
     listening s0 = true →
     (Exists refused (w_events W (length (calls s0))) →
      criticalErrorOccurred (Router.call W answer c s0).2 = true ∧
      criticalErrorOccurred (Service.call W answer c s0).2 = true) ∧
     (Exists react_error (w_events W (length (calls s0))) →
      criticalErrorOccurred (Service.call W answer c s0).2 = true)) ∧
  (∀ s0,
     listening s0 = true →
     Exists refused (w_events W (length (calls s0))) →
     criticalErrorOccurred (Router.iteration W s0).2 = true ∧
     criticalErrorOccurred (Service.iteration W s0).2 = true) ∧
  (∀ s0 o,
     criticalErrorOccurred s0 = false →
     (Router.iteration W s0).1 ≠ Ok (Return o) ∧
     (Service.iteration W s0).1 ≠ Ok (Return o)) ∧
  (∀ s0,
     length (executed (Router.iteration W s0).2) ≤ length (executed s0) + 1 ∧
     length (executed (Service.iteration W s0).2) ≤ length (executed s0) + 1) ∧
  (∀ s0 o,
     ((Router.report W s0).1 = Ok o → o_error o = None) ∧
     ((Service.report W s0).1 = Ok o → o_error o = None)).
Proof.
  intros Hflag.
  split; [|split; [|split; [|split; [|split; [|split; [|split]]]]]].
  - split; [by apply router_flagged_pass|].
    split; [by apply service_flagged_pass|done].
  - intros fuel.
    destruct (router_flagged_loop W fuel s Hflag) as [-> | [-> | ->]];
      destruct (service_flagged_loop W fuel s Hflag) as [-> | [-> | ->]]; done.
  - intros nextStep. split.
    + exact (router_guard_and_act W (raised criticalErrorOccurred) nextStep s
               Hflag).
    + exact (service_guard_and_act W (raised criticalErrorOccurred) nextStep s
               Hflag).
  - intros A answer c s0 Hlistening. split.
    + intros Hevents. split.
      * by apply router_call_critical.
      * apply service_call_critical; auto.
    + intros Hevents. apply service_call_critical; auto.
  - intros s0 Hlistening Hevents. split.
    + by apply router_iteration_signalled.
    + apply service_iteration_signalled; auto.
  - intros s0 o Hs0. split.
    + by apply router_iteration_goes_on.
    + by apply service_iteration_goes_on.
  - intros s0. split.
    + apply router_iteration_executed.
    + apply service_iteration_executed.
  - intros s0 o. split.
    + apply router_report_returns.
    + apply service_report_returns.
Qed.

(** * The properties at concrete inputs *)

(** C10 at a state in which CLICK on #go stands at 3 attempts. *)
Lemma C10_witness :
  Router.guard_and_act (H:=demo_host) (calm "") click_go after_three_clicks
  = (Ok Next, skipping click_go after_three_clicks).
Proof.
  refine (proj1 (C10_skip_frame (H:=demo_host) (calm "") after_three_clicks
                   click_go 3 _ _)).
  - vm_compute. reflexivity.
  - lia.
Defined.

(** C8 at the second loop test of a run whose first pass clicked after a
    request of the page had been refused. *)
Lemma C8_witness :
  executed after_critical_signal = ["CLICK_#go"] ∧
  Service.iteration (H:=demo_host) (failing_request 5 (print click_go))
    after_critical_signal
  = (Ok (Return (critical_outcome after_critical_signal)),
     stopping after_critical_signal).
Proof.
  split; [vm_compute; reflexivity|].
  refine (proj1 (proj2 (proj1 (C8_critical_at_loop_head (H:=demo_host)
            (failing_request 5 (print click_go)) after_critical_signal _)))).
  vm_compute. reflexivity.
Defined.

(** C7 at a state in which NAVIGATE is completed. *)
Lemma C7_witness :
  Router.execute (H:=demo_host) (calm "") navigate_home after_navigation
  = (Ok tt, idle_step after_navigation).
Proof.
  refine (proj1 (C7_navigate_once (H:=demo_host) (calm "") after_navigation
                   navigate_home _ _)).
  - reflexivity.
  - constructor.
Defined.

(** C9 for a first SUMMARIZE proposal on a calm page. *)
Lemma C9_witness :
  taskCompleted
    (Router.guard_and_act (H:=demo_host) (calm "A summary.") summarize
       initial).2 = true.
Proof.
  refine (proj1 (proj1 (C9_summarize_completes (H:=demo_host)
            (calm "A summary.") initial summarize "text" (Some "A summary.")
            _ _ _ _))).
  - reflexivity.
  - vm_compute. reflexivity.
  - reflexivity.
  - reflexivity.
Defined.

(** C3 for a chatty reply, in both variants. *)
Lemma C3_witness :
  (Router.generateNextStep (H:=demo_host) (calm chatter) initial).1
  = Ok default_step ∧
  (Service.generateNextStep (H:=demo_host) (calm chatter) initial).1
  = Ok default_step.
Proof.
  split.
  - refine (proj1 (C3_default_on_malformed (H:=demo_host) (calm chatter)
                     initial) _).
    right. split; [vm_compute; reflexivity|].
    intros object Hobject. vm_compute in Hobject.
    injection Hobject as <-. vm_compute. reflexivity.
  - refine (proj1 (proj2 (C3_default_on_malformed (H:=demo_host)
                            (calm chatter) initial)) _).
    right. right. vm_compute. reflexivity.
Defined.

(** C6 for a first navigation answered by status 500. *)
Lemma C6_witness :
  (Router.runQualityAnalysis (H:=demo_host)
     (answering server_error (print summarize)) 10 "https://example.com/"
     "open the page" initial).1
  = Ok (Some {| o_result := "Critical error: HTTP status 500" +:+ nl;
                o_screenshots := Some [];
                o_error := Some "HTTP status 500" |}).
Proof.
  refine (proj1 (proj1 (C6_http_failure (H:=demo_host)
            (answering server_error (print summarize)) 10
            "https://example.com/" "open the page" server_error
            _ _ _ _ _ _) _)).
  - reflexivity.
  - reflexivity.
  - reflexivity.
  - reflexivity.
  - reflexivity.
  - reflexivity.
  - simpl. lia.
Defined.

(** C4 for a run whose last request to the model is refused. *)
Lemma C4_witness :
  (Service.runQualityAnalysis (H:=demo_host) (refusing 9 (print summarize)) 15
     "https://example.com/" "summarize the page" initial).1
  = Ok (Some (failure_outcome "429 rate limit")).
Proof.
  refine (proj1 (C4_failure_outcome (H:=demo_host)
            (refusing 9 (print summarize)) 15 "https://example.com/"
            "summarize the page" "429 rate limit"
            (Service.session (H:=demo_host) (refusing 9 (print summarize)) 15
               "https://example.com/" initial).2 _ _)).
  - vm_compute. reflexivity.
  - vm_compute. reflexivity.
Defined.

(** * Runs on which a variant behaves otherwise *)

(** C1.  The model proposes, at every step, a step whose action is
    [__proto_] and that has no selector, so that its signature is
    [__proto__].  The guard never counts it and never skips it: the
    executor is handed the proposal at each of the 10 steps of the router
    variant and at each of the 15 of the service variant, and the map of
    attempts stays empty. *)
Theorem C1_prototype_signature_uncapped :
  let router :=
    (Router.runQualityAnalysis (H:=proto_host) (calm (print proto_step)) 10
       "https://example.com/" "open the page" initial).2 in
  let service :=
    (Service.runQualityAnalysis (H:=proto_host) (calm (print proto_step)) 15
       "https://example.com/" "open the page" initial).2 in
  actionKey proto_step = "__proto__" ∧
  (executed router = replicate 10 "__proto__" ∧
   skipped router = [] ∧
   actionAttempts router !! "__proto__" = None ∧
   includes "Skipping repeated action" (result router) = false) ∧
  (executed service = replicate 15 "__proto__" ∧
   skipped service = [] ∧
   actionAttempts service !! "__proto__" = None ∧
   includes "Skipping repeated action" (result service) = false).
Proof. repeat split; vm_compute; reflexivity. Qed.

(** C3: the next-step generator of the task executor raises on a reply
    that is not JSON; it has no default proposal. *)
Lemma C3_counterexample :
  JSON_parse (JsonHost:=demo_host) (trim chatter) = None ∧
  (Social.generateNextStep (H:=demo_host) (calm chatter) initial).1
  = Throw "Failed to get a valid JSON response. Please try again.".
Proof. split; vm_compute; reflexivity. Qed.

(** C4: the model refuses the request for the final summary after one
    SUMMARIZE step; the outcome carries the fixed text, not the transcript
    the run had accumulated. *)
Lemma C4_counterexample :
  let run :=
    Service.runQualityAnalysis (H:=demo_host) (refusing 9 (print summarize))
      15 "https://example.com/" "summarize the page" initial in
  run.1 = Ok (Some {| o_result := "An error occurred during the analysis";
                      o_screenshots := None;
                      o_error := Some "429 rate limit" |}) ∧
  String.prefix "Step 1: " (result run.2) = true ∧
  executed run.2 = ["SUMMARIZE_"] ∧
  includes "Step 1: " "An error occurred during the analysis" = false.
Proof. repeat split; vm_compute; reflexivity. Qed.

(** C5: the task executor returns its outcome with the browser still open
    and without a single call of close. *)
Lemma C5_counterexample :
  let run :=
    Social.executeWebTask (H:=task_host) (calm (print start_and_finish)) 20
      "find a video" initial in
  (∃ outcome, run.1 = Ok (Some outcome) ∧
              t_livePageUrl outcome = VStr "https://example.com/") ∧
  browser run.2 = true ∧
  closes run.2 = 0.
Proof.
  split; [eexists; split; vm_compute; reflexivity|].
  split; vm_compute; reflexivity.
Qed.

(** C6: the first navigation of the router variant is answered by status
    304, which is not a success; the run goes on, takes a step and returns
    without an error. *)
Lemma C6_counterexample :
  let run :=
    Router.runQualityAnalysis (H:=demo_host)
      (answering not_modified (print summarize)) 10 "https://example.com/"
      "open the page" initial in
  ok not_modified = false ∧
  (∃ outcome, run.1 = Ok (Some outcome) ∧ o_error outcome = None) ∧
  entered run.2 = [0] ∧
  executed run.2 = ["SUMMARIZE_"] ∧
  stepCount run.2 = 1 ∧
  taskCompleted run.2 = true.
Proof.
  split; [reflexivity|].
  split; [eexists; split; vm_compute; reflexivity|].
  repeat split; vm_compute; reflexivity.
Qed.

(** C7: the variant of root.ts navigates on every NAVIGATE proposal: the
    first navigation and one for each of the fifteen steps. *)
Lemma C7_counterexample :
  let run :=
    RootPart.runQualityAnalysis (H:=demo_host) (calm (print navigate_blank))
      15 "https://example.com/" "go to the blank page" initial in
  navigations run.2 = 16 ∧
  completedActions run.2 = replicate 15 "NAVIGATE" ∧
  executed run.2 = replicate 15 "NAVIGATE_".
Proof. repeat split; vm_compute; reflexivity. Qed.

(** C8: a request of the page is refused while the first pass of the
    router variant waits for the model's proposal (call 4).  The pass goes
    on: the proposal is handed to the executor and the click is made (call
    6) before the next pass returns the Critical error outcome.  When the
    proposal is SUMMARIZE instead, the pass completes the task and the run
    reports without an error, in both variants, with the flag set. *)
Lemma C8_counterexample :
  let clicking :=
    Router.runQualityAnalysis (H:=demo_host)
      (failing_request 4 (print click_go)) 10 "https://example.com/"
      "press go" initial in
  let summarizing :=
    Router.runQualityAnalysis (H:=demo_host)
      (failing_request 4 (print summarize)) 10 "https://example.com/"
      "summarize the page" initial in
  let service :=
    Service.runQualityAnalysis (H:=demo_host)
      (failing_request 5 (print summarize)) 15 "https://example.com/"
      "summarize the page" initial in
  Exists refused (w_events (failing_request 4 (print click_go)) 4) ∧
  (calls clicking.2 !! 4 = Some (Chat "generateNextStep") ∧
   calls clicking.2 !! 6 = Some (Click (VStr "#go")) ∧
   executed clicking.2 = ["CLICK_#go"] ∧
   (∃ outcome, clicking.1 = Ok (Some outcome) ∧
               o_error outcome = Some "Critical error")) ∧
  (criticalErrorOccurred summarizing.2 = true ∧
   executed summarizing.2 = ["SUMMARIZE_"] ∧
   ∃ outcome, summarizing.1 = Ok (Some outcome) ∧ o_error outcome = None) ∧
  (calls service.2 !! 5 = Some (Chat "generateNextStep") ∧
   criticalErrorOccurred service.2 = true ∧
   executed service.2 = ["SUMMARIZE_"] ∧
   ∃ outcome, service.1 = Ok (Some outcome) ∧ o_error outcome = None).
Proof.
  split.
  { constructor. eexists _, _. split; [reflexivity|].
    split; [done|]. left. vm_compute. reflexivity. }
  repeat split; try (vm_compute; reflexivity);
    eexists; split; vm_compute; reflexivity.
Qed.

(** C9: in the first variant of part_001 a SUMMARIZE step leaves the flag
    as it is; the run summarizes ten times and ends on its budget. *)
Lemma C9_counterexample :
  let run :=
    Legacy.runQualityAnalysis (H:=demo_host) (calm (print summarize)) 10
      "https://example.com/" "summarize the page" initial in
  taskCompleted run.2 = false ∧
  executed run.2 = replicate 10 "SUMMARIZE_" ∧
  stepCount run.2 = 10 ∧
  includes "Maximum steps reached without completing the task."
    (result run.2) = true.
Proof. repeat split; vm_compute; reflexivity. Qed.

(** * The further properties at concrete inputs *)


(** X3 for a proposal in a sentence. *)
Lemma X3_witness :
  (Router.generateNextStep (H:=demo_host)
     (calm ("Sure! Here is the step: " +:+ "{" +:+ click_go_members +:+ "}"
            +:+ " Done."))
     initial).1 = Ok click_go.
Proof.
  refine (X3_object_in_prose (H:=demo_host) _ initial
            "Sure! Here is the step: " click_go_members " Done." click_go
            _ _ _ _ _); vm_compute; reflexivity.
Defined.

(** X6 for a click on #go. *)
Lemma X6_witness :
  ∃ s' text,
    Service.execute (H:=demo_host) (calm "") click_go initial = (Ok tt, s') ∧
    completedActions s' = completedActions initial ++ ["CLICK_" +:+ "#go"] ∧
    result s' = text +:+ "Step completed successfully" +:+ nl.
Proof.
  refine (X6_click_always_completed (H:=demo_host) (calm "") click_go "#go"
            initial _ _ _).
  - reflexivity.
  - reflexivity.
  - discriminate.
Defined.

(** X9 for a model that keeps proposing to dance. *)
Lemma X9_witness :
  let run :=
    Social.executeWebTask (H:=wander_host) (calm (print wander)) 50
      "find a video" initial in
  run.1 = Ok None ∧ stepCount run.2 = 0 ∧ length (entered run.2) = 50.
Proof.
  refine (proj2 (X9_stray_steps_are_free (H:=wander_host)
                   (calm (print wander)) wander "find a video" _ _)
            _ _ _ 50).
  - split.
    + exists "look around". split; [reflexivity|].
      split; vm_compute; reflexivity.
    + exists "DANCE". split; [reflexivity|].
      split; [discriminate|].
      apply (bool_decide_unpack _). vm_compute. exact I.
  - intros i. exists (print wander). split; vm_compute; reflexivity.
  - reflexivity.
  - reflexivity.
  - eexists. reflexivity.
Defined.

(** X10 on a calm page. *)
Lemma X10_witness :
  ∃ outcome,
    (Social.executeWebTask (H:=task_host) (calm (print start_and_finish)) 20
       "find a video" initial).1 = Ok outcome.
Proof.
  refine (proj1 (X10_task_errors_contained (H:=task_host)
                   (calm (print start_and_finish)) 20 "find a video" _ _));
    reflexivity.
Defined.


(** X12 for a run whose last request to the model is refused. *)
Lemma X12_witness :
  (Api.handler (H:=demo_host) (refusing 9 (print summarize)) 15 "POST"
     request_body initial).1
  = Ok (Some {| r_status := 200; r_allow := None;
                r_payload := Json (failure_outcome "429 rate limit") |}).
Proof.
  refine (X12_route_failure_is_200 (H:=demo_host)
            (refusing 9 (print summarize)) 15 "https://example.com/"
            "summarize the page" "429 rate limit"
            (Service.session (H:=demo_host) (refusing 9 (print summarize)) 15
               "https://example.com/" initial).2 _ _ _ _).
  - discriminate.
  - discriminate.
  - vm_compute. reflexivity.
  - vm_compute. reflexivity.
Defined.

(** X16 for a navigation that outlasts its timer. *)
Lemma X16_witness :
  let run :=
    Service.runQualityAnalysis (H:=demo_host) (slow (print summarize)) 15
      "https://example.com/" "summarize the page" initial in
  run.1 = Ok (Some {| o_result := "Navigation failed due to timeout";
                      o_screenshots := Some [];
                      o_error := Some "Page load timed out" |}) ∧
  no_step_taken run.2 ∧ closes run.2 = 1.
Proof.
  refine (proj1 (X16_first_navigation_edges (H:=demo_host)
                   (slow (print summarize)) 15 "https://example.com/"
                   "summarize the page" _ _ _) _); reflexivity.
Defined.


